(** * Payever-Mobile-RN: the communication store and its conversation model

    A shallow embedding of [CommunicationStore] (store/communication/index.js)
    and of the [Conversation] model (store/communication/models/Conversation.js).

    JavaScript values are modelled as follows.
    - numbers that are ids, limits and millisecond clocks: [Z];
    - arrays: [list]; the MobX [ObservableMap] of loaded conversations: [gmap Z];
    - [null] / [undefined] object references: [option];
    - a thrown [TypeError] (a rejected promise for an [async] method): [Throw];
    - calls on the socket and other outward effects: an effect log, each entry
      stamped with the store as it was when the call was issued;
    - lodash timers ([debounce], [throttle]): explicit closure state with the
      absolute time of the pending [setTimeout]; the clock is passed in.

    An [async] method is modelled run to completion, with what the transport
    answers given by an [Api]; where the source starts an [async] method
    without awaiting it ([deleteGroup]), the part before its first [await]
    and the rest are separate steps.  [await getSocket()] is taken to
    resolve.  Records hold the fields that the modelled methods read or
    write. *)

From stdpp Require Import gmap strings list pretty.

(** ** lodash 4: [debounce] and [throttle]

    The store imports [throttle] and the conversation model imports [debounce]
    from lodash.  The closure variables of lodash's [debounce] are the fields of
    [Debounced]; [debounced] is the wrapper that callers invoke and
    [timerExpired] is the [setTimeout] callback.  Each step returns the
    arguments with which the wrapped function has been invoked, if it has. *)
Module Lodash.
Local Open Scope Z_scope.

Record Options : Type := {
  leading : bool;
  maxWait : option Z;
  trailing : bool;
}.

Record Debounced (A : Type) : Type := mkDebounced {
  wait : Z;
  options : Options;
  lastArgs : option A;
  timerId : option Z;        (* time at which the pending timer fires *)
  lastCallTime : option Z;
  lastInvokeTime : Z;
}.
Arguments mkDebounced {A}.
Arguments wait {A}.
Arguments options {A}.
Arguments lastArgs {A}.
Arguments timerId {A}.
Arguments lastCallTime {A}.
Arguments lastInvokeTime {A}.

Section Debounce.
Context {A : Type}.
Implicit Types (d : Debounced A) (time : Z).

(** [debounce(func, wait)]: trailing edge only. *)
Definition debounce (w : Z) : Debounced A :=
  mkDebounced w {| leading := false; maxWait := None; trailing := true |}
    None None None 0.

(** [throttle(func, wait)] is
    [debounce(func, wait, {leading: true, maxWait: wait, trailing: true})]. *)
Definition throttle (w : Z) : Debounced A :=
  mkDebounced w {| leading := true; maxWait := Some w; trailing := true |}
    None None None 0.

Definition invokeFunc d time : Debounced A * option A :=
  (mkDebounced (wait d) (options d) None (timerId d) (lastCallTime d) time,
   lastArgs d).

Definition leadingEdge d time : Debounced A * option A :=
  let d1 := mkDebounced (wait d) (options d) (lastArgs d)
              (Some (time + wait d)) (lastCallTime d) time in
  if leading (options d) then invokeFunc d1 time else (d1, None).

Definition remainingWait d time : Z :=
  let timeSinceLastCall := time - default 0 (lastCallTime d) in
  let timeSinceLastInvoke := time - lastInvokeTime d in
  let timeWaiting := wait d - timeSinceLastCall in
  match maxWait (options d) with
  | Some mw => Z.min timeWaiting (mw - timeSinceLastInvoke)
  | None => timeWaiting
  end.

Definition shouldInvoke d time : bool :=
  match lastCallTime d with
  | None => true
  | Some lc =>
      (wait d <=? time - lc) || (time - lc <? 0) ||
      match maxWait (options d) with
      | Some mw => (mw <=? time - lastInvokeTime d)
      | None => false
      end
  end.

Definition trailingEdge d time : Debounced A * option A :=
  let d1 := mkDebounced (wait d) (options d) (lastArgs d) None
              (lastCallTime d) (lastInvokeTime d) in
  if trailing (options d) && bool_decide (is_Some (lastArgs d))
  then invokeFunc d1 time
  else (mkDebounced (wait d) (options d) None None
          (lastCallTime d) (lastInvokeTime d), None).

Definition timerExpired d time : Debounced A * option A :=
  if shouldInvoke d time then trailingEdge d time
  else (mkDebounced (wait d) (options d) (lastArgs d)
          (Some (time + remainingWait d time))
          (lastCallTime d) (lastInvokeTime d), None).

Definition debounced d time (args : A) : Debounced A * option A :=
  let isInvoking := shouldInvoke d time in
  let d1 := mkDebounced (wait d) (options d) (Some args) (timerId d)
              (Some time) (lastInvokeTime d) in
  let arm d' :=
    match timerId d' with
    | None => mkDebounced (wait d') (options d') (lastArgs d')
                (Some (time + wait d')) (lastCallTime d') (lastInvokeTime d')
    | Some _ => d'
    end in
  if isInvoking then
    match timerId d1 with
    | None => leadingEdge d1 time
    | Some _ =>
        if bool_decide (is_Some (maxWait (options d1))) then
          invokeFunc
            (mkDebounced (wait d1) (options d1) (lastArgs d1)
               (Some (time + wait d1)) (lastCallTime d1) (lastInvokeTime d1))
            time
        else (arm d1, None)
    end
  else (arm d1, None).

(** The event loop: the pending timer fires at the time it was set for.  A
    timer that re-arms itself is run again while it is due; [fuel] bounds the
    number of expiries. *)
Fixpoint runTimers (fuel : nat) d (t : Z) : Debounced A * list (Z * A) :=
  match fuel with
  | O => (d, [])
  | S n =>
      match timerId d with
      | Some dl =>
          if dl <=? t then
            let '(d1, inv) := timerExpired d dl in
            let '(d2, l) := runTimers n d1 t in
            (d2, match inv with Some a => (dl, a) :: l | None => l end)
          else (d, [])
      | None => (d, [])
      end
  end.

(** Without intervening calls a timer expires at most twice: once at the time
    it was first set for and once at the time it re-armed itself for. *)
Definition advance d (t : Z) : Debounced A * list (Z * A) := runTimers 2 d t.

(** The closure state as it can be when the clock reads [now] and every
    timer that was due has fired: a pending timer lies in the future and at
    most [wait] after the last call; without a pending timer no arguments are
    kept. *)
Definition timer_ok (now : Z) d : Prop :=
  0 < wait d ∧
  trailing (options d) = true ∧
  (maxWait (options d) = None ∨ maxWait (options d) = Some (wait d)) ∧
  lastInvokeTime d ≤ now ∧
  match timerId d with
  | Some dl =>
      now < dl ∧ ∃ lc, lastCallTime d = Some lc ∧ lc ≤ now ∧ dl ≤ lc + wait d
  | None => lastArgs d = None ∧ ∀ lc, lastCallTime d = Some lc → lc ≤ now
  end.

(** The time at which the pending timer hands the kept arguments to the
    wrapped function when no further call is made: the time the timer is set
    for or, if the timer has to re-arm itself then, the time it re-arms for. *)
Definition deliveryTime d : option Z :=
  match timerId d with
  | Some dl =>
      Some (if shouldInvoke d dl then dl else dl + remainingWait d dl)
  | None => None
  end.

End Debounce.
End Lodash.

Local Open Scope Z_scope.

(** ** Data model *)

(** A message id is a server-assigned number or, for a message that is still
    being sent, the string [String(Date.now())].  JavaScript's [===] never
    identifies a number with a string, which is equality on [MsgId]. *)
Inductive MsgId : Type :=
| NumId (n : Z)
| StrId (s : string).

#[global] Instance MsgId_eq_dec : EqDecision MsgId.
Proof. solve_decision. Defined.

(** [String(n)] for an integer [n]. *)
Definition String_of_number (n : Z) : string := pretty n.

(** The fields of a message object that the store and the conversation model
    read or write.  [m_conversation] is [message.conversation.id] ([None] when
    the object has no [conversation]); the object built by [addSendingMessage]
    carries [conversationId] and [isSendingMessage] instead. *)
Record Message : Type := mkMessage {
  m_id : MsgId;
  m_conversation : option Z;
  m_conversationId : option Z;
  m_body : string;
  m_messengerUser : option Z;
  m_date : Z;
  m_unread : bool;
  m_isSendingMessage : bool;
}.

#[global] Instance Message_eq_dec : EqDecision Message.
Proof. solve_decision. Defined.

(** [ConversationStatus] (exported type of Conversation.js). *)
Record ConversationStatus : Type := mkStatus {
  st_conversationId : option Z;
  st_label : option string;
  st_lastVisit : option string;
  st_online : bool;
  st_typing : bool;
  st_userId : Z;
}.

(** A status object as pushed by the server; [typing] may be absent. *)
Record StatusPush : Type := mkPush {
  p_conversationId : option Z;
  p_label : option string;
  p_lastVisit : option string;
  p_online : bool;
  p_typing : option bool;
  p_userId : Z;
}.

Record Settings : Type := mkSettings {
  notification : bool;
}.

Record Conversation : Type := mkConversation {
  c_archived : bool;
  c_id : Z;
  c_messages : list Message;
  c_name : string;
  c_status : option ConversationStatus;
  c_type : string;
  c_settings : option Settings;
  c_allMessagesFetched : bool;
  (* closure state of [this::debounce(this.updateTypingStatusLazily, 6000)] *)
  c_typingTimer : Lodash.Debounced unit;
}.

(** The object the transport returns for [getConversation]. *)
Record ConversationData : Type := mkData {
  d_archived : bool;
  d_id : Z;
  d_messages : option (list Message);
  d_name : string;
  d_status : option ConversationStatus;
  d_type : string;
}.

(** A roster entry ([ConversationInfo]). *)
Record ConversationInfo : Type := mkInfo {
  ci_id : Z;
  ci_name : string;
  ci_type : string;
  ci_unreadCount : Z;
}.

Record MessengerInfo : Type := mkMessengerInfo {
  mi_conversations : list ConversationInfo;
  mi_groups : list ConversationInfo;
  mi_messengerUser : Z;
}.

Record SendOptions : Type := mkSendOptions {
  o_conversationId : Z;
  o_body : string;
  o_channelSetId : string;
  o_replyToId : option MsgId;
}.

(** Outward effects: the calls on the socket, the sound cue, the roster reload
    and [log.error]. *)
Inductive Effect : Type :=
| GetConversation (id : Z) (type : string) (limit : Z)
| GetConversationSettings (id : Z)
| GetChatGroupSettings (id : Z)
| GetMarketingGroupSettings (id : Z)
| UpdateMessagesReadStatus (ids : list MsgId)
| SendMessage (o : SendOptions)
| DeleteMessage (id : MsgId)
| UpdateTypingStatus (conversationId : Z)
| DeleteGroup (groupId : Z)
| PlayMsgSent
| LoadMessengerInfo
| LogError.

Record CommunicationStore : Type := mkStore {
  conversations : gmap Z Conversation;
  messengerInfo : option MessengerInfo;
  isLoading : bool;
  error : string;
  selectedConversationId : option Z;
  selectedMessages : list Message;
  messageForReply : option Message;
  messageForEdit : option Message;
  (* closure state of [this::throttle(this.updateTypingStatus, 5000)] *)
  typingThrottle : Lodash.Debounced Z;
}.

(** An effect, the time at which it was issued and the store as it was at
    that moment. *)
Record Issued : Type := mkIssued {
  i_time : Z;
  i_effect : Effect;
  i_store : CommunicationStore;
}.

(** The store, the clock ([Date.now()], in milliseconds) and the effects
    issued so far, oldest first. *)
Record World : Type := mkWorld {
  store : CommunicationStore;
  clock : Z;
  effects : list Issued;
}.

Inductive JsError : Type :=
| TypeError (what : string).

(** Outcome of a method: a value and the world it leaves, or an exception
    (for an [async] method, a rejected promise) and the world at the throw. *)
Inductive result (A : Type) : Type :=
| Ok (a : A) (w : World)
| Throw (e : JsError) (w : World).
Arguments Ok {A}.
Arguments Throw {A}.

Definition bind {A B} (r : result A) (k : A -> World -> result B) : result B :=
  match r with
  | Ok a w => k a w
  | Throw e w => Throw e w
  end.

Definition world_of {A} (r : result A) : World :=
  match r with
  | Ok _ w => w
  | Throw _ w => w
  end.

Definition issue (e : Effect) (w : World) : World :=
  mkWorld (store w) (clock w) (effects w ++ [mkIssued (clock w) e (store w)]).

(** Field updates. *)
Definition set_conversations f (s : CommunicationStore) :=
  mkStore (f (conversations s)) (messengerInfo s) (isLoading s) (error s)
    (selectedConversationId s) (selectedMessages s) (messageForReply s)
    (messageForEdit s) (typingThrottle s).
Definition set_messengerInfo v (s : CommunicationStore) :=
  mkStore (conversations s) v (isLoading s) (error s)
    (selectedConversationId s) (selectedMessages s) (messageForReply s)
    (messageForEdit s) (typingThrottle s).
Definition set_selectedConversationId v (s : CommunicationStore) :=
  mkStore (conversations s) (messengerInfo s) (isLoading s) (error s)
    v (selectedMessages s) (messageForReply s)
    (messageForEdit s) (typingThrottle s).
Definition set_selectedMessages v (s : CommunicationStore) :=
  mkStore (conversations s) (messengerInfo s) (isLoading s) (error s)
    (selectedConversationId s) v (messageForReply s)
    (messageForEdit s) (typingThrottle s).
Definition set_messageForReply v (s : CommunicationStore) :=
  mkStore (conversations s) (messengerInfo s) (isLoading s) (error s)
    (selectedConversationId s) (selectedMessages s) v
    (messageForEdit s) (typingThrottle s).
Definition set_messageForEdit v (s : CommunicationStore) :=
  mkStore (conversations s) (messengerInfo s) (isLoading s) (error s)
    (selectedConversationId s) (selectedMessages s) (messageForReply s)
    v (typingThrottle s).
Definition set_typingThrottle v (s : CommunicationStore) :=
  mkStore (conversations s) (messengerInfo s) (isLoading s) (error s)
    (selectedConversationId s) (selectedMessages s) (messageForReply s)
    (messageForEdit s) v.

Definition update (f : CommunicationStore -> CommunicationStore) (w : World)
  : World :=
  mkWorld (f (store w)) (clock w) (effects w).

Definition set_clock (t : Z) (w : World) : World :=
  mkWorld (store w) t (effects w).

Definition set_messages v (c : Conversation) :=
  mkConversation (c_archived c) (c_id c) v (c_name c) (c_status c) (c_type c)
    (c_settings c) (c_allMessagesFetched c) (c_typingTimer c).
Definition set_status v (c : Conversation) :=
  mkConversation (c_archived c) (c_id c) (c_messages c) (c_name c) v (c_type c)
    (c_settings c) (c_allMessagesFetched c) (c_typingTimer c).
Definition set_settings v (c : Conversation) :=
  mkConversation (c_archived c) (c_id c) (c_messages c) (c_name c) (c_status c)
    (c_type c) v (c_allMessagesFetched c) (c_typingTimer c).
Definition set_allMessagesFetched v (c : Conversation) :=
  mkConversation (c_archived c) (c_id c) (c_messages c) (c_name c) (c_status c)
    (c_type c) (c_settings c) v (c_typingTimer c).
Definition set_typingTimer v (c : Conversation) :=
  mkConversation (c_archived c) (c_id c) (c_messages c) (c_name c) (c_status c)
    (c_type c) (c_settings c) (c_allMessagesFetched c) v.

Definition set_unread v (m : Message) :=
  mkMessage (m_id m) (m_conversation m) (m_conversationId m) (m_body m)
    (m_messengerUser m) (m_date m) v (m_isSendingMessage m).
Definition set_typing v (st : ConversationStatus) :=
  mkStatus (st_conversationId st) (st_label st) (st_lastVisit st)
    (st_online st) v (st_userId st).
Definition set_unreadCount v (i : ConversationInfo) :=
  mkInfo (ci_id i) (ci_name i) (ci_type i) v.

(** [m.unread = false] on the messages of a conversation's list, as the other
    holders of these objects see it.  [selectedMessages], [messageForReply]
    and [messageForEdit] hold message objects that the views take from the
    lists on display, so a write to an object of a list is a write to the
    entry they hold.  The model has no object identity: a record held there
    stands for the object of the list that has the same fields. *)
Definition readIfShared (messages : list Message) (m : Message) : Message :=
  if bool_decide (m ∈ messages) then set_unread false m else m.

Definition readShared (messages : list Message) (s : CommunicationStore)
  : CommunicationStore :=
  set_selectedMessages (readIfShared messages <$> selectedMessages s)
    (set_messageForReply (readIfShared messages <$> messageForReply s)
       (set_messageForEdit (readIfShared messages <$> messageForEdit s) s)).

(** [array.findIndex(p)]; [None] stands for [-1]. *)
Fixpoint findIndex {A} (p : A -> bool) (l : list A) : option nat :=
  match l with
  | [] => None
  | x :: l' => if p x then Some O else S <$> findIndex p l'
  end.

(** [s.endsWith(suffix)]. *)
Definition endsWith (s suffix : string) : bool :=
  let n := String.length s in
  let k := String.length suffix in
  (k <=? n)%nat && String.eqb (String.substring (n - k) k s) suffix.

(** A synchronous method that may throw. *)
Inductive except (A : Type) : Type :=
| Return (a : A)
| Raise (e : JsError).
Arguments Return {A}.
Arguments Raise {A}.

(** ** models/Conversation.js *)
Module ConversationModel.

(** Modelled from the spec: the [Message] class (models/Message.js) is not
    among the sources; a Message is "a single message entity with identity,
    body, authorship, timestamps, and transient state flags", so the
    constructor keeps the fields of the object it is given. *)
Definition new_Message (m : Message) : Message := m.

(** [constructor(data)]. *)
Definition constructor (data : ConversationData) : Conversation :=
  mkConversation (d_archived data) (d_id data)
    (new_Message <$> default [] (d_messages data))
    (d_name data)
    (set_typing false <$> d_status data)
    (d_type data) None false (Lodash.debounce 6000).

(** Modelled from the spec: [setConversationSettings] is called by the store
    but is not in the Conversation.js among the sources; the store "fetches and
    attaches settings", so it sets the conversation's settings. *)
Definition setConversationSettings (settings : option Settings)
    (c : Conversation) : Conversation :=
  set_settings settings c.

(** [get isGroup()]. *)
Definition isGroup (c : Conversation) : bool := endsWith (c_type c) "group".

(** [updateMessage(message)]. *)
Definition updateMessage (message : Message) (c : Conversation)
  : except Conversation :=
  let message := new_Message message in
  match m_conversation message with
  | None => Raise (TypeError "message.conversation is undefined")
  | Some cid =>
      if bool_decide (cid ≠ c_id c) then Return c
      else
        match findIndex (λ m, bool_decide (m_id m = m_id message))
                (c_messages c) with
        | Some existedIdx =>
            Return (set_messages (<[existedIdx := message]> (c_messages c)) c)
        | None => Return (set_messages (c_messages c ++ [message]) c)
        end
  end.

(** [updateTypingStatusLazily()], the function wrapped by [debounce]. *)
Definition updateTypingStatusLazily (c : Conversation) : Conversation :=
  set_status (set_typing false <$> c_status c) c.

(** [extendObservable(this.status, status)]: the fields present in the pushed
    object overwrite those of the status. *)
Definition extendStatus (st : ConversationStatus) (p : StatusPush)
  : ConversationStatus :=
  mkStatus
    (match p_conversationId p with Some i => Some i | None => st_conversationId st end)
    (p_label p) (p_lastVisit p) (p_online p)
    (default (st_typing st) (p_typing p))
    (p_userId p).

(** [updateStatus(status, typing = false)], called when the clock reads
    [now]. *)
Definition updateStatus (now : Z) (status : StatusPush) (typing : bool)
    (c : Conversation) : except Conversation :=
  match c_status c with
  | None => Raise (TypeError "extendObservable expects an object")
  | Some st =>
      if negb typing then Return (set_status (Some (extendStatus st status)) c)
      else
        let st1 := mkStatus (st_conversationId st) (st_label st)
                     (p_lastVisit status) true true (st_userId st) in
        let c1 := set_status (Some st1) c in
        let '(timer, inv) := Lodash.debounced (c_typingTimer c1) now tt in
        let c2 := set_typingTimer timer c1 in
        Return (match inv with
                | Some _ => updateTypingStatusLazily c2
                | None => c2
                end)
  end.

(** The conversation's timer as run by the event loop up to time [t]; the
    second component lists the times at which [updateTypingStatusLazily] ran. *)
Definition runTimer (t : Z) (c : Conversation) : Conversation * list Z :=
  let '(timer, invs) := Lodash.advance (c_typingTimer c) t in
  (fold_left (λ c' _, updateTypingStatusLazily c') invs (set_typingTimer timer c),
   fst <$> invs).

(** [getUnreadIds()]. *)
Definition getUnreadIds (c : Conversation) : list MsgId :=
  m_id <$> filter (λ m, m_unread m = true) (c_messages c).

End ConversationModel.

(** ** models/MessengerInfo.js (the roster) *)
Module MessengerInfoModel.

(** [array.find(p)] that also mutates the element it finds. *)
Fixpoint updateFirst {A} (p : A -> bool) (f : A -> A) (l : list A) : list A :=
  match l with
  | [] => []
  | x :: l' => if p x then f x :: l' else x :: updateFirst p f l'
  end.

Definition hasId (id : Z) (i : ConversationInfo) : bool :=
  bool_decide (ci_id i = id).

(** Modelled from the spec: the [MessengerInfo] class is not among the
    sources.  The roster holds "conversation/group summaries (id, name, unread
    count, status)"; [byId(id)] is the roster entry with that id, looked up
    among the conversation summaries and then among the group summaries. *)
Definition byId (id : Z) (mi : MessengerInfo) : option ConversationInfo :=
  match List.find (hasId id) (mi_conversations mi) with
  | Some i => Some i
  | None => List.find (hasId id) (mi_groups mi)
  end.

(** An assignment to a field of the entry that [byId(id)] returns: the entry
    is an object shared with the roster's arrays, so the roster sees it. *)
Definition mutateById (id : Z) (f : ConversationInfo -> ConversationInfo)
    (mi : MessengerInfo) : MessengerInfo :=
  match List.find (hasId id) (mi_conversations mi) with
  | Some _ =>
      mkMessengerInfo (updateFirst (hasId id) f (mi_conversations mi))
        (mi_groups mi) (mi_messengerUser mi)
  | None =>
      mkMessengerInfo (mi_conversations mi)
        (updateFirst (hasId id) f (mi_groups mi)) (mi_messengerUser mi)
  end.

Definition set_groups (v : list ConversationInfo) (mi : MessengerInfo) :=
  mkMessengerInfo (mi_conversations mi) v (mi_messengerUser mi).

End MessengerInfoModel.

(** ** The transport and the other collaborators of the store

    What the collaborators answer is a parameter of the model: [None] and
    [false] stand for a failed call. *)
Record Api : Type := mkApi {
  (* [messengerInfo.getConversationType(id)]; MessengerInfo is not among the
     sources *)
  getConversationType : MessengerInfo -> Z -> string;
  socket_getConversation : Z -> string -> Z -> option ConversationData;
  socket_getConversationSettings : Z -> option Settings;
  socket_getChatGroupSettings : Z -> option Settings;
  socket_getMarketingGroupSettings : Z -> option Settings;
  socket_updateMessagesReadStatus : list MsgId -> bool;
  socket_deleteGroup : Z -> bool;
}.

(** ** store/communication/index.js

    Modelled from the spec: [apiHelper] (utils) is not among the sources.  It
    "wraps an async call" and "supports success/error/completion callbacks":
    the call is issued, its [success] callback runs when the transport
    answers and its [error] callback when the call fails.  Its cache and its
    bookkeeping of [isLoading] and [error] are not modelled. *)
Module Store.

Definition MSGS_REQUEST_LIMIT : Z := 30.

(** A JavaScript id used as a condition: [0], [null] and [undefined] are
    falsy. *)
Definition truthy (id : Z) : bool := negb (id =? 0).

(** [constructor(store)]: nothing is loaded; [updateTypingStatus] is wrapped
    by [throttle(..., 5000)]. *)
Definition constructor : CommunicationStore :=
  mkStore ∅ None false EmptyString None [] None None (Lodash.throttle 5000).

(** [get selectedConversation()]. *)
Definition selectedConversation (s : CommunicationStore)
  : option Conversation :=
  match selectedConversationId s with
  | Some id => conversations s !! id
  | None => None
  end.

(** Continuations of [setSelectedConversationId] across its first [await]. *)
Inductive Pending : Type :=
| NoPending
| PendingLoad (id : Z)
| PendingReport (unreadIds : list MsgId).

Section WithApi.
Variable api : Api.

(** [getConversationSettings(id)]. *)
Definition getConversationSettings (id : Z) (w : World)
  : result (option Settings) :=
  Ok (socket_getConversationSettings api id)
     (issue (GetConversationSettings id) w).

(** Modelled from the spec: [GroupSettingsData] is not among the sources; the
    settings carry "notification on/off", which is off when the transport
    gave nothing. *)
Definition new_GroupSettingsData (data : option Settings) : Settings :=
  default (mkSettings false) data.

(** [getGroupSettings(groupId, type)]. *)
Definition getGroupSettings (groupId : Z) (type : string) (w : World)
  : result (option Settings) :=
  if String.eqb type "chat-group" then
    Ok (Some (new_GroupSettingsData (socket_getChatGroupSettings api groupId)))
       (issue (GetChatGroupSettings groupId) w)
  else if String.eqb type "marketing-group" then
    Ok (Some (new_GroupSettingsData
                (socket_getMarketingGroupSettings api groupId)))
       (issue (GetMarketingGroupSettings groupId) w)
  else Ok (Some (new_GroupSettingsData None)) w.

(** [loadConversation(id, limit = MSGS_REQUEST_LIMIT)]; the value is the
    conversation built by the success callback, [None] when the transport
    call fails. *)
Definition loadConversation (id limit : Z) (w : World)
  : result (option Conversation) :=
  match messengerInfo (store w) with
  | None => Throw (TypeError "this.messengerInfo is undefined") w
  | Some mi =>
      let type := getConversationType api mi id in
      let w1 := issue (GetConversation id type limit) w in
      match socket_getConversation api id type limit with
      | None => Ok None w1
      | Some data =>
          let conversation := ConversationModel.constructor data in
          let conversation :=
            set_allMessagesFetched
              (Z.of_nat (length (c_messages conversation)) <? limit)
              conversation in
          bind (if ConversationModel.isGroup conversation
                then getGroupSettings id (c_type conversation) w1
                else getConversationSettings id w1)
            (λ settings w2,
               let conversation :=
                 ConversationModel.setConversationSettings settings
                   conversation in
               Ok (Some conversation)
                  (update (set_conversations (<[id := conversation]>)) w2))
      end
  end.

(** [loadOlderMessages(id)]. *)
Definition loadOlderMessages (id : Z) (w : World)
  : result (option Conversation) :=
  match conversations (store w) !! id with
  | None => Ok None w
  | Some conversation =>
      if c_allMessagesFetched conversation || isLoading (store w)
      then Ok None w
      else
        let newMsgsLimit :=
          Z.of_nat (length (c_messages conversation)) + MSGS_REQUEST_LIMIT in
        loadConversation id newMsgsLimit w
  end.

(** [markConversationAsRead(id)] up to its [await]: the local bookkeeping.
    The value is [unreadIds].  [forEach(m => m.unread = false)] writes into
    the message objects themselves: the conversation's list shows it, and so
    does every entry of the selection and every reply or edit target that is
    one of these objects ([readShared]). *)
Definition markConversationAsRead_local (id : Z) (w : World)
  : result (list MsgId) :=
  if negb (truthy id) then Ok [] w
  else
    match conversations (store w) !! id with
    | None => Throw (TypeError "conversation is undefined") w
    | Some conversation =>
        let unreadIds := ConversationModel.getUnreadIds conversation in
        let w1 :=
          update (λ s,
                    readShared (c_messages conversation)
                      (set_conversations
                         (<[id := set_messages
                                    (set_unread false
                                       <$> c_messages conversation)
                                    conversation]>) s)) w in
        let w2 :=
          update (λ s, set_messengerInfo
                         (MessengerInfoModel.mutateById id (set_unreadCount 0)
                            <$> messengerInfo s) s) w1 in
        Ok unreadIds w2
    end.

(** [markConversationAsRead(id)] after its [await]: the batch call; a failure
    is passed to [log.error]. *)
Definition markConversationAsRead_report (unreadIds : list MsgId) (w : World)
  : result unit :=
  if (0 <? length unreadIds)%nat then
    let w1 := issue (UpdateMessagesReadStatus unreadIds) w in
    Ok tt (if socket_updateMessagesReadStatus api unreadIds then w1
           else issue LogError w1)
  else Ok tt w.

Definition markConversationAsRead (id : Z) (w : World) : result unit :=
  bind (markConversationAsRead_local id w) markConversationAsRead_report.

(** [setSelectedConversationId(id)] up to its first [await]. *)
Definition setSelectedConversationId_begin (id : option Z) (w : World)
  : result Pending :=
  let w1 := update (set_selectedConversationId id) w in
  match id with
  | Some i =>
      if truthy i then
        match conversations (store w1) !! i with
        | None => Ok (PendingLoad i) w1
        | Some _ =>
            bind (markConversationAsRead_local i w1)
              (λ unreadIds w2, Ok (PendingReport unreadIds) w2)
        end
      else Ok NoPending w1
  | None => Ok NoPending w1
  end.

(** The rest of [setSelectedConversationId(id)]. *)
Definition setSelectedConversationId_resume (p : Pending) (w : World)
  : result unit :=
  match p with
  | NoPending => Ok tt w
  | PendingLoad i =>
      bind (loadConversation i MSGS_REQUEST_LIMIT w)
        (λ conversation w1,
           match conversation with
           | Some _ => markConversationAsRead i w1
           | None => Ok tt w1
           end)
  | PendingReport unreadIds => markConversationAsRead_report unreadIds w
  end.

Definition setSelectedConversationId (id : option Z) (w : World)
  : result unit :=
  bind (setSelectedConversationId_begin id w) setSelectedConversationId_resume.

(** [addSendingMessage(body)]. *)
Definition addSendingMessage (body : string) (w : World) : result unit :=
  match messengerInfo (store w) with
  | None => Throw (TypeError "this.messengerInfo is undefined") w
  | Some mi =>
      let sendMessage :=
        mkMessage (StrId (String_of_number (clock w))) None
          (selectedConversationId (store w)) body
          (Some (mi_messengerUser mi)) (clock w) false true in
      match selectedConversationId (store w), selectedConversation (store w) with
      | Some sel, Some conversation =>
          let messages := c_messages conversation ++ [sendMessage] in
          Ok tt (update (set_conversations
                           (<[sel := set_messages messages conversation]>)) w)
      | _, _ => Throw (TypeError "this.selectedConversation is undefined") w
      end
  end.

(** [sendMessage(conversationId, body, channelSetId = '')], once the socket
    has been obtained. *)
Definition sendMessage (conversationId : Z) (body channelSetId : string)
    (w : World) : result unit :=
  bind (addSendingMessage body w)
    (λ _ w1,
       let options :=
         mkSendOptions conversationId body channelSetId
           (m_id <$> messageForReply (store w1)) in
       let w2 := update (set_messageForReply None) w1 in
       match selectedConversation (store w2) with
       | None => Throw (TypeError "this.selectedConversation is undefined") w2
       | Some conversation =>
           let w3 :=
             match c_settings conversation with
             | Some settings =>
                 if notification settings then issue PlayMsgSent w2 else w2
             | None => w2
             end in
           Ok tt (issue (SendMessage options) w3)
       end).

(** [updateMessage(message)]. *)
Definition updateMessage (message : Message) (w : World) : result unit :=
  match m_conversation message with
  | None => Throw (TypeError "message.conversation is undefined") w
  | Some conversationId =>
      let w1 :=
        match conversations (store w) !! conversationId with
        | Some conversation =>
            match ConversationModel.updateMessage message conversation with
            | Return c' =>
                update (set_conversations (<[conversationId := c']>)) w
            | Raise _ => w
            end
        | None => w
        end in
      match messengerInfo (store w1) with
      | None => Throw (TypeError "this.messengerInfo is undefined") w1
      | Some mi =>
          match MessengerInfoModel.byId conversationId mi with
          | None => Ok tt (issue LoadMessengerInfo w1)
          | Some info =>
              if m_unread message then
                Ok tt (update
                         (set_messengerInfo
                            (Some (MessengerInfoModel.mutateById conversationId
                                     (λ i, set_unreadCount (ci_unreadCount i + 1) i)
                                     mi))) w1)
              else Ok tt w1
          end
      end
  end.

(** [deleteMessage(messageId)], once the socket has been obtained. *)
Definition deleteMessage (messageId : MsgId) (w : World) : result unit :=
  let hasId := λ m : Message, bool_decide (m_id m = messageId) in
  let w1 :=
    match messageForEdit (store w) with
    | Some m => if hasId m then update (set_messageForEdit None) w else w
    | None => w
    end in
  let w2 :=
    match messageForReply (store w1) with
    | Some m => if hasId m then update (set_messageForReply None) w1 else w1
    | None => w1
    end in
  let w3 :=
    match List.find hasId (selectedMessages (store w2)) with
    | Some _ =>
        update (set_selectedMessages
                  (List.filter (λ m, negb (hasId m))
                     (selectedMessages (store w2)))) w2
    | None => w2
    end in
  Ok tt (issue (DeleteMessage messageId) w3).

(** The method [updateTypingStatus(conversationId)] that the constructor
    wraps. *)
Definition updateTypingStatus_method (conversationId : Z) (w : World)
  : World :=
  issue (UpdateTypingStatus conversationId) w.

(** [updateTypingStatus(conversationId)] as callers see it: the wrapper
    installed by [this::throttle(this.updateTypingStatus, 5000)]. *)
Definition updateTypingStatus (conversationId : Z) (w : World) : World :=
  let '(th, inv) :=
    Lodash.debounced (typingThrottle (store w)) (clock w) conversationId in
  let w1 := update (set_typingThrottle th) w in
  match inv with
  | Some args => updateTypingStatus_method args w1
  | None => w1
  end.

(** [updateUserStatus(status, typing = false)], for the loaded conversations;
    the statuses kept in the roster are not part of the model. *)
Definition updateUserStatus (status : StatusPush) (typing : bool) (w : World)
  : result unit :=
  let each (conversation : Conversation) : Conversation :=
    match c_status conversation with
    | None => conversation
    | Some st =>
        if bool_decide (st_userId st ≠ p_userId status) then conversation
        else
          match ConversationModel.updateStatus (clock w) status typing
                  conversation with
          | Return c' => c'
          | Raise _ => conversation
          end
    end in
  let w1 := update (set_conversations (fmap each)) w in
  match messengerInfo (store w1) with
  | None => Throw (TypeError "this.messengerInfo is undefined") w1
  | Some _ => Ok tt w1
  end.

(** [deleteGroup(groupId)].  The success callback does not await
    [setSelectedConversationId]: that call runs up to its first [await], the
    callback then assigns the filtered groups, and the rest of the call runs
    afterwards.  [groups] is the roster's own array, so the filter sees what
    the call has written to its entries. *)
Definition deleteGroup (groupId : Z) (w : World) : result unit :=
  let w0 := issue (DeleteGroup groupId) w in
  if negb (socket_deleteGroup api groupId) then Ok tt (issue LogError w0)
  else
    match messengerInfo (store w0) with
    | None => Throw (TypeError "this.messengerInfo is undefined") w0
    | Some mi =>
        let groups := mi_groups mi in
        let delGroupIndex :=
          findIndex (MessengerInfoModel.hasId groupId) groups in
        let newIndex : option nat :=
          if (1 <? length groups)%nat then
            match delGroupIndex with
            | Some (S i) => Some i
            | Some O => Some 1%nat
            | None => Some 0%nat
            end
          else None in
        let selected : except (option Z) :=
          match newIndex with
          | Some j =>
              match groups !! j with
              | Some g => Return (Some (ci_id g))
              | None => Raise (TypeError "groups[newIndex] is undefined")
              end
          | None => Return None
          end in
        match selected with
        | Raise e => Throw e w0
        | Return id =>
            let r := setSelectedConversationId_begin id w0 in
            let w1 := world_of r in
            let w2 :=
              update (λ s,
                        set_messengerInfo
                          (MessengerInfoModel.set_groups
                             (List.filter
                                (λ g, negb (MessengerInfoModel.hasId groupId g))
                                (default [] (mi_groups <$> messengerInfo s)))
                             <$> messengerInfo s) s) w1 in
            match r with
            | Ok p _ => Ok tt (world_of (setSelectedConversationId_resume p w2))
            | Throw _ _ => Ok tt w2
            end
        end
    end.

(** *** The event loop *)

(** The quiet timers of the loaded conversations, run up to time [t]. *)
Definition runConversationTimers (t : Z) (s : CommunicationStore)
  : CommunicationStore :=
  set_conversations (fmap (λ c, fst (ConversationModel.runTimer t c))) s.

(** The timer of the throttled [updateTypingStatus], run up to time [t]; the
    conversations' timers that are due earlier run first. *)
Fixpoint runThrottleTimer (fuel : nat) (t : Z) (w : World) : World :=
  match fuel with
  | O => w
  | S n =>
      match Lodash.timerId (typingThrottle (store w)) with
      | Some dl =>
          if dl <=? t then
            let w1 := set_clock dl (update (runConversationTimers dl) w) in
            let '(th, inv) :=
              Lodash.timerExpired (typingThrottle (store w1)) dl in
            let w2 := update (set_typingThrottle th) w1 in
            runThrottleTimer n t
              match inv with
              | Some args => updateTypingStatus_method args w2
              | None => w2
              end
          else w
      | None => w
      end
  end.

(** The store is left alone until the clock reads [t]: the timers that are
    due fire at the time they were set for. *)
Definition tick (t : Z) (w : World) : World :=
  let w1 := runThrottleTimer 2 t w in
  set_clock (Z.max (clock w1) t) (update (runConversationTimers t) w1).

End WithApi.
End Store.

(** ** Observations and invariants *)

(** The effects that are calls on the socket. *)
Definition isSocketCall (e : Effect) : bool :=
  match e with
  | PlayMsgSent | LoadMessengerInfo | LogError => false
  | _ => true
  end.

Definition socketCalls (w : World) : list Effect :=
  List.filter isSocketCall (i_effect <$> effects w).

(** The condition under which [loadOlderMessages(id)] has nothing to do. *)
Definition nothingToLoad (id : Z) (s : CommunicationStore) : Prop :=
  conversations s !! id = None ∨
  (∃ c, conversations s !! id = Some c ∧ c_allMessagesFetched c = true) ∨
  isLoading s = true.

(** The ids of the roster's groups, in order. *)
Definition groupIds (s : CommunicationStore) : option (list Z) :=
  (λ mi, ci_id <$> mi_groups mi) <$> messengerInfo s.

(** [w'] has the selection and the group ids of [w]. *)
Definition keepsRoster (w w' : World) : Prop :=
  selectedConversationId (store w') = selectedConversationId (store w) ∧
  groupIds (store w') = groupIds (store w).

(** The typing-status calls issued on the socket: time and conversation. *)
Definition typingCalls (w : World) : list (Z * Z) :=
  omap (λ i, match i_effect i with
             | UpdateTypingStatus conversationId =>
                 Some (i_time i, conversationId)
             | _ => None
             end) (effects w).

(** The typing flag of a conversation. *)
Definition typing (c : Conversation) : option bool :=
  st_typing <$> c_status c.

(** The throttle of [updateTypingStatus] as the constructor installs it, in a
    state that the calls and the event loop can leave it in. *)
Definition throttle_ok (w : World) : Prop :=
  Lodash.timer_ok (clock w) (typingThrottle (store w)) ∧
  Lodash.wait (typingThrottle (store w)) = 5000 ∧
  Lodash.options (typingThrottle (store w))
    = Lodash.options (Lodash.throttle (A:=Z) 5000).

(** The limiter of [updateTypingStatus] is idle at time [t]: no timer is
    pending and, if the wrapper was ever called, the last call and the last
    call passed on are at least 5000 ms old. *)
Definition throttleIdle (t : Z) (w : World) : Prop :=
  Lodash.timerId (typingThrottle (store w)) = None ∧
  ∀ lc, Lodash.lastCallTime (typingThrottle (store w)) = Some lc →
        lc + 5000 ≤ t ∧
        Lodash.lastInvokeTime (typingThrottle (store w)) + 5000 ≤ t.

(** A window is open: a call was passed on at time [T], the timer is set for
    [T + 5000], and [held] is the conversation of the call that is kept, if
    one is. *)
Definition windowOpen (T : Z) (held : option Z) (w : World) : Prop :=
  Lodash.wait (typingThrottle (store w)) = 5000 ∧
  Lodash.options (typingThrottle (store w))
    = Lodash.options (Lodash.throttle (A:=Z) 5000) ∧
  Lodash.timerId (typingThrottle (store w)) = Some (T + 5000) ∧
  Lodash.lastInvokeTime (typingThrottle (store w)) = T ∧
  Lodash.lastArgs (typingThrottle (store w)) = held ∧
  (∃ lc, Lodash.lastCallTime (typingThrottle (store w)) = Some lc ∧
         T ≤ lc ∧ lc ≤ clock w) ∧
  clock w < T + 5000.

(** Calls at times that do not decrease, from [from] on and before [upto]. *)
Fixpoint inWindow (from upto : Z) (calls : list (Z * Z)) : Prop :=
  match calls with
  | [] => True
  | call :: rest => from ≤ call.1 ∧ call.1 < upto ∧ inWindow call.1 upto rest
  end.

(** [updateTypingStatus] called at the given times for the given
    conversations, the event loop running in between. *)
Definition typingRun (calls : list (Z * Z)) (w : World) : World :=
  fold_left (λ w call, Store.updateTypingStatus call.2 (Store.tick call.1 w))
    calls w.

(** The quiet timer of a conversation as the constructor installs it, in a
    state that the pushes and the event loop can leave it in. *)
Definition quietTimer_ok (now : Z) (c : Conversation) : Prop :=
  Lodash.timer_ok now (c_typingTimer c) ∧
  Lodash.wait (c_typingTimer c) = 6000 ∧
  Lodash.options (c_typingTimer c)
    = Lodash.options (Lodash.debounce (A:=unit) 6000).

(** The conversation shows "typing" and its quiet timer will clear the flag
    at time [T] if no further push arrives. *)
Definition quietPending (T : Z) (c : Conversation) : Prop :=
  typing c = Some true ∧
  Lodash.lastArgs (c_typingTimer c) = Some tt ∧
  Lodash.deliveryTime (c_typingTimer c) = Some T ∧
  ∃ now, now < T ∧ quietTimer_ok now c.

(** The flag has been cleared and no timer is pending. *)
Definition quietDone (c : Conversation) : Prop :=
  typing c = Some false ∧ Lodash.timerId (c_typingTimer c) = None.

(** ** Example states *)

(** A message reduced to what identifies it, for examples. *)
Definition message (id : MsgId) (conversation : Z) (unread : bool) : Message :=
  mkMessage id (Some conversation) None "hi" None 0 unread false.

Definition conversation (id : Z) (messages : list Message) : Conversation :=
  mkConversation false id messages "chat"
    (Some (mkStatus None None None false false 100))
    "conversation" None false (Lodash.debounce 6000).

Definition world (s : CommunicationStore) : World := mkWorld s 1700000000000 [].

(** A transport whose calls all fail. *)
Definition offline : Api :=
  mkApi (λ _ _, "conversation") (λ _ _ _, None) (λ _, None) (λ _, None)
    (λ _, None) (λ _, false) (λ _, false).

(** A transport whose calls succeed: a conversation comes back with twelve
    messages. *)
Definition online : Api :=
  mkApi (λ _ _, "chat-group")
    (λ id type _,
       Some (mkData false id (Some (replicate 12 (message (NumId 1) id false)))
               "chat" None type))
    (λ _, Some (mkSettings true)) (λ _, Some (mkSettings true))
    (λ _, Some (mkSettings true)) (λ _, true) (λ _, true).

Definition roster : MessengerInfo :=
  mkMessengerInfo
    [mkInfo 5 "Ann" "conversation" 2; mkInfo 7 "Bob" "conversation" 0]
    [] 1.

(** Conversations 5 and 7 are loaded and empty; 5 is selected. *)
Definition two_conversations : World :=
  world (mkStore (<[5 := conversation 5 []]> {[7 := conversation 7 []]})
           (Some roster) false EmptyString (Some 5) [] None None
           (Lodash.throttle 5000)).

(** The same after [sendMessage(5, "hi")]: conversation 5 holds one message
    that is still being sent. *)
Definition sending : World :=
  world_of (Store.sendMessage 5 "hi" EmptyString two_conversations).

(** A message of conversation 5 with a numeric id. *)
Definition confirmed : Message :=
  mkMessage (NumId 42) (Some 5) None "hi" (Some 1) 1700000000000 false false.

(** A message of conversation 5 that bears the id of the temporary message
    of [sending]. *)
Definition confirmation : Message :=
  mkMessage (StrId (String_of_number 1700000000000)) (Some 5) None "hi"
    (Some 1) 1700000000000 false false.

(** [sendMessage] is called once more before the clock has moved on:
    conversation 5 holds two temporary messages, and both have the id
    [String(Date.now())] of that millisecond. *)
Definition sending_twice : World :=
  world_of (Store.sendMessage 5 "again" EmptyString sending).

(** A conversation with id 0 is loaded and has an unread message. *)
Definition conversation_zero : World :=
  world (mkStore {[0 := conversation 0 [message (NumId 1) 0 true]]}
           (Some (mkMessengerInfo [mkInfo 0 "Zed" "conversation" 1] [] 1))
           false EmptyString (Some 0) [] None None (Lodash.throttle 5000)).

(** Conversation 5 is loaded with one unread and one read message; its roster
    entry counts two unread messages. *)
Definition unread_five : World :=
  world (mkStore
           {[5 := conversation 5
                    [message (NumId 1) 5 true; message (NumId 2) 5 false]]}
           (Some roster) false EmptyString (Some 5) [] None None
           (Lodash.throttle 5000)).

(** Groups 7, 8 and 9 are in the roster, none is loaded, and 8 is selected. *)
Definition three_groups : World :=
  world (mkStore ∅
           (Some (mkMessengerInfo []
                    [mkInfo 7 "a" "chat-group" 0; mkInfo 8 "b" "chat-group" 3;
                     mkInfo 9 "c" "chat-group" 0] 1))
           false EmptyString (Some 8) [] None None (Lodash.throttle 5000)).

(** Group 7 is the only group of the roster and is selected. *)
Definition only_group : World :=
  world (mkStore ∅
           (Some (mkMessengerInfo [] [mkInfo 7 "a" "chat-group" 0] 1))
           false EmptyString (Some 7) [] None None (Lodash.throttle 5000)).

(** Message 3 is the reply target and is selected together with message 4. *)
Definition with_selection : World :=
  world (mkStore ∅ None false EmptyString None
           [message (NumId 3) 5 false; message (NumId 4) 5 false]
           (Some (message (NumId 3) 5 false)) None (Lodash.throttle 5000)).

(** A typing-status push. *)
Definition typingPush (userId : Z) : StatusPush :=
  mkPush None None (Some "now") true None userId.

(** A store that is created at time 0 and on which [updateTypingStatus] is
    called at the given times for the given conversations, the event loop
    running in between and afterwards until the clock reads [until]. *)
Definition typingScenario (calls : list (Z * Z)) (until : Z) : World :=
  Store.tick until
    (fold_left (λ w call, Store.updateTypingStatus call.2 (Store.tick call.1 w))
       calls (mkWorld Store.constructor 0 [])).

(** ** store/communication/index.js: selection of messages

    The methods that select messages and set the reply and edit targets. *)
Module Selection.

(** The calls on [this.ui] ([CommunicationUI] is not among the sources). *)
Inductive UiCall : Type :=
| SetSelectMode (mode : bool)
| SetForwardMode (mode : bool).

(** [checkMessageSelected(messageId)]. *)
Definition checkMessageSelected (messageId : MsgId) (s : CommunicationStore)
  : bool :=
  match List.find (λ m, bool_decide (m_id m = messageId))
          (selectedMessages s) with
  | Some _ => true
  | None => false
  end.

(** [selectMessage(message)]. *)
Definition selectMessage (message : Message) (s : CommunicationStore)
  : CommunicationStore :=
  if checkMessageSelected (m_id message) s then s
  else set_selectedMessages (selectedMessages s ++ [message]) s.

(** [deselectMessage(messageId)]. *)
Definition deselectMessage (messageId : MsgId) (s : CommunicationStore)
  : CommunicationStore :=
  set_selectedMessages
    (List.filter (λ m, negb (bool_decide (m_id m = messageId)))
       (selectedMessages s)) s.

(** [clearSelectedMessages()]. *)
Definition clearSelectedMessages (s : CommunicationStore)
  : CommunicationStore :=
  set_selectedMessages [] s.

(** [removeMessageForEdit()] and [removeMessageForReply()]. *)
Definition removeMessageForEdit (s : CommunicationStore) : CommunicationStore :=
  set_messageForEdit None s.

Definition removeMessageForReply (s : CommunicationStore)
  : CommunicationStore :=
  set_messageForReply None s.

(** [setMessageForEdit(message)]. *)
Definition setMessageForEdit (message : Message) (s : CommunicationStore)
  : CommunicationStore :=
  set_messageForEdit (Some message) s.

(** [setMessageForReply(message)], with the calls it makes on [this.ui]. *)
Definition setMessageForReply (message : Message) (s : CommunicationStore)
  : CommunicationStore * list UiCall :=
  let s1 := removeMessageForEdit s in
  let s2 := clearSelectedMessages s1 in
  (set_messageForReply (Some message) s2,
   [SetSelectMode false; SetForwardMode false]).

Section Deleting.
(** The flags [deleted] and [deletable] of a message object, which the
    record [Message] does not hold: what the two tests read. *)
Variables deleted deletable : Message → bool.

(** The calls of [deleteMessage] that a [forEach] over [messages] starts:
    each runs up to its [await], and they resume in the order they were
    started in. *)
Definition deleteEach (messages : list Message) (w : World) : World :=
  fold_left (λ w m, world_of (Store.deleteMessage (m_id m) w))
    (List.filter (λ m, negb (deleted m) && deletable m) messages) w.

(** [deleteSelectedMessages()]. *)
Definition deleteSelectedMessages (w : World) : World :=
  deleteEach (selectedMessages (store w)) w.

(** [deleteAllMsgsInSelectConversation()]. *)
Definition deleteAllMsgsInSelectConversation (w : World) : result unit :=
  let w1 := update clearSelectedMessages w in
  match Store.selectedConversation (store w1) with
  | None => Throw (TypeError "this.selectedConversation is undefined") w1
  | Some conversation => Ok tt (deleteEach (c_messages conversation) w1)
  end.

End Deleting.
End Selection.

(** ** store/communication/index.js: contacts staged for an action

    [contactsForAction] and the recipients that [createNewGroup],
    [sendInviteMsgToContacts] and [addAllMembersToGroup] build from it and
    from [store.contacts.selectedContacts].  The contacts of the two lists
    are taken to be different objects. *)
Module Recipients.

(** The fields of a contact that these methods read or write. *)
Record Contact : Type := mkContact {
  ct_id : MsgId;
  ct_savedId : option MsgId;
}.

#[global] Instance Contact_eq_dec : EqDecision Contact.
Proof. solve_decision. Defined.

(** An id as [+] and a template literal render it. *)
Definition toString (id : MsgId) : string :=
  match id with
  | NumId n => String_of_number n
  | StrId s => s
  end.

(** [checkContactAddedForAction(contactId)]. *)
Definition checkContactAddedForAction (contactId : MsgId)
    (contactsForAction : list Contact) : bool :=
  match List.find
          (λ contact,
             bool_decide (ct_id contact = contactId)
             || bool_decide (ct_savedId contact = Some contactId))
          contactsForAction with
  | Some _ => true
  | None => false
  end.

(** [addContactForAction(contact)]. *)
Definition addContactForAction (contact : Contact)
    (contactsForAction : list Contact) : list Contact :=
  if checkContactAddedForAction (ct_id contact) contactsForAction
  then contactsForAction
  else contactsForAction ++ [contact].

(** [removeContactForAction(contactId)]. *)
Definition removeContactForAction (contactId : MsgId)
    (contactsForAction : list Contact) : list Contact :=
  List.filter (λ contact, negb (bool_decide (ct_id contact = contactId)))
    contactsForAction.

(** [clearContactsForAction()]. *)
Definition clearContactsForAction (contactsForAction : list Contact)
  : list Contact := [].

(** [Array.prototype.reduce] with an initial value: the callback gets the
    accumulator, the element, its index and the whole array. *)
Fixpoint reduce_from {A B} (f : B → A → nat → list A → B) (all : list A)
    (index : nat) (rest : list A) (result : B) : B :=
  match rest with
  | [] => result
  | x :: rest' => reduce_from f all (S index) rest' (f result x index all)
  end.

Definition reduce {A B} (f : B → A → nat → list A → B) (init : B)
    (all : list A) : B :=
  reduce_from f all 0 all init.

(** The callbacks of the three [reduce] calls:
    [result + id + (allContacts.length - 1 !== index ? ',' : '')]. *)
Definition separator (allContacts : list Contact) (index : nat) : string :=
  if bool_decide (Z.of_nat (length allContacts) - 1 ≠ Z.of_nat index)
  then "," else EmptyString.

Definition appendId (result : string) (contact : Contact) (index : nat)
    (allContacts : list Contact) : string :=
  (result +:+ toString (ct_id contact)) +:+ separator allContacts index.

Definition appendContactId (result : string) (contact : Contact) (index : nat)
    (allContacts : list Contact) : string :=
  (result +:+ ("contact-" +:+ toString (ct_id contact)))
  +:+ separator allContacts index.

(** The argument [recipients] of [messenger.createNewGroup] in
    [createNewGroup(groupName, isAllowGroupChat)]. *)
Definition createNewGroup_recipients
    (contactsForAction selectedContacts : list Contact) : string :=
  let recipients := reduce appendId EmptyString contactsForAction in
  let userContacts := selectedContacts in
  reduce appendContactId
    (recipients +:+
     (if bool_decide (length userContacts = 0%nat) then EmptyString else ","))
    userContacts.

(** [m.id = `contact-${m.id}`], done on the contact itself. *)
Definition prefixId (m : Contact) : Contact :=
  mkContact (StrId ("contact-" +:+ toString (ct_id m))) (ct_savedId m).

(** [sendInviteMsgToContacts(message)] up to the call: the selected contacts
    as it leaves them and the argument [recipients] of
    [messenger.sendMessage]. *)
Definition sendInviteMsgToContacts_recipients
    (contactsForAction selectedContacts : list Contact)
  : list Contact * string :=
  let userContacts := prefixId <$> selectedContacts in
  (userContacts,
   reduce appendId EmptyString (userContacts ++ contactsForAction)).

(** [addAllMembersToGroup(groupId)]: the selected contacts as it leaves them
    and the member aliases that it calls [addGroupMember] with, in order. *)
Definition addAllMembersToGroup
    (contactsForAction selectedContacts : list Contact)
  : list Contact * list MsgId :=
  let contacts := prefixId <$> selectedContacts in
  let members := contacts ++ contactsForAction in
  (contacts, ct_id <$> members).

End Recipients.

From Stdlib Require QArith.

(** ** store/communication/index.js: upload progress

    [filesUploadingProgress], a map from progress keys to percentages.  A
    percentage is a rational number here; [NaN] is left out. *)
Module Uploads.

Definition hundred : QArith_base.Q := QArith_base.Qmake 100 1.

(** [updateFileUploadProgress(progressId, value)]. *)
Definition updateFileUploadProgress (progressId : string)
    (value : QArith_base.Q)
    (filesUploadingProgress : gmap string QArith_base.Q)
  : gmap string QArith_base.Q :=
  let key := progressId in
  match filesUploadingProgress !! key with
  | Some _ =>
      if QArith_base.Qle_bool hundred value
      then <[key := hundred]> filesUploadingProgress
      else <[key := value]> filesUploadingProgress
  | None => filesUploadingProgress
  end.

(** [removeFileUploadingProgress(progressId)]. *)
Definition removeFileUploadingProgress (progressId : string)
    (filesUploadingProgress : gmap string QArith_base.Q)
  : gmap string QArith_base.Q :=
  delete progressId filesUploadingProgress.

End Uploads.

(** ** store/communication/index.js: search

    [contactsFilter] and [foundMessages], which [search] sets and
    [getContactsAndGroupsData] reads. *)
Module Search.

Record SearchState : Type := mkSearch {
  contactsFilter : string;
  foundMessages : list Message;
}.

(** [s.includes(filter)]. *)
Definition includes (s filter : string) : bool :=
  match String.index 0 filter s with
  | Some _ => true
  | None => false
  end.

(** A string is truthy unless it is empty. *)
Definition truthy (text : string) : bool :=
  negb (bool_decide (text = EmptyString)).

Section WithStrings.
(** [String.prototype.toLowerCase]. *)
Variable toLowerCase : string → string.
(** The answer to [socket.searchMessages(query)]: [data.messages || []] on
    success, nothing otherwise. *)
Variable socket_searchMessages : string → option (list Message).

(** [searchMessages(query)], once the socket has been obtained. *)
Definition searchMessages (query : string) (st : SearchState) : SearchState :=
  match socket_searchMessages query with
  | Some messages => mkSearch (contactsFilter st) messages
  | None => st
  end.

(** [search(text)]; a missing [text] is the empty string here. *)
Definition search (text : string) (st : SearchState) : SearchState :=
  let st1 :=
    mkSearch (if truthy text then text else EmptyString) (foundMessages st) in
  if negb (truthy text) then mkSearch (contactsFilter st1) []
  else searchMessages (toLowerCase (contactsFilter st1)) st1.

(** [getContactsAndGroupsData()]: the [data] of the three sections. *)
Definition getContactsAndGroupsData (messengerInfo : option MessengerInfo)
    (st : SearchState)
  : list ConversationInfo * list ConversationInfo * list Message :=
  let filter := contactsFilter st in
  let info := messengerInfo in
  let contacts :=
    match info with Some info => mi_conversations info | None => [] end in
  let groups :=
    match info with Some info => mi_groups info | None => [] end in
  let foundMessages := foundMessages st in
  if truthy filter then
    (List.filter (λ c, includes (toLowerCase (ci_name c)) filter) contacts,
     List.filter (λ c, includes (toLowerCase (ci_name c)) filter) groups,
     foundMessages)
  else (contacts, groups, foundMessages).

End WithStrings.
End Search.

(** [toLowerCase] on strings of ASCII characters, for the examples. *)
Definition lowerAscii (a : Ascii.ascii) : Ascii.ascii :=
  let n := Ascii.nat_of_ascii a in
  if ((65 <=? n) && (n <=? 90))%nat then Ascii.ascii_of_nat (n + 32) else a.

Fixpoint toLowerCaseAscii (s : string) : string :=
  match s with
  | EmptyString => EmptyString
  | String a s' => String (lowerAscii a) (toLowerCaseAscii s')
  end.

(** ** Further observations and example states *)

(** The options of the [sendMessage] calls issued on the socket. *)
Definition sentOptions (w : World) : list SendOptions :=
  omap (λ e, match e with SendMessage o => Some o | _ => None end)
    (i_effect <$> effects w).

(** Conversation 5 is loaded with notifications on and selected; message 3
    is the reply target. *)
Definition replying : World :=
  world (mkStore
           {[5 := set_settings (Some (mkSettings true)) (conversation 5 [])]}
           (Some roster) false EmptyString (Some 5) []
           (Some (message (NumId 3) 5 false)) None (Lodash.throttle 5000)).

(** The ids that [deleteMessage] calls on the socket carried, in order. *)
Definition deleteCalls (w : World) : list MsgId :=
  omap (λ e, match e with DeleteMessage id => Some id | _ => None end)
    (i_effect <$> effects w).

(** Conversation 5 after a typing push at the time of [two_conversations]. *)
Definition typingFive : Conversation :=
  match ConversationModel.updateStatus 1700000000000 (typingPush 100) true
          (conversation 5 []) with
  | Return c => c
  | Raise _ => conversation 5 []
  end.

(** Two contacts staged for an action; the second was converted from the
    saved contact 30. *)
Definition staged_contacts : list Recipients.Contact :=
  [Recipients.mkContact (NumId 11) None;
   Recipients.mkContact (NumId 12) (Some (NumId 30))].

(** * Properties *)

(** ** Deleting a message *)

Section DeleteMessage.
Implicit Types (w : World) (messageId : MsgId).

Lemma find_none_filter_id {A} (p : A -> bool) (l : list A) :
  List.find p l = None -> List.filter (λ x, negb (p x)) l = l.
Proof.
  induction l as [|x l IH]; simpl; [done|].
  destruct (p x) eqn:E; simpl; [done|].
  intros H. by rewrite IH.
Qed.

(** C10. After [deleteMessage(messageId)] neither [messageForEdit] nor
    [messageForReply] nor any entry of [selectedMessages] has that id; what
    did not have that id is kept as it was; and the store that the delete
    call on the socket is issued from is already the cleared one. *)
Theorem deleteMessage_clears_selection messageId w :
  ∃ w',
    Store.deleteMessage messageId w = Ok tt w' ∧
    (∀ m, messageForEdit (store w') = Some m → m_id m ≠ messageId) ∧
    (∀ m, messageForReply (store w') = Some m → m_id m ≠ messageId) ∧
    Forall (λ m, m_id m ≠ messageId) (selectedMessages (store w')) ∧
    (∀ m, messageForEdit (store w) = Some m → m_id m ≠ messageId →
          messageForEdit (store w') = Some m) ∧
    (∀ m, messageForReply (store w) = Some m → m_id m ≠ messageId →
          messageForReply (store w') = Some m) ∧
    selectedMessages (store w') =
      List.filter (λ m, bool_decide (m_id m ≠ messageId))
        (selectedMessages (store w)) ∧
    effects w' =
      effects w ++ [mkIssued (clock w) (DeleteMessage messageId) (store w')].
Proof.
  destruct w as [[cs mi ld er sel sm mr me th] ck ef].
  set (hasId := λ m : Message, bool_decide (m_id m = messageId)).
  assert (Hf : List.filter (λ m, negb (hasId m)) sm =
               List.filter (λ m, bool_decide (m_id m ≠ messageId)) sm).
  { apply List.filter_ext. intros m. unfold hasId.
    by rewrite bool_decide_not. }
  assert (Hall : Forall (λ m, m_id m ≠ messageId)
                   (List.filter (λ m, bool_decide (m_id m ≠ messageId)) sm)).
  { apply Forall_forall. intros m Hm. apply list_elem_of_In in Hm.
    apply List.filter_In in Hm as [_ Hm]. by apply bool_decide_eq_true in Hm. }
  assert (Hsm : match List.find hasId sm with
                | Some _ => List.filter (λ m, negb (hasId m)) sm
                | None => sm
                end = List.filter (λ m, bool_decide (m_id m ≠ messageId)) sm).
  { destruct (List.find hasId sm) eqn:E; [exact Hf|].
    etransitivity; [|exact Hf]. symmetry. by apply find_none_filter_id. }
  (* the three clearings, one after the other *)
  set (me' := match me with
              | Some m => if hasId m then None else Some m
              | None => None
              end).
  set (mr' := match mr with
              | Some m => if hasId m then None else Some m
              | None => None
              end).
  set (s' := mkStore cs mi ld er sel
               (List.filter (λ m, bool_decide (m_id m ≠ messageId)) sm)
               mr' me' th).
  assert (Hrun : Store.deleteMessage messageId
                   (mkWorld (mkStore cs mi ld er sel sm mr me th) ck ef)
                 = Ok tt (mkWorld s' ck
                            (ef ++ [mkIssued ck (DeleteMessage messageId) s']))).
  { unfold Store.deleteMessage. subst s' me' mr'. unfold hasId in *.
    destruct me as [e|]; simpl.
    all: try destruct (bool_decide (m_id e = messageId)); simpl.
    all: destruct mr as [r|]; simpl.
    all: try destruct (bool_decide (m_id r = messageId)); simpl.
    all: destruct (List.find _ sm) eqn:E; simpl in *.
    all: unfold issue, update; simpl; by rewrite <- Hsm. }
  exists (mkWorld s' ck (ef ++ [mkIssued ck (DeleteMessage messageId) s'])).
  split; [exact Hrun|]. simpl.
  assert (Hkeep : ∀ (o : option Message) m,
            match o with
            | Some m0 => if hasId m0 then None else Some m0
            | None => None
            end = Some m → o = Some m ∧ m_id m ≠ messageId).
  { intros [m0|] m; [|done]. destruct (hasId m0) eqn:E; [done|].
    intros [= <-]. split; [done|]. by apply bool_decide_eq_false in E. }
  assert (Hkept : ∀ (o : option Message) m,
            o = Some m → m_id m ≠ messageId →
            match o with
            | Some m0 => if hasId m0 then None else Some m0
            | None => None
            end = Some m).
  { intros o m -> Hne. unfold hasId. by rewrite bool_decide_eq_false_2. }
  split. { intros m Hm. by apply (Hkeep me). }
  split. { intros m Hm. by apply (Hkeep mr). }
  split; [exact Hall|].
  split. { intros m. apply Hkept. }
  split. { intros m. apply Hkept. }
  done.
Qed.

End DeleteMessage.

(** ** Loading a conversation and paging *)

Section Loading.
Variable api : Api.
Implicit Types (w : World) (id limit : Z).

(** What [loadConversation] leaves once the transport has answered with
    [data]: the conversation it returns is the one stored under [id], the
    other entries and the rest of the store are untouched, and the first
    effect is the [getConversation] call. *)
Lemma loadConversation_success id limit w mi data :
  messengerInfo (store w) = Some mi →
  socket_getConversation api id (getConversationType api mi id) limit
    = Some data →
  ∃ c w' rest,
    Store.loadConversation api id limit w = Ok (Some c) w' ∧
    store w' = set_conversations (<[id := c]>) (store w) ∧
    clock w' = clock w ∧
    effects w' =
      effects w ++
      mkIssued (clock w)
        (GetConversation id (getConversationType api mi id) limit) (store w)
      :: rest ∧
    c_messages c = default [] (d_messages data) ∧
    c_allMessagesFetched c =
      (Z.of_nat (length (default [] (d_messages data))) <? limit).
Proof.
  intros Hmi Hdata. unfold Store.loadConversation. rewrite Hmi, Hdata.
  set (c0 := set_allMessagesFetched _ _).
  assert (Hm : c_messages c0 = default [] (d_messages data)).
  { cbn. unfold ConversationModel.new_Message. by rewrite list_fmap_id. }
  assert (Hf : c_allMessagesFetched c0 =
               (Z.of_nat (length (default [] (d_messages data))) <? limit)).
  { cbn. unfold ConversationModel.new_Message. by rewrite list_fmap_id. }
  destruct (ConversationModel.isGroup c0).
  - unfold Store.getGroupSettings.
    repeat case_match; cbn; do 3 eexists;
      (split; [reflexivity|]); cbn; rewrite <- ?app_assoc; cbn;
      repeat split; try done.
  - unfold Store.getConversationSettings. cbn. do 3 eexists.
    split; [reflexivity|]. cbn. rewrite <- ?app_assoc. cbn.
    repeat split; try done.
Qed.

(** C5. When [loadConversation(id, limit)] succeeds, the conversation it
    builds has [allMessagesFetched] set exactly when fewer than [limit]
    messages came back, it holds the returned messages, and it is the entry
    of the store for [id] whatever was there before; the other entries are
    kept. *)
Theorem loadConversation_allMessagesFetched id limit w mi data :
  messengerInfo (store w) = Some mi →
  socket_getConversation api id (getConversationType api mi id) limit
    = Some data →
  ∃ c w',
    Store.loadConversation api id limit w = Ok (Some c) w' ∧
    conversations (store w') !! id = Some c ∧
    length (c_messages c) = length (default [] (d_messages data)) ∧
    (c_allMessagesFetched c = true ↔
       Z.of_nat (length (default [] (d_messages data))) < limit) ∧
    (∀ j, j ≠ id →
          conversations (store w') !! j = conversations (store w) !! j).
Proof.
  intros Hmi Hdata.
  destruct (loadConversation_success id limit w mi data Hmi Hdata)
    as (c & w' & rest & Hrun & Hst & _ & _ & Hmsgs & Hflag).
  exists c, w'. split; [done|]. rewrite Hst. cbn.
  split; [by rewrite lookup_insert_eq|].
  split; [by rewrite Hmsgs|].
  split; [rewrite Hflag; apply Z.ltb_lt|].
  intros j Hj. by rewrite lookup_insert_ne.
Qed.

(** C4. [loadOlderMessages(id)] returns at once, leaving the store and the
    effects as they were, when the conversation is not loaded, or is fully
    fetched, or a load is in flight; otherwise it is
    [loadConversation(id, messages.length + 30)], whose call on the socket
    carries that limit. *)
Theorem loadOlderMessages_noop_or_reload id w :
  (nothingToLoad id (store w) →
     Store.loadOlderMessages api id w = Ok None w) ∧
  (¬ nothingToLoad id (store w) →
     ∃ c,
       conversations (store w) !! id = Some c ∧
       Store.loadOlderMessages api id w =
         Store.loadConversation api id
           (Z.of_nat (length (c_messages c)) + 30) w ∧
       ∀ mi, messengerInfo (store w) = Some mi →
         ∃ rest,
           effects (world_of (Store.loadOlderMessages api id w)) =
             effects w ++
             mkIssued (clock w)
               (GetConversation id (getConversationType api mi id)
                  (Z.of_nat (length (c_messages c)) + 30)) (store w)
             :: rest).
Proof.
  unfold nothingToLoad, Store.loadOlderMessages. split.
  - intros [H | [(c & H & Hc) | H]].
    + by rewrite H.
    + by rewrite H, Hc.
    + destruct (conversations (store w) !! id); [|done].
      by rewrite H, orb_true_r.
  - intros Hno.
    destruct (conversations (store w) !! id) as [c|] eqn:Hc; [|tauto].
    destruct (c_allMessagesFetched c) eqn:Hf; [exfalso; apply Hno; eauto|].
    destruct (isLoading (store w)) eqn:Hl; [tauto|].
    exists c. cbn. do 2 (split; [done|]).
    intros mi Hmi. unfold Store.MSGS_REQUEST_LIMIT.
    set (limit := Z.of_nat (length (c_messages c)) + 30).
    destruct (socket_getConversation api id (getConversationType api mi id)
                limit) as [data|] eqn:Hdata.
    + destruct (loadConversation_success id limit w mi data Hmi Hdata)
        as (c' & w' & rest & Hrun & _ & _ & Heff & _).
      exists rest. by rewrite Hrun.
    + exists []. unfold Store.loadConversation. by rewrite Hmi, Hdata.
Qed.

End Loading.

(** ** Sending a message *)

Section SendMessage.
Implicit Types (w : World) (conversationId : Z) (body channelSetId : string).

(** C1 as stated fails: with conversation 5 selected, [sendMessage(7, "hi")]
    appends the temporary message to conversation 5; the list of
    conversation 7, the one named by [conversationId], keeps its length. *)
Lemma sendMessage_not_to_conversationId :
  ∃ w',
    Store.sendMessage 7 "hi" EmptyString two_conversations = Ok tt w' ∧
    (length ∘ c_messages) <$> conversations (store two_conversations) !! 7
      = Some 0%nat ∧
    (length ∘ c_messages) <$> conversations (store w') !! 7 = Some 0%nat ∧
    (length ∘ c_messages) <$> conversations (store w') !! 5 = Some 1%nat ∧
    i_effect <$> effects w'
      = [SendMessage (mkSendOptions 7 "hi" EmptyString None)].
Proof.
  eexists. split; [vm_compute; reflexivity|]. vm_compute. done.
Qed.

(** C1, amended. With the roster and the selected conversation loaded,
    [sendMessage(conversationId, body)] appends to the message list of the
    selected conversation a temporary message whose id is the string of the
    current time and whose [isSendingMessage] is true; that list grows by
    exactly one, the other conversations are untouched, and the store from
    which the send call is issued already holds the longer list. *)
Theorem sendMessage_appends_to_selected
    conversationId body channelSetId w mi sel c :
  messengerInfo (store w) = Some mi →
  selectedConversationId (store w) = Some sel →
  conversations (store w) !! sel = Some c →
  ∃ w' c' temporary cues,
    Store.sendMessage conversationId body channelSetId w = Ok tt w' ∧
    m_id temporary = StrId (String_of_number (clock w)) ∧
    m_isSendingMessage temporary = true ∧
    m_body temporary = body ∧
    conversations (store w') !! sel = Some c' ∧
    c_messages c' = c_messages c ++ [temporary] ∧
    length (c_messages c') = S (length (c_messages c)) ∧
    (∀ k, k ≠ sel →
          conversations (store w') !! k = conversations (store w) !! k) ∧
    effects w' =
      effects w ++ cues ++
      [mkIssued (clock w)
         (SendMessage
            (mkSendOptions conversationId body channelSetId
               (m_id <$> messageForReply (store w))))
         (store w')] ∧
    Forall (λ i, i_effect i = PlayMsgSent) cues.
Proof.
  intros Hmi Hsel Hc.
  set (temporary :=
         mkMessage (StrId (String_of_number (clock w))) None (Some sel) body
           (Some (mi_messengerUser mi)) (clock w) false true).
  set (c' := set_messages (c_messages c ++ [temporary]) c).
  set (s' := set_messageForReply None
               (set_conversations (<[sel := c']>) (store w))).
  set (cues := match c_settings c with
               | Some settings =>
                   if notification settings
                   then [mkIssued (clock w) PlayMsgSent s'] else []
               | None => []
               end).
  exists (mkWorld s' (clock w)
            (effects w ++ cues ++
             [mkIssued (clock w)
                (SendMessage
                   (mkSendOptions conversationId body channelSetId
                      (m_id <$> messageForReply (store w)))) s'])),
    c', temporary, cues.
  split.
  { unfold Store.sendMessage, Store.addSendingMessage,
      Store.selectedConversation.
    rewrite Hmi, Hsel, Hc. simpl. rewrite Hsel. simpl.
    rewrite lookup_insert_eq. simpl. subst cues.
    destruct (c_settings c) as [[[]]|]; simpl; unfold issue; simpl;
      rewrite <- ?app_assoc; reflexivity. }
  simpl. rewrite lookup_insert_eq, length_app. simpl.
  do 6 (split; [done || lia|]).
  split. { intros k Hk. by rewrite lookup_insert_ne. }
  split; [done|]. subst cues.
  destruct (c_settings c) as [[[]]|]; repeat constructor.
Qed.

End SendMessage.

(** ** Applying a pushed message *)

Section UpdateMessage.
Implicit Types (w : World) (c : Conversation).

Lemma findIndex_Some {A} (p : A -> bool) (l : list A) i :
  findIndex p l = Some i →
  ∃ x, l !! i = Some x ∧ p x = true ∧
       ∀ j y, (j < i)%nat → l !! j = Some y → p y = false.
Proof.
  revert i. induction l as [|x l IH]; intros i; simpl; [done|].
  destruct (p x) eqn:Hp.
  - intros [= <-]. exists x. repeat split; [done|]. intros j y Hj. lia.
  - destruct (findIndex p l) as [k|]; [|done]. intros [= <-].
    destruct (IH k eq_refl) as (z & Hz & Hpz & Hlt).
    exists z. repeat split; [done..|].
    intros [|j] y Hj; simpl; [by intros [= <-]|].
    apply Hlt. lia.
Qed.

Lemma findIndex_None {A} (p : A -> bool) (l : list A) :
  findIndex p l = None → Forall (λ x, p x = false) l.
Proof.
  induction l as [|x l IH]; simpl; [by constructor|].
  destruct (p x) eqn:Hp; [done|].
  destruct (findIndex p l); [done|]. intros _. constructor; auto.
Qed.

Lemma findIndex_Exists {A} (p : A -> bool) (l : list A) :
  Exists (λ x, p x = true) l → is_Some (findIndex p l).
Proof.
  induction 1 as [x l Hx|x l _ IH]; simpl.
  - rewrite Hx. eauto.
  - destruct (p x); [eauto|]. destruct IH as [k ->]. eauto.
Qed.

(** The store-level [updateMessage] changes the loaded conversations only
    through the conversation's own [updateMessage]. *)
Lemma updateMessage_conversations (message : Message) w conversationId c c' :
  m_conversation message = Some conversationId →
  conversations (store w) !! conversationId = Some c →
  ConversationModel.updateMessage message c = Return c' →
  conversations (store (world_of (Store.updateMessage message w)))
    = <[conversationId := c']> (conversations (store w)).
Proof.
  intros Hm Hc Hup. unfold Store.updateMessage. rewrite Hm, Hc, Hup.
  cbn. destruct (messengerInfo (store w)) as [mi|]; [|done].
  destruct (MessengerInfoModel.byId conversationId mi); [|done].
  by destruct (m_unread message).
Qed.

(** [updateMessage] applied to a message of a loaded conversation compares
    ids: the first entry that has the id of the message is replaced in place;
    without such an entry the message is appended. *)
Lemma updateMessage_by_id
    (message : Message) w conversationId c :
  m_conversation message = Some conversationId →
  conversations (store w) !! conversationId = Some c →
  c_id c = conversationId →
  ∃ c',
    conversations (store (world_of (Store.updateMessage message w)))
      !! conversationId = Some c' ∧
    (Exists (λ m, m_id m = m_id message) (c_messages c) →
       ∃ i old,
         c_messages c !! i = Some old ∧ m_id old = m_id message ∧
         (∀ j m, (j < i)%nat → c_messages c !! j = Some m →
                 m_id m ≠ m_id message) ∧
         c_messages c' = <[i := message]> (c_messages c) ∧
         length (c_messages c') = length (c_messages c) ∧
         m_id <$> c_messages c' = m_id <$> c_messages c) ∧
    (Forall (λ m, m_id m ≠ m_id message) (c_messages c) →
       c_messages c' = c_messages c ++ [message] ∧
       length (c_messages c') = S (length (c_messages c))).
Proof.
  intros Hm Hc Hid.
  set (p := λ m : Message, bool_decide (m_id m = m_id message)).
  assert (Hup : ∃ c', ConversationModel.updateMessage message c = Return c' ∧
            c_messages c' =
              match findIndex p (c_messages c) with
              | Some i => <[i := message]> (c_messages c)
              | None => c_messages c ++ [message]
              end).
  { unfold ConversationModel.updateMessage, ConversationModel.new_Message.
    rewrite Hm. rewrite bool_decide_eq_false_2 by (intros H; by apply H).
    fold p. destruct (findIndex p (c_messages c)); eexists; by split. }
  destruct Hup as (c' & Hup & Hmsgs). exists c'.
  rewrite (updateMessage_conversations message w conversationId c c')
    by done.
  split; [by rewrite lookup_insert_eq|]. rewrite Hmsgs. split.
  - intros Hex.
    destruct (findIndex_Exists p (c_messages c)) as [i Hi].
    { eapply Exists_impl; [exact Hex|]. intros m Hmid.
      by apply bool_decide_eq_true. }
    rewrite Hi. destruct (findIndex_Some p _ i Hi) as (old & Hold & Hp & Hlt).
    apply bool_decide_eq_true in Hp.
    exists i, old. split; [done|]. split; [done|]. split.
    { intros j m Hj Hjm. specialize (Hlt j m Hj Hjm).
      by apply bool_decide_eq_false in Hlt. }
    split; [done|]. split; [by rewrite length_insert|].
    rewrite list_fmap_insert. apply list_insert_id.
    by rewrite list_lookup_fmap, Hold; cbn; rewrite Hp.
  - intros Hall.
    destruct (findIndex p (c_messages c)) as [i|] eqn:Hi.
    + destruct (findIndex_Some p _ i Hi) as (old & Hold & Hp & _).
      apply bool_decide_eq_true in Hp.
      rewrite Forall_forall in Hall.
      exfalso. eapply Hall; [|exact Hp]. eapply list_elem_of_lookup_2, Hold.
    + split; [done|]. rewrite length_app. cbn. lia.
Qed.

(** C2 as stated fails when two temporary messages share their id: the two
    messages of [sending_twice] were sent in the same millisecond, the
    confirmation bearing that id replaces the first of them, and the second
    is still there with the confirmed id. *)
Lemma updateMessage_same_millisecond_duplicate :
  ∃ first second w',
    c_messages <$> conversations (store sending_twice) !! 5
      = Some [first; second] ∧
    m_isSendingMessage first = true ∧
    m_id confirmation = m_id first ∧
    Store.updateMessage confirmation sending_twice = Ok tt w' ∧
    c_messages <$> conversations (store w') !! 5
      = Some [confirmation; second] ∧
    m_id second = m_id confirmation.
Proof.
  eexists _, _, _. split; [vm_compute; reflexivity|].
  split; [reflexivity|]. split; [reflexivity|].
  split; [vm_compute; reflexivity|]. split; vm_compute; reflexivity.
Qed.

(** C2, amended. A loaded conversation holds a temporary message whose id no
    other entry of its list has.  When a message of that conversation that
    bears this id (the id is the only token a temporary message carries) is
    applied via [updateMessage], the temporary entry is replaced in place:
    the message is at the index of the temporary entry, the other entries
    and the length of the list are unchanged, and no other entry has the
    confirmed id. *)
Theorem updateMessage_replaces_temporary_in_place
    (message temporary : Message) w conversationId c (i : nat) :
  m_conversation message = Some conversationId →
  conversations (store w) !! conversationId = Some c →
  c_id c = conversationId →
  c_messages c !! i = Some temporary →
  m_isSendingMessage temporary = true →
  m_id message = m_id temporary →
  (∀ j m, j ≠ i → c_messages c !! j = Some m → m_id m ≠ m_id temporary) →
  ∃ c',
    conversations (store (world_of (Store.updateMessage message w)))
      !! conversationId = Some c' ∧
    c_messages c' = <[i := message]> (c_messages c) ∧
    c_messages c' !! i = Some message ∧
    length (c_messages c') = length (c_messages c) ∧
    (∀ j m, c_messages c' !! j = Some m → m_id m = m_id message → j = i).
Proof.
  intros Hm Hc Hid Htemp _ Hsame Hunique.
  destruct (updateMessage_by_id message w conversationId c Hm Hc Hid)
    as (c' & Hc' & Hreplace & _).
  destruct Hreplace as (i0 & old & Hold & Hold_id & _ & Hmsgs & Hlen & _).
  { apply Exists_exists. exists temporary.
    split; [by eapply list_elem_of_lookup_2|done]. }
  assert (i0 = i) as ->.
  { destruct (decide (i0 = i)) as [|Hne]; [done|].
    destruct (Hunique i0 old Hne Hold). congruence. }
  exists c'. split; [exact Hc'|]. split; [exact Hmsgs|].
  split.
  { rewrite Hmsgs. apply list_lookup_insert_eq.
    by eapply lookup_lt_Some. }
  split; [exact Hlen|].
  intros j m Hj Hjid. destruct (decide (j = i)) as [|Hne]; [done|].
  rewrite Hmsgs, list_lookup_insert_ne in Hj by done.
  destruct (Hunique j m Hne Hj). congruence.
Qed.

End UpdateMessage.

(** ** Marking a conversation as read *)

Section MarkAsRead.
Variable api : Api.
Implicit Types (w : World) (id : Z) (c : Conversation).

Lemma find_updateFirst (id : Z) f (l : list ConversationInfo) :
  (∀ i, ci_id (f i) = ci_id i) →
  List.find (MessengerInfoModel.hasId id)
    (MessengerInfoModel.updateFirst (MessengerInfoModel.hasId id) f l)
  = f <$> List.find (MessengerInfoModel.hasId id) l.
Proof.
  intros Hf. induction l as [|x l IH]; simpl; [done|].
  destruct (MessengerInfoModel.hasId id x) eqn:Hx; simpl.
  - unfold MessengerInfoModel.hasId in *. by rewrite Hf, Hx.
  - by rewrite Hx.
Qed.

Lemma byId_mutateById id f mi :
  (∀ i, ci_id (f i) = ci_id i) →
  MessengerInfoModel.byId id (MessengerInfoModel.mutateById id f mi)
  = f <$> MessengerInfoModel.byId id mi.
Proof.
  intros Hf. unfold MessengerInfoModel.byId, MessengerInfoModel.mutateById.
  destruct (List.find _ (mi_conversations mi)) eqn:Hc; cbn.
  - by rewrite find_updateFirst, Hc.
  - by rewrite Hc, find_updateFirst.
Qed.

Lemma getUnreadIds_read c :
  ConversationModel.getUnreadIds
    (set_messages (set_unread false <$> c_messages c) c) = [].
Proof.
  unfold ConversationModel.getUnreadIds. simpl c_messages.
  induction (c_messages c) as [|m l IH]; [done|].
  rewrite fmap_cons, filter_cons_False; [exact IH|]. simpl. done.
Qed.

Lemma markConversationAsRead_local_loaded id w c :
  id ≠ 0 →
  conversations (store w) !! id = Some c →
  ∃ w0,
    Store.markConversationAsRead_local id w
      = Ok (ConversationModel.getUnreadIds c) w0 ∧
    conversations (store w0)
      = <[id := set_messages (set_unread false <$> c_messages c) c]>
          (conversations (store w)) ∧
    messengerInfo (store w0) =
      MessengerInfoModel.mutateById id (set_unreadCount 0)
        <$> messengerInfo (store w) ∧
    effects w0 = effects w.
Proof.
  intros Hid Hc.
  assert (Ht : Store.truthy id = true).
  { unfold Store.truthy. by apply negb_true_iff, Z.eqb_neq. }
  unfold Store.markConversationAsRead_local. rewrite Ht, Hc. simpl.
  eexists. split; [reflexivity|]. done.
Qed.

(** C3 as stated fails for the loaded conversation whose id is 0: the guard
    [if (!id) return] leaves its message unread and issues nothing. *)
Lemma markConversationAsRead_zero_untouched :
  Store.markConversationAsRead offline 0 conversation_zero
    = Ok tt conversation_zero ∧
  ConversationModel.getUnreadIds <$> conversations (store conversation_zero) !! 0
    = Some [NumId 1].
Proof. split; vm_compute; reflexivity. Qed.

(** C3, amended. For a loaded conversation whose id is truthy,
    [markConversationAsRead(id)] clears [unread] on every message, sets the
    [unreadCount] of the roster entry for [id] to 0, and adds to the calls on
    the socket the batch call with the unread ids exactly when there is
    one; run again at once it issues nothing. *)
Theorem markConversationAsRead_clears_unread id w c :
  id ≠ 0 →
  conversations (store w) !! id = Some c →
  ∃ w1 c1,
    Store.markConversationAsRead api id w = Ok tt w1 ∧
    conversations (store w1) !! id = Some c1 ∧
    c_messages c1 = set_unread false <$> c_messages c ∧
    Forall (λ m, m_unread m = false) (c_messages c1) ∧
    (∀ mi info,
        messengerInfo (store w) = Some mi →
        MessengerInfoModel.byId id mi = Some info →
        ∃ mi1, messengerInfo (store w1) = Some mi1 ∧
               MessengerInfoModel.byId id mi1 = Some (set_unreadCount 0 info)) ∧
    socketCalls w1 =
      socketCalls w ++
      match ConversationModel.getUnreadIds c with
      | [] => []
      | unreadIds => [UpdateMessagesReadStatus unreadIds]
      end ∧
    ∃ w2, Store.markConversationAsRead api id w1 = Ok tt w2 ∧
          effects w2 = effects w1.
Proof.
  intros Hid Hc.
  set (c1 := set_messages (set_unread false <$> c_messages c) c).
  destruct (markConversationAsRead_local_loaded id w c Hid Hc)
    as (w0 & Hlocal & Hconv0 & Hmi0 & Heff0).
  assert (Hreport : ∀ ids v, ∃ v',
            Store.markConversationAsRead_report api ids v = Ok tt v' ∧
            store v' = store v ∧
            socketCalls v' =
              socketCalls v ++
              match ids with [] => [] | _ => [UpdateMessagesReadStatus ids] end ∧
            (ids = [] → v' = v)).
  { intros ids v. unfold Store.markConversationAsRead_report.
    destruct ids as [|i ids]; cbn.
    - exists v. by rewrite app_nil_r.
    - destruct (socket_updateMessagesReadStatus api (i :: ids));
        eexists; (split; [reflexivity|]); unfold socketCalls; cbn;
        rewrite ?fmap_app, ?List.filter_app; cbn;
        rewrite <- ?app_assoc; by rewrite ?app_nil_r. }
  destruct (Hreport (ConversationModel.getUnreadIds c) w0)
    as (w1 & Hrun1 & Hst1 & Hcalls1 & _).
  exists w1, c1.
  split. { unfold Store.markConversationAsRead. by rewrite Hlocal. }
  rewrite Hst1, Hconv0, lookup_insert_eq.
  split; [done|]. split; [done|].
  split. { cbn. apply Forall_fmap, Forall_forall. intros m _. reflexivity. }
  split.
  { intros mi info Hmi Hinfo. rewrite Hmi0, Hmi. cbn. eexists.
    split; [done|]. by rewrite byId_mutateById, Hinfo. }
  split.
  { rewrite Hcalls1. unfold socketCalls. rewrite Heff0.
    by destruct (ConversationModel.getUnreadIds c). }
  assert (Hc1 : conversations (store w1) !! id = Some c1).
  { by rewrite Hst1, Hconv0, lookup_insert_eq. }
  destruct (markConversationAsRead_local_loaded id w1 c1 Hid Hc1)
    as (w2 & Hlocal2 & _ & _ & Heff2).
  exists w2. unfold Store.markConversationAsRead. rewrite Hlocal2.
  subst c1. by rewrite getUnreadIds_read.
Qed.

(** C9 fails on the code: for an id that is truthy and not loaded,
    [conversation.getUnreadIds()] runs before the guard [if (conversation)]
    and throws. *)
Theorem markConversationAsRead_not_loaded_throws :
  Store.markConversationAsRead offline 5 (world Store.constructor)
  = Throw (TypeError "conversation is undefined") (world Store.constructor).
Proof. reflexivity. Qed.

End MarkAsRead.

(** ** Deleting a group *)

Section DeleteGroup.
Variable api : Api.
Implicit Types (w : World) (id groupId : Z).

Lemma keepsRoster_refl w : keepsRoster w w.
Proof. by split. Qed.

Lemma keepsRoster_trans w1 w2 w3 :
  keepsRoster w1 w2 → keepsRoster w2 w3 → keepsRoster w1 w3.
Proof. intros [H1 H2] [H3 H4]. split; congruence. Qed.

Lemma keepsRoster_issue e w : keepsRoster w (issue e w).
Proof. by split. Qed.

Lemma updateFirst_ids (p : ConversationInfo → bool) f l :
  (∀ i, ci_id (f i) = ci_id i) →
  ci_id <$> MessengerInfoModel.updateFirst p f l = ci_id <$> l.
Proof.
  intros Hf. induction l as [|x l IH]; simpl; [done|].
  destruct (p x); rewrite !fmap_cons; [by rewrite Hf|by rewrite IH].
Qed.

Lemma mutateById_groupIds id f mi :
  (∀ i, ci_id (f i) = ci_id i) →
  ci_id <$> mi_groups (MessengerInfoModel.mutateById id f mi)
  = ci_id <$> mi_groups mi.
Proof.
  intros Hf. unfold MessengerInfoModel.mutateById.
  destruct (List.find _ _); cbn; [done|]. by apply updateFirst_ids.
Qed.

Lemma markConversationAsRead_local_keeps id w :
  keepsRoster w (world_of (Store.markConversationAsRead_local id w)).
Proof.
  unfold Store.markConversationAsRead_local.
  destruct (negb (Store.truthy id)); [apply keepsRoster_refl|].
  destruct (conversations (store w) !! id); [|apply keepsRoster_refl].
  split; [done|]. cbn. unfold groupIds. cbn.
  destruct (messengerInfo (store w)); cbn; [|done].
  by rewrite mutateById_groupIds.
Qed.

Lemma markConversationAsRead_report_keeps ids w :
  keepsRoster w (world_of (Store.markConversationAsRead_report api ids w)).
Proof.
  unfold Store.markConversationAsRead_report.
  destruct (0 <? length ids)%nat; [|apply keepsRoster_refl].
  by destruct (socket_updateMessagesReadStatus api ids).
Qed.

Lemma markConversationAsRead_keeps id w :
  keepsRoster w (world_of (Store.markConversationAsRead api id w)).
Proof.
  unfold Store.markConversationAsRead.
  pose proof (markConversationAsRead_local_keeps id w) as H.
  destruct (Store.markConversationAsRead_local id w) as [ids w1|e w1];
    cbn in *; [|done].
  eapply keepsRoster_trans; [exact H|].
  apply markConversationAsRead_report_keeps.
Qed.

Lemma loadConversation_keeps id limit w :
  keepsRoster w (world_of (Store.loadConversation api id limit w)).
Proof.
  unfold Store.loadConversation.
  destruct (messengerInfo (store w)) as [mi|] eqn:Hmi;
    [|apply keepsRoster_refl].
  destruct (socket_getConversation api id _ limit); [|by split].
  unfold Store.getGroupSettings, Store.getConversationSettings.
  repeat case_match; by split.
Qed.

Lemma setSelectedConversationId_resume_keeps p w :
  keepsRoster w (world_of (Store.setSelectedConversationId_resume api p w)).
Proof.
  destruct p as [|i|ids]; cbn.
  - apply keepsRoster_refl.
  - pose proof (loadConversation_keeps i Store.MSGS_REQUEST_LIMIT w) as H.
    destruct (Store.loadConversation api i Store.MSGS_REQUEST_LIMIT w)
      as [[c|] w1|e w1]; cbn in *; [|done..].
    eapply keepsRoster_trans; [exact H|]. apply markConversationAsRead_keeps.
  - apply markConversationAsRead_report_keeps.
Qed.

Lemma setSelectedConversationId_begin_selects sel w :
  let w' := world_of (Store.setSelectedConversationId_begin sel w) in
  selectedConversationId (store w') = sel ∧
  groupIds (store w') = groupIds (store w).
Proof.
  unfold Store.setSelectedConversationId_begin.
  set (w1 := update (set_selectedConversationId sel) w).
  assert (H1 : selectedConversationId (store w1) = sel ∧
               groupIds (store w1) = groupIds (store w)) by done.
  destruct sel as [i|]; [|done].
  destruct (Store.truthy i); [|done].
  destruct (conversations (store w1) !! i); [|done].
  pose proof (markConversationAsRead_local_keeps i w1) as [H2 H3].
  destruct (Store.markConversationAsRead_local i w1); cbn in *;
    destruct H1; split; congruence.
Qed.

Lemma filter_hasId_ids groupId (l : list ConversationInfo) :
  ci_id <$> List.filter (λ g, negb (MessengerInfoModel.hasId groupId g)) l
  = List.filter (λ k, negb (k =? groupId)) (ci_id <$> l).
Proof.
  induction l as [|x l IH]; [done|].
  rewrite fmap_cons. simpl List.filter.
  unfold MessengerInfoModel.hasId at 1.
  destruct (decide (ci_id x = groupId)) as [E|E].
  - rewrite bool_decide_eq_true_2 by done.
    rewrite (proj2 (Z.eqb_eq _ _) E). simpl negb. cbv iota. exact IH.
  - rewrite bool_decide_eq_false_2 by done.
    rewrite (proj2 (Z.eqb_neq _ _) E). simpl negb. cbv iota.
    by rewrite fmap_cons, IH.
Qed.

Lemma filter_absent (k : Z) (l : list Z) :
  k ∉ l → List.filter (λ j, negb (j =? k)) l = l.
Proof.
  induction l as [|x l IH]; simpl; [done|].
  intros Hk. apply not_elem_of_cons in Hk as [Hne Hk].
  rewrite (proj2 (Z.eqb_neq x k)) by done. simpl. by rewrite IH.
Qed.

Lemma filter_NoDup_length (k : Z) (l : list Z) :
  NoDup l → k ∈ l →
  S (length (List.filter (λ j, negb (j =? k)) l)) = length l.
Proof.
  induction 1 as [|x l Hx Hnd IH]; [by intros ?%elem_of_nil|].
  intros Hk. simpl. destruct (decide (x = k)) as [->|Hne].
  - rewrite Z.eqb_refl. simpl. by rewrite filter_absent.
  - rewrite (proj2 (Z.eqb_neq x k)) by done. simpl.
    apply elem_of_cons in Hk as [?|Hk]; [congruence|]. by rewrite IH.
Qed.

Lemma filter_keeps (k x : Z) (l : list Z) :
  x ∈ l → x ≠ k → x ∈ List.filter (λ j, negb (j =? k)) l.
Proof.
  intros Hx Hne. apply list_elem_of_In, List.filter_In.
  split; [by apply list_elem_of_In|].
  by apply negb_true_iff, Z.eqb_neq.
Qed.

Lemma filter_drops (k : Z) (l : list Z) :
  k ∉ List.filter (λ j, negb (j =? k)) l.
Proof.
  intros Hk%list_elem_of_In%List.filter_In. destruct Hk as [_ Hk].
  by rewrite Z.eqb_refl in Hk.
Qed.

(** The success callback of [deleteGroup] from the call of
    [setSelectedConversationId] on: the selection is the id passed to that
    call and the groups are the former ones without [groupId]. *)
Lemma deleteGroup_callback_tail groupId sel w0 mi :
  messengerInfo (store w0) = Some mi →
  let r := Store.setSelectedConversationId_begin sel w0 in
  let w2 :=
    update (λ s,
              set_messengerInfo
                (MessengerInfoModel.set_groups
                   (List.filter
                      (λ g, negb (MessengerInfoModel.hasId groupId g))
                      (default [] (mi_groups <$> messengerInfo s)))
                   <$> messengerInfo s) s) (world_of r) in
  ∃ w' mi',
    match r with
    | Ok p _ =>
        Ok tt (world_of (Store.setSelectedConversationId_resume api p w2))
    | Throw _ _ => Ok tt w2
    end = Ok tt w' ∧
    messengerInfo (store w') = Some mi' ∧
    ci_id <$> mi_groups mi'
      = List.filter (λ k, negb (k =? groupId)) (ci_id <$> mi_groups mi) ∧
    selectedConversationId (store w') = sel.
Proof.
  intros Hmi r w2.
  pose proof (setSelectedConversationId_begin_selects sel w0) as [Hs1 Hg1].
  fold r in Hs1, Hg1.
  assert (Hmi1 : ∃ mi1, messengerInfo (store (world_of r)) = Some mi1 ∧
                        ci_id <$> mi_groups mi1 = ci_id <$> mi_groups mi).
  { unfold groupIds in Hg1. rewrite Hmi in Hg1. simpl in Hg1.
    destruct (messengerInfo (store (world_of r))) as [mi1|]; [|done].
    exists mi1. split; [done|]. by injection Hg1. }
  destruct Hmi1 as (mi1 & Hmi1 & Hids1).
  set (mi2 := MessengerInfoModel.set_groups
                (List.filter
                   (λ g, negb (MessengerInfoModel.hasId groupId g))
                   (mi_groups mi1)) mi1).
  assert (Hmi2 : messengerInfo (store w2) = Some mi2).
  { subst w2. simpl. by rewrite Hmi1. }
  assert (Hs2 : selectedConversationId (store w2) = sel) by exact Hs1.
  assert (Hfinal : ∃ w', match r with
                         | Ok p _ =>
                             Ok tt (world_of
                                      (Store.setSelectedConversationId_resume
                                         api p w2))
                         | Throw _ _ => Ok tt w2
                         end = Ok tt w' ∧ keepsRoster w2 w').
  { destruct r as [p ?|? ?]; eexists; (split; [reflexivity|]).
    - apply setSelectedConversationId_resume_keeps.
    - apply keepsRoster_refl. }
  destruct Hfinal as (w' & Hrun & Hs' & Hg').
  unfold groupIds in Hg'. rewrite Hmi2 in Hg'. simpl in Hg'.
  destruct (messengerInfo (store w')) as [mi'|] eqn:Hmi'; [|done].
  simpl in Hg'. injection Hg' as Hg'.
  rewrite filter_hasId_ids, Hids1 in Hg'.
  exists w', mi'. split; [exact Hrun|]. split; [done|]. split; [done|].
  by rewrite Hs'.
Qed.

(** C6. When [deleteGroup(groupId)] succeeds for a group of the roster, the
    roster's groups are the former ones without that group; and, the deleted
    group having been selected, the selection is the group that was at the
    previous index (at the next index when the deleted group was first),
    which remains in the roster, or none when no group remains.  (The
    callback does not consult the former selection: it selects in the same
    way whichever conversation was selected.) *)
Theorem deleteGroup_selects_adjacent groupId w mi i :
  socket_deleteGroup api groupId = true →
  messengerInfo (store w) = Some mi →
  NoDup (ci_id <$> mi_groups mi) →
  findIndex (MessengerInfoModel.hasId groupId) (mi_groups mi) = Some i →
  selectedConversationId (store w) = Some groupId →
  ∃ w' mi',
    Store.deleteGroup api groupId w = Ok tt w' ∧
    messengerInfo (store w') = Some mi' ∧
    (ci_id <$> mi_groups mi')
      = List.filter (λ k, negb (k =? groupId)) (ci_id <$> mi_groups mi) ∧
    (groupId ∉ (ci_id <$> mi_groups mi')) ∧
    match mi_groups mi' with
    | [] => selectedConversationId (store w') = None
    | _ :: _ =>
        ∃ g,
          mi_groups mi !! (if decide (i = 0%nat) then 1%nat else (i - 1)%nat)
            = Some g ∧
          selectedConversationId (store w') = Some (ci_id g) ∧
          ci_id g ∈ (ci_id <$> mi_groups mi')
    end.
Proof.
  intros Hok Hmi Hnd Hi _.
  destruct (findIndex_Some _ _ _ Hi) as (d & Hd & Hdid & _).
  apply bool_decide_eq_true in Hdid.
  assert (Hin : groupId ∈ (ci_id <$> mi_groups mi)).
  { apply list_elem_of_fmap. exists d. split; [done|].
    eapply list_elem_of_lookup_2, Hd. }
  pose proof (filter_NoDup_length groupId _ Hnd Hin) as Hlen.
  rewrite length_fmap in Hlen.
  pose proof (lookup_lt_Some _ _ _ Hd) as Hlt.
  (* the id passed to [setSelectedConversationId] *)
  set (j := if decide (i = 0%nat) then 1%nat else (i - 1)%nat).
  assert (Hsel : ∃ sel,
            (∃ w' mi',
               Store.deleteGroup api groupId w = Ok tt w' ∧
               messengerInfo (store w') = Some mi' ∧
               (ci_id <$> mi_groups mi')
                 = List.filter (λ k, negb (k =? groupId))
                     (ci_id <$> mi_groups mi) ∧
               selectedConversationId (store w') = sel) ∧
            match sel with
            | None => length (mi_groups mi) = 1%nat
            | Some k =>
                (1 < length (mi_groups mi))%nat ∧
                ∃ g, mi_groups mi !! j = Some g ∧ k = ci_id g ∧
                     ci_id g ≠ groupId
            end).
  { unfold Store.deleteGroup. rewrite Hok. simpl negb. cbv iota.
    change (messengerInfo (store (issue (DeleteGroup groupId) w)))
      with (messengerInfo (store w)).
    rewrite Hmi. cbv zeta. rewrite Hi.
    destruct (1 <? length (mi_groups mi))%nat eqn:Hmany.
    - apply Nat.ltb_lt in Hmany.
      assert (Hj : (j < length (mi_groups mi))%nat).
      { subst j. case_decide; lia. }
      destruct (lookup_lt_is_Some_2 _ _ Hj) as [g Hg].
      assert (Hidx : match i with S k => Some k | O => Some 1%nat end = Some j).
      { subst j. destruct i; simpl; [done|]. f_equal. lia. }
      rewrite Hidx, Hg. exists (Some (ci_id g)). split.
      { apply (deleteGroup_callback_tail groupId (Some (ci_id g))
                 (issue (DeleteGroup groupId) w) mi Hmi). }
      split; [done|]. exists g. split; [done|]. split; [done|].
      intros Heq.
      assert (i = j).
      { eapply (NoDup_lookup _ _ _ groupId Hnd);
          rewrite list_lookup_fmap; [by rewrite Hd; simpl; rewrite Hdid|].
        by rewrite Hg; simpl; rewrite Heq. }
      subst j. case_decide; lia.
    - apply Nat.ltb_ge in Hmany. exists None. split.
      { apply (deleteGroup_callback_tail groupId None
                 (issue (DeleteGroup groupId) w) mi Hmi). }
      lia. }
  destruct Hsel as (sel & (w' & mi' & Hrun & Hmi' & Hg' & Hs') & Hsel).
  exists w', mi'. split; [done|]. split; [done|]. split; [done|].
  split; [rewrite Hg'; apply filter_drops|].
  rewrite Hs'.
  assert (Hlen' : length (mi_groups mi') =
                  length (List.filter (λ k, negb (k =? groupId))
                            (ci_id <$> mi_groups mi))).
  { by rewrite <- Hg', length_fmap. }
  destruct (mi_groups mi') as [|g' rest] eqn:Hgroups'.
  - destruct sel as [k|]; [|done]. simpl in Hlen'. lia.
  - destruct sel as [k|]; [|simpl in Hlen'; lia].
    destruct Hsel as (_ & g & Hg & -> & Hne). exists g.
    split; [done|]. split; [done|]. rewrite Hg'.
    apply filter_keeps; [|done].
    apply list_elem_of_fmap. exists g. split; [done|].
    eapply list_elem_of_lookup_2, Hg.
Qed.

End DeleteGroup.

(** ** The theorems at concrete states *)

Lemma deleteMessage_clears_selection_witness :
  ∃ w',
    Store.deleteMessage (NumId 3) with_selection = Ok tt w' ∧
    messageForReply (store w') = None ∧
    selectedMessages (store w') = [message (NumId 4) 5 false].
Proof.
  destruct (deleteMessage_clears_selection (NumId 3) with_selection)
    as (w' & Hrun & _ & _ & _ & _ & _ & Hsel & _).
  exists w'. split; [exact Hrun|].
  split; [|exact Hsel].
  vm_compute in Hrun. injection Hrun as <-. reflexivity.
Defined.

Lemma loadConversation_allMessagesFetched_witness :
  messengerInfo (store two_conversations) = Some roster ∧
  socket_getConversation online 5 (getConversationType online roster 5) 30
    = Some (mkData false 5 (Some (replicate 12 (message (NumId 1) 5 false)))
              "chat" None "chat-group") ∧
  ∃ c w',
    Store.loadConversation online 5 30 two_conversations = Ok (Some c) w' ∧
    conversations (store w') !! 5 = Some c ∧
    length (c_messages c) = 12%nat ∧
    c_allMessagesFetched c = true.
Proof.
  split; [reflexivity|]. split; [reflexivity|].
  destruct (loadConversation_allMessagesFetched online 5 30 two_conversations
              roster _ eq_refl eq_refl)
    as (c & w' & Hrun & Hc & Hlen & Hflag & _).
  exists c, w'. split; [exact Hrun|]. split; [exact Hc|].
  split; [exact Hlen|]. apply Hflag. simpl. lia.
Defined.

Lemma loadOlderMessages_noop_or_reload_witness :
  Store.loadOlderMessages offline 9 two_conversations
    = Ok None two_conversations ∧
  Store.loadOlderMessages offline 5 two_conversations
    = Store.loadConversation offline 5 30 two_conversations.
Proof.
  split.
  - apply (proj1 (loadOlderMessages_noop_or_reload offline 9 two_conversations)).
    left. reflexivity.
  - destruct (proj2 (loadOlderMessages_noop_or_reload offline 5
                       two_conversations)) as (c & Hc & Hrun & _).
    + intros [H | [(c & H & Hc) | H]].
      * vm_compute in H. discriminate H.
      * vm_compute in H. injection H as <-. discriminate Hc.
      * discriminate H.
    + rewrite Hrun. vm_compute in Hc. injection Hc as <-. reflexivity.
Defined.

Lemma sendMessage_appends_to_selected_witness :
  messengerInfo (store two_conversations) = Some roster ∧
  selectedConversationId (store two_conversations) = Some 5 ∧
  conversations (store two_conversations) !! 5 = Some (conversation 5 []) ∧
  ∃ w' c',
    Store.sendMessage 5 "hi" EmptyString two_conversations = Ok tt w' ∧
    conversations (store w') !! 5 = Some c' ∧
    length (c_messages c') = 1%nat.
Proof.
  split; [reflexivity|]. split; [reflexivity|]. split; [reflexivity|].
  destruct (sendMessage_appends_to_selected 5 "hi" EmptyString
              two_conversations roster 5 (conversation 5 [])
              eq_refl eq_refl eq_refl)
    as (w' & c' & t & cues & Hrun & _ & _ & _ & Hc' & _ & Hlen & _).
  exists w', c'. split; [exact Hrun|]. split; [exact Hc'|]. exact Hlen.
Defined.

Lemma updateMessage_replaces_temporary_in_place_witness :
  ∃ temporary c',
    c_messages <$> conversations (store sending) !! 5 = Some [temporary] ∧
    m_isSendingMessage temporary = true ∧
    m_id confirmation = m_id temporary ∧
    conversations
      (store (world_of (Store.updateMessage confirmation sending))) !! 5
      = Some c' ∧
    c_messages c' = [confirmation].
Proof.
  set (temporary :=
    mkMessage (StrId (String_of_number 1700000000000)) None (Some 5) "hi"
      (Some 1) 1700000000000 false true).
  destruct (updateMessage_replaces_temporary_in_place confirmation temporary
              sending 5 (set_messages [temporary] (conversation 5 [])) 0%nat)
    as (c' & Hc' & Hmsgs & _).
  - reflexivity.
  - vm_compute. reflexivity.
  - reflexivity.
  - reflexivity.
  - reflexivity.
  - reflexivity.
  - intros [|j] m Hj Hjm; [done|]. discriminate Hjm.
  - exists temporary, c'. split; [vm_compute; reflexivity|].
    split; [reflexivity|]. split; [reflexivity|]. split; [exact Hc'|].
    exact Hmsgs.
Defined.

Lemma markConversationAsRead_clears_unread_witness :
  (5 ≠ 0) ∧
  conversations (store unread_five) !! 5
    = Some (conversation 5
              [message (NumId 1) 5 true; message (NumId 2) 5 false]) ∧
  ∃ w1 c1 mi1,
    Store.markConversationAsRead online 5 unread_five = Ok tt w1 ∧
    conversations (store w1) !! 5 = Some c1 ∧
    Forall (λ m, m_unread m = false) (c_messages c1) ∧
    messengerInfo (store w1) = Some mi1 ∧
    MessengerInfoModel.byId 5 mi1 = Some (mkInfo 5 "Ann" "conversation" 0) ∧
    socketCalls w1 = [UpdateMessagesReadStatus [NumId 1]].
Proof.
  split; [done|]. split; [reflexivity|].
  destruct (markConversationAsRead_clears_unread online 5 unread_five _
              ltac:(done) eq_refl)
    as (w1 & c1 & Hrun & Hc1 & _ & Hall & Hroster & Hcalls & _).
  destruct (Hroster roster _ eq_refl eq_refl) as (mi1 & Hmi1 & Hinfo).
  exists w1, c1, mi1. repeat split; assumption.
Defined.

Lemma deleteGroup_selects_adjacent_witness :
  socket_deleteGroup online 8 = true ∧
  selectedConversationId (store three_groups) = Some 8 ∧
  ∃ w' mi',
    Store.deleteGroup online 8 three_groups = Ok tt w' ∧
    messengerInfo (store w') = Some mi' ∧
    (ci_id <$> mi_groups mi') = [7; 9] ∧
    selectedConversationId (store w') = Some 7.
Proof.
  split; [reflexivity|]. split; [reflexivity|].
  destruct (deleteGroup_selects_adjacent online 8 three_groups
              (mkMessengerInfo []
                 [mkInfo 7 "a" "chat-group" 0; mkInfo 8 "b" "chat-group" 3;
                  mkInfo 9 "c" "chat-group" 0] 1) 1%nat
              eq_refl eq_refl ltac:(compute_done)
              eq_refl eq_refl)
    as (w' & mi' & Hrun & Hmi' & Hids & _ & Hsel).
  exists w', mi'. split; [exact Hrun|]. split; [exact Hmi'|].
  split; [exact Hids|].
  destruct (mi_groups mi'); [discriminate Hids|].
  destruct Hsel as (g & Hg & Hsel & _). injection Hg as <-. exact Hsel.
Defined.

(** ** lodash timers *)

Ltac zbool :=
  repeat match goal with
    | H : (_ <=? _) = true |- _ => apply Z.leb_le in H
    | H : (_ <=? _) = false |- _ => apply Z.leb_gt in H
    | H : (_ <? _) = true |- _ => apply Z.ltb_lt in H
    | H : (_ <? _) = false |- _ => apply Z.ltb_ge in H
    | H : _ || _ = true |- _ => apply orb_true_iff in H; destruct H
    | H : _ || _ = false |- _ => apply orb_false_iff in H; destruct H
    end.

Section LodashFacts.
Import Lodash.
Context {A : Type}.
Implicit Types (d : Debounced A) (now t : Z).

Lemma timer_ok_fresh now (w : Z) (o : Options) :
  0 < w → 0 ≤ now → trailing o = true →
  (maxWait o = None ∨ maxWait o = Some w) →
  timer_ok now (mkDebounced (A:=A) w o None None None 0).
Proof. intros. repeat split; simpl; done. Qed.

(** A call keeps the closure state well formed and leaves a pending timer. *)
Lemma timer_ok_debounced d now (a : A) :
  timer_ok now d →
  timer_ok now (debounced d now a).1 ∧
  lastCallTime (debounced d now a).1 = Some now ∧
  is_Some (timerId (debounced d now a).1).
Proof.
  destruct d as [w [le mw tr] la ti lc li].
  intros (Hw & Htr & Hmw & Hli & Hti). simpl in *. subst tr.
  unfold debounced, shouldInvoke, leadingEdge, invokeFunc; simpl.
  destruct ti as [dl|]; simpl.
  - destruct Hti as (Hdl & lc' & -> & Hlc & Hle).
    destruct Hmw as [->| ->]; simpl;
      repeat (case_match; simpl; zbool; simplify_eq/=);
      repeat split; simpl; eauto; try lia;
      eexists; repeat split; eauto; lia.
  - destruct Hti as (-> & Hlc).
    destruct lc as [lc|]; [specialize (Hlc lc eq_refl)|];
      destruct Hmw as [->| ->]; destruct le; simpl;
      repeat (case_match; simpl; zbool; simplify_eq/=);
      repeat split; simpl; eauto; try lia;
      eexists; repeat split; eauto; lia.
Qed.

(** What a pending timer does when no further call is made. *)
Lemma advance_pending d now dl lc (a : A) :
  timer_ok now d →
  timerId d = Some dl →
  lastCallTime d = Some lc →
  lastArgs d = Some a →
  ∃ t',
    deliveryTime d = Some t' ∧ now < t' ∧ t' ≤ lc + wait d ∧
    (∀ t, t < t' → (advance d t).2 = []) ∧
    (∀ t, t' ≤ t →
          (advance d t).2 = [(t', a)] ∧
          timerId (advance d t).1 = None ∧
          timer_ok t (advance d t).1).
Proof.
  destruct d as [w [le mw tr] la ti lc0 li].
  intros (Hw & Htr & Hmw & Hli & Hti) Hdl Hlc Hla. simpl in *.
  subst tr ti lc0 la. destruct Hti as (Hnow & lc' & [= <-] & Hlc & Hle).
  unfold deliveryTime, advance, runTimers, timerExpired, shouldInvoke,
    remainingWait, trailingEdge, invokeFunc; simpl.
  destruct Hmw as [->| ->]; simpl.
  - destruct (w <=? dl - lc) eqn:E1; simpl; zbool.
    + exists dl. split; [done|]. split; [lia|]. split; [lia|]. split.
      * intros t Ht. destruct (dl <=? t) eqn:E2; zbool; [lia|done].
      * intros t Ht. rewrite (proj2 (Z.leb_le dl t)) by lia. simpl.
        repeat split; simpl; eauto; try lia. intros ? [= <-]. lia.
    + destruct (dl - lc <? 0) eqn:E3; simpl; zbool; [lia|].
      exists (dl + (w - (dl - lc))).
      split; [done|]. split; [lia|]. split; [lia|]. split.
      * intros t Ht. destruct (dl <=? t) eqn:E2; zbool; [|done].
        simpl. rewrite (proj2 (Z.leb_gt _ _)) by lia. done.
      * intros t Ht. rewrite (proj2 (Z.leb_le dl t)) by lia. simpl.
        rewrite (proj2 (Z.leb_le _ t)) by lia.
        rewrite (proj2 (Z.leb_le w _)) by lia. simpl.
        repeat split; simpl; eauto; try lia. intros ? [= <-]. lia.
  - destruct (w <=? dl - lc) eqn:E1; simpl; zbool.
    + exists dl. split; [done|]. split; [lia|]. split; [lia|]. split.
      * intros t Ht. destruct (dl <=? t) eqn:E2; zbool; [lia|done].
      * intros t Ht. rewrite (proj2 (Z.leb_le dl t)) by lia. simpl.
        repeat split; simpl; eauto; try lia. intros ? [= <-]. lia.
    + destruct (dl - lc <? 0) eqn:E3; simpl; zbool; [lia|].
      destruct (w <=? dl - li) eqn:E4; simpl; zbool.
      * exists dl. split; [done|]. split; [lia|]. split; [lia|]. split.
        -- intros t Ht. destruct (dl <=? t) eqn:E2; zbool; [lia|done].
        -- intros t Ht. rewrite (proj2 (Z.leb_le dl t)) by lia. simpl.
           repeat split; simpl; eauto; try lia. intros ? [= <-]. lia.
      * set (t' := dl + Z.min (w - (dl - lc)) (w - (dl - li))).
        assert (Ht' : dl < t' ∧ t' ≤ lc + w ∧ (t' = lc + w ∨ t' = li + w))
          by (subst t'; lia).
        exists t'. split; [done|]. split; [lia|]. split; [lia|]. split.
        -- intros t Ht. destruct (dl <=? t) eqn:E2; zbool; [|done].
           simpl. rewrite (proj2 (Z.leb_gt _ _)) by lia. done.
        -- intros t Ht. rewrite (proj2 (Z.leb_le dl t)) by lia. simpl.
           rewrite (proj2 (Z.leb_le t' t)) by lia.
           assert (Hinv : (w <=? t' - lc) || (t' - lc <? 0) || (w <=? t' - li)
                          = true).
           { destruct Ht' as (_ & _ & [Heq|Heq]).
             - rewrite (proj2 (Z.leb_le w (t' - lc))) by lia. done.
             - rewrite (proj2 (Z.leb_le w (t' - li))) by lia.
               by rewrite orb_true_r. }
           rewrite Hinv. simpl.
           repeat split; simpl; eauto; try lia. intros ? [= <-]. lia.
Qed.

(** The state after the pending timer has been left to run until a time
    before the delivery: nothing has been handed over and the delivery is
    still due at the same time. *)
Lemma advance_before_delivery d now dl lc (a : A) t :
  timer_ok now d →
  timerId d = Some dl →
  lastCallTime d = Some lc →
  lastArgs d = Some a →
  ∀ t', deliveryTime d = Some t' → t < t' →
    deliveryTime (advance d t).1 = Some t' ∧
    timer_ok (Z.max now t) (advance d t).1 ∧
    lastArgs (advance d t).1 = Some a ∧
    lastCallTime (advance d t).1 = Some lc ∧
    wait (advance d t).1 = wait d ∧
    options (advance d t).1 = options d.
Proof.
  destruct d as [w [le mw tr] la ti lc0 li].
  intros (Hw & Htr & Hmw & Hli & Hti) Hdl Hlc Hla t'. simpl in *.
  subst tr ti lc0 la. destruct Hti as (Hnow & lc' & [= <-] & Hlc & Hle).
  unfold deliveryTime, advance, runTimers, timerExpired, shouldInvoke,
    remainingWait, trailingEdge, invokeFunc, timer_ok; simpl.
  destruct Hmw as [->| ->]; simpl.
  - destruct (w <=? dl - lc) eqn:E1; simpl; zbool.
    + intros [= <-] Ht. rewrite (proj2 (Z.leb_gt dl t)) by lia. simpl.
      rewrite (proj2 (Z.leb_le w (dl - lc))) by lia. simpl.
      repeat split; eauto; try lia. eexists; repeat split; eauto; lia.
    + destruct (dl - lc <? 0) eqn:E3; simpl; zbool; [lia|].
      intros [= <-] Ht. destruct (dl <=? t) eqn:E2; zbool; simpl.
      * rewrite (proj2 (Z.leb_gt _ t)) by lia. simpl.
        rewrite (proj2 (Z.leb_le w _)) by lia. simpl.
        repeat split; eauto; try lia; try (f_equal; lia).
        eexists; repeat split; eauto; lia.
      * rewrite (proj2 (Z.leb_gt w (dl - lc))) by lia.
        rewrite (proj2 (Z.ltb_ge (dl - lc) 0)) by lia. simpl.
        repeat split; eauto; try lia. eexists; repeat split; eauto; lia.
  - destruct ((w <=? dl - lc) || (dl - lc <? 0) || (w <=? dl - li)) eqn:E1.
    + intros [= <-] Ht. rewrite (proj2 (Z.leb_gt dl t)) by lia. simpl.
      rewrite E1.
      repeat split; eauto; try lia. eexists; repeat split; eauto; lia.
    + zbool.
      set (T := dl + Z.min (w - (dl - lc)) (w - (dl - li))).
      assert (HT : dl < T ∧ T ≤ lc + w ∧ (T = lc + w ∨ T = li + w))
        by (subst T; lia).
      intros [= <-] Ht. destruct (dl <=? t) eqn:E2; zbool; simpl.
      * fold T. rewrite (proj2 (Z.leb_gt T t)) by lia. simpl.
        assert (Hinv : (w <=? T - lc) || (T - lc <? 0) || (w <=? T - li)
                       = true).
        { destruct HT as (_ & _ & [Heq|Heq]).
          - rewrite (proj2 (Z.leb_le w (T - lc))) by lia. done.
          - rewrite (proj2 (Z.leb_le w (T - li))) by lia.
            by rewrite orb_true_r. }
        rewrite Hinv.
        repeat split; eauto; try lia. eexists; repeat split; eauto; lia.
      * rewrite (proj2 (Z.leb_gt w (dl - lc))) by lia.
        rewrite (proj2 (Z.ltb_ge (dl - lc) 0)) by lia.
        rewrite (proj2 (Z.leb_gt w (dl - li))) by lia. simpl. fold T.
        repeat split; eauto; try lia. eexists; repeat split; eauto; lia.
Qed.

(** Without a pending timer the event loop has nothing to run. *)
Lemma advance_idle d t : timerId d = None → advance d t = (d, []).
Proof. intros H. unfold advance. simpl. by rewrite H. Qed.

(** A call that lodash does not pass on at once only records its arguments
    and its time, and arms the timer if none is pending. *)
Lemma debounced_held d now (a : A) :
  shouldInvoke d now = false →
  debounced d now a
  = (mkDebounced (wait d) (options d) (Some a)
       (Some (default (now + wait d) (timerId d))) (Some now)
       (lastInvokeTime d), None).
Proof.
  intros H. unfold debounced. rewrite H. simpl. by destruct (timerId d).
Qed.

(** With the options of [throttle], a call that lodash passes on is passed on
    at once and with its own arguments. *)
Lemma throttled_invoked d now (a : A) :
  leading (options d) = true →
  is_Some (maxWait (options d)) →
  shouldInvoke d now = true →
  (debounced d now a).2 = Some a.
Proof.
  intros Hle Hmw H. unfold debounced, leadingEdge, invokeFunc. rewrite H.
  simpl. destruct (timerId d); simpl.
  - by rewrite bool_decide_eq_true_2.
  - by rewrite Hle.
Qed.

(** The event loop keeps the closure state well formed. *)
Lemma timer_ok_advance d now t :
  timer_ok now d → now ≤ t →
  timer_ok t (advance d t).1 ∧
  wait (advance d t).1 = wait d ∧
  options (advance d t).1 = options d.
Proof.
  destruct d as [w [le mw tr] la ti lc0 li].
  intros (Hw & Htr & Hmw & Hli & Hti) Hnow. simpl in *. subst tr.
  destruct ti as [dl|].
  2:{ rewrite advance_idle by done. destruct Hti as [-> Hlc].
      repeat split; simpl; eauto; try lia. intros lc ->.
      specialize (Hlc lc eq_refl). lia. }
  destruct Hti as (Hdl & lc & -> & Hlc & Hle).
  unfold advance, runTimers, timerExpired, shouldInvoke, remainingWait,
    trailingEdge, invokeFunc, timer_ok; simpl.
  destruct (dl <=? t) eqn:E2; zbool; simpl.
  2:{ repeat split; eauto; try lia. eexists; repeat split; eauto; lia. }
  destruct Hmw as [->| ->]; simpl.
  - destruct (w <=? dl - lc) eqn:E1; simpl; zbool.
    + destruct la; simpl; repeat split; eauto; try lia;
        intros ? [= <-]; lia.
    + rewrite (proj2 (Z.ltb_ge (dl - lc) 0)) by lia. simpl.
      destruct (dl + (w - (dl - lc)) <=? t) eqn:E3; zbool; simpl.
      * rewrite (proj2 (Z.leb_le w _)) by lia. simpl.
        destruct la; simpl; repeat split; eauto; try lia;
          intros ? [= <-]; lia.
      * repeat split; eauto; try lia. eexists; repeat split; eauto; lia.
  - destruct ((w <=? dl - lc) || (dl - lc <? 0) || (w <=? dl - li)) eqn:E1.
    + destruct la; simpl; repeat split; eauto; try lia;
        intros ? [= <-]; lia.
    + zbool. simpl.
      set (T := dl + Z.min (w - (dl - lc)) (w - (dl - li))).
      assert (HT : dl < T ∧ T ≤ lc + w ∧ (T = lc + w ∨ T = li + w))
        by (subst T; lia).
      destruct (T <=? t) eqn:E3; zbool; simpl.
      * assert (Hinv : (w <=? T - lc) || (T - lc <? 0) || (w <=? T - li)
                       = true).
        { destruct HT as (_ & _ & [Heq|Heq]).
          - rewrite (proj2 (Z.leb_le w (T - lc))) by lia. done.
          - rewrite (proj2 (Z.leb_le w (T - li))) by lia.
            by rewrite orb_true_r. }
        rewrite Hinv.
        destruct la; simpl; repeat split; eauto; try lia;
          intros ? [= <-]; lia.
      * repeat split; eauto; try lia. eexists; repeat split; eauto; lia.
Qed.

(** Timers that are not yet due are left alone. *)
Lemma advance_not_due d now t :
  timer_ok now d → t ≤ now → advance d t = (d, []).
Proof.
  intros (_ & _ & _ & _ & Hti) Ht. unfold advance. simpl.
  destruct (timerId d) as [dl|]; [|done]. destruct Hti as [Hdl _].
  by rewrite (proj2 (Z.leb_gt dl t)) by lia.
Qed.

End LodashFacts.
(** ** Outbound typing status *)

Section TypingThrottle.
Implicit Types (w : World) (conversationId t : Z).

Lemma typingCalls_issue e w :
  typingCalls (issue e w)
  = typingCalls w ++
    match e with
    | UpdateTypingStatus conversationId => [(clock w, conversationId)]
    | _ => []
    end.
Proof.
  unfold typingCalls, issue. simpl. rewrite omap_app.
  destruct e; simpl; by rewrite ?app_nil_r.
Qed.

(** The store-level timer loop is lodash's loop on the throttle's closure:
    same closure afterwards, and the typing calls issued are the invocations
    with their times. *)
Lemma runThrottleTimer_spec n t w :
  typingThrottle (store (Store.runThrottleTimer n t w))
    = (Lodash.runTimers n (typingThrottle (store w)) t).1 ∧
  typingCalls (Store.runThrottleTimer n t w)
    = typingCalls w ++ (Lodash.runTimers n (typingThrottle (store w)) t).2 ∧
  clock (Store.runThrottleTimer n t w) ≤ Z.max (clock w) t.
Proof.
  revert w. induction n as [|n IH]; intros w; simpl.
  { rewrite app_nil_r. repeat split; lia. }
  destruct (Lodash.timerId (typingThrottle (store w))) as [dl|] eqn:Hdl;
    [|rewrite app_nil_r; repeat split; lia].
  destruct (dl <=? t) eqn:Hdue; [|rewrite app_nil_r; repeat split; lia].
  apply Z.leb_le in Hdue.
  destruct (Lodash.timerExpired (typingThrottle (store w)) dl)
    as [th inv] eqn:Hexp.
  match goal with
  | |- context [Store.runThrottleTimer n t ?w2] =>
      destruct (IH w2) as (IH1 & IH2 & IH3);
      assert (Hth : typingThrottle (store w2) = th) by (by destruct inv);
      assert (Hck : clock w2 = dl) by (by destruct inv);
      assert (Hcalls : typingCalls w2 =
                       typingCalls w ++
                       match inv with Some a => [(dl, a)] | None => [] end)
  end.
  { destruct inv; [|by rewrite app_nil_r].
    unfold Store.updateTypingStatus_method. by rewrite typingCalls_issue. }
  rewrite Hth in IH1, IH2. rewrite Hck in IH3. rewrite Hcalls in IH2.
  destruct (Lodash.runTimers n th t) as [d2 l]. simpl in *.
  split; [done|]. split; [|lia].
  rewrite IH2, <- app_assoc. by destruct inv.
Qed.

Lemma tick_spec t w :
  typingThrottle (store (Store.tick t w))
    = (Lodash.advance (typingThrottle (store w)) t).1 ∧
  typingCalls (Store.tick t w)
    = typingCalls w ++ (Lodash.advance (typingThrottle (store w)) t).2 ∧
  (clock w ≤ t → clock (Store.tick t w) = t).
Proof.
  destruct (runThrottleTimer_spec 2 t w) as (H1 & H2 & H3).
  unfold Store.tick. split; [exact H1|]. split; [exact H2|]. intros Hle.
  change (Z.max (clock (Store.runThrottleTimer 2 t w)) t = t). lia.
Qed.

Lemma throttle_ok_constructor : throttle_ok (mkWorld Store.constructor 0 []).
Proof.
  split; [|done]. apply (timer_ok_fresh 0 5000); simpl; auto; lia.
Qed.

Lemma runThrottleTimer_not_due n t w :
  Lodash.timer_ok (clock w) (typingThrottle (store w)) → t ≤ clock w →
  Store.runThrottleTimer n t w = w.
Proof.
  intros (_ & _ & _ & _ & Hti) Ht. destruct n as [|n]; simpl; [done|].
  destruct (Lodash.timerId (typingThrottle (store w))) as [dl|]; [|done].
  destruct Hti as [Hdl _]. by rewrite (proj2 (Z.leb_gt dl t)) by lia.
Qed.

Lemma throttle_ok_tick t w : throttle_ok w → throttle_ok (Store.tick t w).
Proof.
  intros (Hok & Hw & Ho). destruct (tick_spec t w) as (Hth & _ & Hck).
  unfold throttle_ok. rewrite Hth.
  destruct (decide (clock w ≤ t)) as [Hle|Hgt].
  - rewrite (Hck Hle).
    destruct (timer_ok_advance _ _ t Hok Hle) as (H1 & H2 & H3).
    split; [done|]. split; congruence.
  - assert (Hidle : Lodash.advance (typingThrottle (store w)) t
                    = (typingThrottle (store w), [])).
    { eapply advance_not_due; [exact Hok|lia]. }
    assert (Hclock : clock (Store.tick t w) = clock w).
    { unfold Store.tick. rewrite runThrottleTimer_not_due by (done || lia).
      change (Z.max (clock w) t = clock w). lia. }
    rewrite Hidle, Hclock. split; [exact Hok|]. split; [exact Hw|exact Ho].
Qed.

Lemma updateTypingStatus_spec conversationId w :
  typingThrottle (store (Store.updateTypingStatus conversationId w))
    = (Lodash.debounced (typingThrottle (store w)) (clock w) conversationId).1 ∧
  clock (Store.updateTypingStatus conversationId w) = clock w ∧
  typingCalls (Store.updateTypingStatus conversationId w)
    = typingCalls w ++
      match (Lodash.debounced (typingThrottle (store w)) (clock w)
               conversationId).2 with
      | Some a => [(clock w, a)]
      | None => []
      end.
Proof.
  unfold Store.updateTypingStatus.
  destruct (Lodash.debounced _ _ _) as [th [a|]]; simpl.
  - unfold Store.updateTypingStatus_method. by rewrite typingCalls_issue.
  - by rewrite app_nil_r.
Qed.

Lemma debounced_keeps {A} (d : Lodash.Debounced A) now a :
  Lodash.wait (Lodash.debounced d now a).1 = Lodash.wait d ∧
  Lodash.options (Lodash.debounced d now a).1 = Lodash.options d.
Proof.
  unfold Lodash.debounced, Lodash.leadingEdge, Lodash.invokeFunc.
  repeat case_match; done.
Qed.

Lemma throttle_ok_updateTypingStatus conversationId w :
  throttle_ok w → throttle_ok (Store.updateTypingStatus conversationId w).
Proof.
  intros (Hok & Hw & Ho).
  destruct (updateTypingStatus_spec conversationId w) as (Hth & Hck & _).
  unfold throttle_ok. rewrite Hth, Hck.
  destruct (timer_ok_debounced _ _ conversationId Hok) as (H1 & _).
  destruct (debounced_keeps (typingThrottle (store w)) (clock w)
              conversationId) as (H2 & H3).
  split; [done|]. split; congruence.
Qed.

(** Every store that [typingScenario] runs through has a well-formed
    throttle. *)
Lemma throttle_ok_scenario calls until :
  throttle_ok (typingScenario calls until).
Proof.
  unfold typingScenario. apply throttle_ok_tick.
  generalize throttle_ok_constructor.
  generalize (mkWorld Store.constructor 0 []).
  induction calls as [|call calls IH]; intros w Hw; simpl; [done|].
  apply IH. by apply throttle_ok_updateTypingStatus, throttle_ok_tick.
Qed.

(** C7 as stated fails.  A call for conversation 2 made one second after a
    call for conversation 1 is not issued then, although conversation 2 had
    no call before (made alone it is issued at once): the limiter is one for
    the whole store.  It is not dropped either: it is issued when the window
    closes, at 6000. *)
Lemma updateTypingStatus_not_per_conversation :
  typingCalls (typingScenario [(1000, 1); (2000, 2)] 20000)
    = [(1000, 1); (6000, 2)] ∧
  typingCalls (typingScenario [(2000, 2)] 20000) = [(2000, 2)].
Proof. split; vm_compute; reflexivity. Qed.

(** The limiter's steps inside one window. *)
Lemma throttle_leading (d : Lodash.Debounced Z) T a :
  Lodash.wait d = 5000 →
  Lodash.options d = Lodash.options (Lodash.throttle (A:=Z) 5000) →
  Lodash.timerId d = None →
  (∀ lc, Lodash.lastCallTime d = Some lc → lc + 5000 ≤ T) →
  Lodash.debounced d T a
  = (Lodash.mkDebounced 5000 (Lodash.options (Lodash.throttle (A:=Z) 5000))
       None (Some (T + 5000)) (Some T) T, Some a).
Proof.
  destruct d as [wt o la ti lc li]. simpl. intros -> -> -> Hlc.
  unfold Lodash.debounced, Lodash.shouldInvoke. simpl.
  destruct lc as [lc|]; [|done].
  specialize (Hlc lc eq_refl).
  by rewrite (proj2 (Z.leb_le 5000 (T - lc))) by lia.
Qed.

Lemma throttle_held (d : Lodash.Debounced Z) T lc t a :
  Lodash.wait d = 5000 →
  Lodash.options d = Lodash.options (Lodash.throttle (A:=Z) 5000) →
  Lodash.timerId d = Some (T + 5000) →
  Lodash.lastInvokeTime d = T →
  Lodash.lastCallTime d = Some lc →
  T ≤ lc → lc ≤ t → t < T + 5000 →
  Lodash.debounced d t a
  = (Lodash.mkDebounced 5000 (Lodash.options (Lodash.throttle (A:=Z) 5000))
       (Some a) (Some (T + 5000)) (Some t) T, None).
Proof.
  intros Hw Ho Hti Hli Hlc H1 H2 H3.
  rewrite debounced_held.
  - by rewrite Hw, Ho, Hti, Hli.
  - unfold Lodash.shouldInvoke. rewrite Hlc, Hw, Ho, Hli. simpl.
    rewrite (proj2 (Z.leb_gt 5000 (t - lc))) by lia.
    rewrite (proj2 (Z.ltb_ge (t - lc) 0)) by lia.
    by rewrite (proj2 (Z.leb_gt 5000 (t - T))) by lia.
Qed.

Lemma throttle_not_due (d : Lodash.Debounced Z) T t :
  Lodash.timerId d = Some (T + 5000) → t < T + 5000 →
  Lodash.advance d t = (d, []).
Proof.
  intros Hti Ht. unfold Lodash.advance. simpl. rewrite Hti.
  by rewrite (proj2 (Z.leb_gt (T + 5000) t)) by lia.
Qed.

Lemma throttle_expiry (d : Lodash.Debounced Z) T lc t :
  Lodash.wait d = 5000 →
  Lodash.options d = Lodash.options (Lodash.throttle (A:=Z) 5000) →
  Lodash.timerId d = Some (T + 5000) →
  Lodash.lastInvokeTime d = T →
  Lodash.lastCallTime d = Some lc →
  T + 5000 ≤ t →
  (Lodash.advance d t).2
  = match Lodash.lastArgs d with
    | Some a => [(T + 5000, a)]
    | None => []
    end.
Proof.
  destruct d as [wt o la ti lc' li]. simpl. intros -> -> -> -> -> Ht.
  unfold Lodash.advance. simpl.
  rewrite (proj2 (Z.leb_le (T + 5000) t)) by lia.
  unfold Lodash.timerExpired, Lodash.shouldInvoke. simpl.
  rewrite (proj2 (Z.leb_le 5000 (T + 5000 - T))) by lia.
  rewrite !orb_true_r. unfold Lodash.trailingEdge. simpl.
  by destruct la.
Qed.

(** The first call of a window: it is passed on at once. *)
Lemma window_opens w T first :
  throttle_ok w → clock w ≤ T → throttleIdle T w →
  let w1 := Store.updateTypingStatus first (Store.tick T w) in
  typingCalls w1 = typingCalls w ++ [(T, first)] ∧
  windowOpen T None w1 ∧ clock w1 = T.
Proof.
  intros (_ & Hw & Ho) Hck (Hti & Hidle) w1.
  destruct (tick_spec T w) as (Hth & Hcalls & Hclock).
  rewrite advance_idle in Hth, Hcalls by done. cbn [fst snd] in Hth, Hcalls.
  rewrite app_nil_r in Hcalls. specialize (Hclock Hck).
  destruct (updateTypingStatus_spec first (Store.tick T w))
    as (Hth1 & Hck1 & Hcalls1).
  fold w1 in Hth1, Hck1, Hcalls1.
  rewrite Hth, Hclock in Hth1, Hcalls1. rewrite Hclock in Hck1.
  pose proof (throttle_leading (typingThrottle (store w)) T first Hw Ho Hti
                (λ lc Hlc, proj1 (Hidle lc Hlc))) as Hlead.
  rewrite Hlead in Hth1, Hcalls1.
  cbn [fst snd] in Hth1, Hcalls1. rewrite Hcalls in Hcalls1.
  split; [done|]. split; [|done].
  unfold windowOpen. rewrite Hth1, Hck1. simpl.
  repeat split; try done; try lia. exists T. split; [done|lia].
Qed.

(** A call inside the window: nothing is issued, the call is kept. *)
Lemma window_holds w T held t conversationId :
  windowOpen T held w → clock w ≤ t → t < T + 5000 →
  let w1 := Store.updateTypingStatus conversationId (Store.tick t w) in
  typingCalls w1 = typingCalls w ∧
  windowOpen T (Some conversationId) w1 ∧ clock w1 = t.
Proof.
  intros (Hw & Ho & Hti & Hli & _ & (lc & Hlc & H1 & H2) & _) Hck Ht w1.
  destruct (tick_spec t w) as (Hth & Hcalls & Hclock).
  rewrite (throttle_not_due _ T t) in Hth, Hcalls by done.
  cbn [fst snd] in Hth, Hcalls. rewrite app_nil_r in Hcalls.
  specialize (Hclock Hck).
  destruct (updateTypingStatus_spec conversationId (Store.tick t w))
    as (Hth1 & Hck1 & Hcalls1).
  fold w1 in Hth1, Hck1, Hcalls1.
  rewrite Hth, Hclock in Hth1, Hcalls1. rewrite Hclock in Hck1.
  pose proof (throttle_held (typingThrottle (store w)) T lc t conversationId
                Hw Ho Hti Hli Hlc H1 ltac:(lia) Ht) as Hheld.
  rewrite Hheld in Hth1, Hcalls1.
  cbn [fst snd] in Hth1, Hcalls1. rewrite app_nil_r, Hcalls in Hcalls1.
  split; [done|]. split; [|done].
  unfold windowOpen. rewrite Hth1, Hck1. simpl.
  repeat split; try done. exists t. split; [done|lia].
Qed.

(** The calls inside the window, one after the other. *)
Lemma window_run T calls : ∀ w held,
  windowOpen T held w → inWindow (clock w) (T + 5000) calls →
  typingCalls (typingRun calls w) = typingCalls w ∧
  windowOpen T
    (match last calls with Some call => Some call.2 | None => held end)
    (typingRun calls w).
Proof.
  induction calls as [|call calls IH]; intros w held Hopen Hin; [done|].
  destruct Hin as (H1 & H2 & Hrest).
  destruct (window_holds w T held call.1 call.2 Hopen H1 H2)
    as (Hcalls & Hopen1 & Hck1).
  simpl. rewrite <- Hck1 in Hrest.
  destruct (IH _ _ Hopen1 Hrest) as (Hcalls' & Hopen').
  split; [by rewrite Hcalls', Hcalls|].
  rewrite last_cons. by destruct (last calls).
Qed.

(** C7, amended.  The calls of [updateTypingStatus] pass through one limiter
    for the whole store, whatever the conversation.  A call made while the
    limiter is idle is issued on the socket at once and opens a window of
    5000 ms.  The calls made inside the window, for this or another
    conversation, issue nothing when they are made; the last of them is kept
    and is issued when the window closes, and if there was none nothing more
    is issued. *)
Theorem updateTypingStatus_one_window w T first calls :
  throttle_ok w → clock w ≤ T → throttleIdle T w →
  inWindow T (T + 5000) calls →
  let w1 := typingRun ((T, first) :: calls) w in
  typingCalls w1 = typingCalls w ++ [(T, first)] ∧
  (∀ t, t < T + 5000 →
        typingCalls (Store.tick t w1) = typingCalls w ++ [(T, first)]) ∧
  (∀ t, T + 5000 ≤ t →
        typingCalls (Store.tick t w1)
        = typingCalls w ++
          (T, first) ::
          match last calls with
          | Some call => [(T + 5000, call.2)]
          | None => []
          end).
Proof.
  intros Hok Hck Hidle Hin w1.
  destruct (window_opens w T first Hok Hck Hidle) as (Hfirst & Hopen & Hck0).
  rewrite <- Hck0 in Hin at 1.
  destruct (window_run T calls _ None Hopen Hin) as (Hcalls & Hopen1).
  change (typingRun calls
            (Store.updateTypingStatus first (Store.tick T w))) with w1
    in Hcalls, Hopen1.
  rewrite Hfirst in Hcalls. split; [exact Hcalls|].
  destruct Hopen1 as (Hw & Ho & Hti & Hli & Hla & (lc & Hlc & _) & _).
  split; intros t Ht; destruct (tick_spec t w1) as (_ & -> & _);
    rewrite Hcalls.
  - rewrite (throttle_not_due _ T t) by done. simpl. by rewrite app_nil_r.
  - rewrite (throttle_expiry _ T lc t) by done. rewrite Hla.
    rewrite <- app_assoc. simpl. by destruct (last calls).
Qed.

End TypingThrottle.

Lemma updateTypingStatus_one_window_witness :
  throttleIdle 1000 (mkWorld Store.constructor 0 []) ∧
  inWindow 1000 6000 [(2000, 2); (3000, 1)] ∧
  typingCalls
    (Store.tick 20000
       (typingRun [(1000, 1); (2000, 2); (3000, 1)]
          (mkWorld Store.constructor 0 [])))
  = [(1000, 1); (6000, 1)].
Proof.
  assert (Hidle : throttleIdle 1000 (mkWorld Store.constructor 0 [])).
  { split; [reflexivity|]. intros lc Hlc. discriminate Hlc. }
  assert (Hin : inWindow 1000 (1000 + 5000) [(2000, 2); (3000, 1)]).
  { simpl. lia. }
  split; [exact Hidle|]. split; [exact Hin|].
  destruct (updateTypingStatus_one_window (mkWorld Store.constructor 0 [])
              1000 1 [(2000, 2); (3000, 1)] throttle_ok_constructor
              ltac:(simpl; lia) Hidle Hin)
    as (_ & _ & Hclosed).
  apply (Hclosed 20000). lia.
Defined.

(** ** Inbound typing status *)

Section TypingPush.
Implicit Types (w : World) (c : Conversation) (k t T : Z).

(** A call of a function wrapped by [debounce(f, wait)]: nothing is invoked
    at once, and the invocation becomes due [wait] after this call. *)
Lemma debounce_call {A} (d : Lodash.Debounced A) now (a : A) :
  Lodash.timer_ok now d →
  Lodash.leading (Lodash.options d) = false →
  Lodash.maxWait (Lodash.options d) = None →
  (Lodash.debounced d now a).2 = None ∧
  Lodash.lastArgs (Lodash.debounced d now a).1 = Some a ∧
  Lodash.deliveryTime (Lodash.debounced d now a).1
    = Some (now + Lodash.wait d).
Proof.
  destruct d as [w [le mw tr] la ti lc0 li].
  intros (Hw & Htr & _ & Hli & Hti) Hle Hmw. simpl in *. subst le mw tr.
  unfold Lodash.debounced, Lodash.shouldInvoke, Lodash.leadingEdge,
    Lodash.deliveryTime, Lodash.remainingWait; simpl.
  destruct ti as [dl|]; simpl.
  - destruct Hti as (Hdl & lc & -> & Hlc & Hdle).
    rewrite (proj2 (Z.leb_gt w (now - lc))) by lia.
    rewrite (proj2 (Z.ltb_ge (now - lc) 0)) by lia. simpl.
    unfold Lodash.shouldInvoke; simpl.
    split; [done|]. split; [done|].
    destruct (w <=? dl - now) eqn:E; zbool; simpl.
    + f_equal. lia.
    + rewrite (proj2 (Z.ltb_ge (dl - now) 0)) by lia. simpl. f_equal. lia.
  - destruct Hti as [-> Hlc].
    assert (Hdel : (if (w <=? now + w - now) || (now + w - now <? 0) || false
                    then now + w else now + w + (w - (now + w - now)))
                   = now + w).
    { rewrite (proj2 (Z.leb_le w (now + w - now))) by lia. done. }
    destruct lc0 as [lc|]; simpl.
    + destruct ((w <=? now - lc) || (now - lc <? 0) || false); simpl;
        unfold Lodash.shouldInvoke; simpl; by rewrite Hdel.
    + unfold Lodash.shouldInvoke; simpl. by rewrite Hdel.
Qed.

Lemma runTimer_pending_before T c t :
  quietPending T c → t < T →
  quietPending T (ConversationModel.runTimer t c).1 ∧
  (ConversationModel.runTimer t c).2 = [].
Proof.
  intros (Hty & Hla & Hdel & now & Hnow & Hok & Hw & Ho) Ht.
  assert (Hti : ∃ dl, Lodash.timerId (c_typingTimer c) = Some dl).
  { unfold Lodash.deliveryTime in Hdel.
    destruct (Lodash.timerId (c_typingTimer c)); [eauto|done]. }
  destruct Hti as [dl Hdl].
  assert (Hlc : ∃ lc, Lodash.lastCallTime (c_typingTimer c) = Some lc).
  { destruct Hok as (_ & _ & _ & _ & Hti). rewrite Hdl in Hti.
    destruct Hti as (_ & lc & ? & _). eauto. }
  destruct Hlc as [lc Hlc].
  destruct (advance_pending _ now dl lc tt Hok Hdl Hlc Hla)
    as (t' & Hdel' & _ & _ & Hbefore & _).
  assert (t' = T) as -> by congruence.
  destruct (advance_before_delivery _ now dl lc tt t Hok Hdl Hlc Hla T Hdel Ht)
    as (H1 & H2 & H3 & H4 & H5 & H6).
  specialize (Hbefore t Ht).
  unfold ConversationModel.runTimer.
  destruct (Lodash.advance (c_typingTimer c) t) as [timer invs].
  simpl in *. subst invs. simpl. split; [|done].
  split; [done|]. split; [done|]. split; [done|].
  exists (Z.max now t). split; [lia|]. split; [done|]. simpl.
  split; congruence.
Qed.

Lemma runTimer_pending_after T c t :
  quietPending T c → T ≤ t →
  quietDone (ConversationModel.runTimer t c).1 ∧
  (ConversationModel.runTimer t c).2 = [T].
Proof.
  intros (Hty & Hla & Hdel & now & Hnow & Hok & Hw & Ho) Ht.
  assert (Hti : ∃ dl, Lodash.timerId (c_typingTimer c) = Some dl).
  { unfold Lodash.deliveryTime in Hdel.
    destruct (Lodash.timerId (c_typingTimer c)); [eauto|done]. }
  destruct Hti as [dl Hdl].
  assert (Hlc : ∃ lc, Lodash.lastCallTime (c_typingTimer c) = Some lc).
  { destruct Hok as (_ & _ & _ & _ & Hti). rewrite Hdl in Hti.
    destruct Hti as (_ & lc & ? & _). eauto. }
  destruct Hlc as [lc Hlc].
  destruct (advance_pending _ now dl lc tt Hok Hdl Hlc Hla)
    as (t' & Hdel' & _ & _ & _ & Hafter).
  assert (t' = T) as -> by congruence.
  destruct (Hafter t Ht) as (Hinvs & Hnone & _).
  unfold ConversationModel.runTimer.
  destruct (Lodash.advance (c_typingTimer c) t) as [timer invs].
  simpl in *. subst invs. simpl. split; [|done].
  split; [|done]. unfold typing in *. simpl.
  destruct (c_status c); [done|discriminate Hty].
Qed.

Lemma runTimer_done c t :
  quietDone c → quietDone (ConversationModel.runTimer t c).1.
Proof.
  intros [Hty Hti]. unfold ConversationModel.runTimer.
  rewrite advance_idle by done. simpl. by split.
Qed.

(** A typing push on a conversation that has a status. *)
Lemma updateStatus_typing now status c st :
  c_status c = Some st →
  quietTimer_ok now c →
  ∃ c1 st1,
    ConversationModel.updateStatus now status true c = Return c1 ∧
    c_status c1 = Some st1 ∧ st_online st1 = true ∧ st_typing st1 = true ∧
    quietPending (now + 6000) c1.
Proof.
  intros Hst (Hok & Hw & Ho).
  unfold ConversationModel.updateStatus. rewrite Hst. simpl.
  destruct (debounce_call (c_typingTimer c) now tt Hok)
    as (Hinv & Hla & Hdel); [by rewrite Ho..|].
  destruct (timer_ok_debounced _ now tt Hok) as (Hok1 & _).
  destruct (debounced_keeps (c_typingTimer c) now tt) as (Hw1 & Ho1).
  destruct (Lodash.debounced (c_typingTimer c) now tt) as [timer inv].
  simpl in *. subst inv. eexists _, _. split; [reflexivity|]. simpl.
  do 3 (split; [reflexivity|]).
  unfold quietPending, quietTimer_ok, typing. simpl.
  split; [done|]. split; [done|]. split; [by rewrite Hdel, Hw|].
  exists now. split; [lia|]. split; [done|]. split; congruence.
Qed.

(** The quiet timer stays well formed: it is when the conversation is built,
    after a status push, and after the event loop has run. *)
Lemma quietTimer_ok_constructor now data :
  0 ≤ now → quietTimer_ok now (ConversationModel.constructor data).
Proof.
  intros Hnow. split; [|done].
  apply (timer_ok_fresh now 6000); simpl; auto; lia.
Qed.

Lemma quietTimer_ok_updateStatus now status typing c c1 :
  quietTimer_ok now c →
  ConversationModel.updateStatus now status typing c = Return c1 →
  quietTimer_ok now c1.
Proof.
  intros (Hok & Hw & Ho). unfold ConversationModel.updateStatus.
  destruct (c_status c) as [st|]; [|done].
  destruct typing; simpl; [|by intros [= <-]].
  destruct (timer_ok_debounced _ now tt Hok) as (Hok1 & _).
  destruct (debounced_keeps (c_typingTimer c) now tt) as (Hw1 & Ho1).
  destruct (Lodash.debounced (c_typingTimer c) now tt) as [timer inv].
  simpl in *. intros [= <-].
  destruct inv; (split; [done|]); simpl; split; congruence.
Qed.

Lemma quietTimer_ok_runTimer now t c :
  quietTimer_ok now c → now ≤ t →
  quietTimer_ok t (ConversationModel.runTimer t c).1.
Proof.
  intros (Hok & Hw & Ho) Ht.
  destruct (timer_ok_advance _ now t Hok Ht) as (H1 & H2 & H3).
  unfold ConversationModel.runTimer.
  destruct (Lodash.advance (c_typingTimer c) t) as [timer invs].
  simpl in *.
  assert (Hfold : ∀ c0,
            c_typingTimer
              (fold_left (λ c' _, ConversationModel.updateTypingStatusLazily c')
                 invs c0) = c_typingTimer c0).
  { induction invs as [|i invs IH]; intros c0; simpl; [done|].
    by rewrite IH. }
  unfold quietTimer_ok. rewrite Hfold. simpl. split; [done|].
  split; congruence.
Qed.

(** What the event loop does to one loaded conversation: its own timer
    runs, possibly in several steps. *)
Lemma runThrottleTimer_conversation (P : Conversation → Prop) n t w k c :
  conversations (store w) !! k = Some c → P c →
  (∀ c' dl, dl ≤ t → P c' → P (ConversationModel.runTimer dl c').1) →
  ∃ c', P c' ∧
        conversations (store (Store.runThrottleTimer n t w)) !! k = Some c'.
Proof.
  intros Hc HP Hstep. revert w c Hc HP.
  induction n as [|n IH]; intros w c Hc HP; simpl; [eauto|].
  destruct (Lodash.timerId (typingThrottle (store w))) as [dl|]; [|eauto].
  destruct (dl <=? t) eqn:Hdue; [|eauto]. apply Z.leb_le in Hdue.
  destruct (Lodash.timerExpired (typingThrottle (store w)) dl) as [th inv].
  eapply (IH _ (ConversationModel.runTimer dl c).1); [|by apply Hstep].
  destruct inv; simpl; by rewrite lookup_fmap, Hc.
Qed.

Lemma tick_conversation (P : Conversation → Prop) t w k c :
  conversations (store w) !! k = Some c → P c →
  (∀ c' dl, dl ≤ t → P c' → P (ConversationModel.runTimer dl c').1) →
  ∃ c', P c' ∧
        conversations (store (Store.tick t w)) !! k
        = Some (ConversationModel.runTimer t c').1.
Proof.
  intros Hc HP Hstep.
  destruct (runThrottleTimer_conversation P 2 t w k c Hc HP Hstep)
    as (c' & HP' & Hc').
  exists c'. split; [done|]. unfold Store.tick.
  change (conversations (store (set_clock ?a (update ?f ?v))))
    with (conversations (f (store v))).
  unfold Store.runConversationTimers, set_conversations. cbn [conversations].
  by rewrite lookup_fmap, Hc'.
Qed.

(** The event loop treats each loaded conversation on its own: what becomes
    of the entry for [k] depends on that entry and on the store's throttle
    only. *)
Lemma runThrottleTimer_local n t w w' k :
  typingThrottle (store w) = typingThrottle (store w') →
  conversations (store w) !! k = conversations (store w') !! k →
  typingThrottle (store (Store.runThrottleTimer n t w))
    = typingThrottle (store (Store.runThrottleTimer n t w')) ∧
  conversations (store (Store.runThrottleTimer n t w)) !! k
    = conversations (store (Store.runThrottleTimer n t w')) !! k.
Proof.
  revert w w'. induction n as [|n IH]; intros w w' Hth Hk; simpl; [done|].
  rewrite <- Hth.
  destruct (Lodash.timerId (typingThrottle (store w))) as [dl|]; [|done].
  destruct (dl <=? t); [|done].
  destruct (Lodash.timerExpired (typingThrottle (store w)) dl) as [th inv].
  apply IH; destruct inv; simpl; try done; by rewrite !lookup_fmap, Hk.
Qed.

Lemma tick_local t w w' k :
  typingThrottle (store w) = typingThrottle (store w') →
  conversations (store w) !! k = conversations (store w') !! k →
  conversations (store (Store.tick t w)) !! k
  = conversations (store (Store.tick t w')) !! k.
Proof.
  intros Hth Hk.
  destruct (runThrottleTimer_local 2 t w w' k Hth Hk) as [_ H].
  unfold Store.tick.
  change (conversations (store (set_clock ?a (update ?f ?v))))
    with (conversations (f (store v))).
  unfold Store.runConversationTimers, set_conversations. cbn [conversations].
  by rewrite !lookup_fmap, H.
Qed.

(** C8. A typing push for the user of a loaded conversation sets [online]
    and [typing] on its status and makes its quiet timer due 6000 ms later.
    If no further push arrives, the flag is still set whenever the event loop
    has run to a time before that, it is cleared whenever the loop has run to
    that time or beyond, and [updateTypingStatusLazily] has then run exactly
    once, at that time.  What becomes of the conversation does not depend on
    any other loaded conversation or its timer. *)
Theorem typing_push_quiet_timer status w k c st :
  conversations (store w) !! k = Some c →
  c_status c = Some st →
  st_userId st = p_userId status →
  quietTimer_ok (clock w) c →
  let w1 := world_of (Store.updateUserStatus status true w) in
  ∃ c1 st1,
    conversations (store w1) !! k = Some c1 ∧
    c_status c1 = Some st1 ∧ st_online st1 = true ∧ st_typing st1 = true ∧
    Lodash.deliveryTime (c_typingTimer c1) = Some (clock w + 6000) ∧
    (∀ t, t < clock w + 6000 →
          typing <$> conversations (store (Store.tick t w1)) !! k
            = Some (Some true) ∧
          (ConversationModel.runTimer t c1).2 = []) ∧
    (∀ t, clock w + 6000 ≤ t →
          typing <$> conversations (store (Store.tick t w1)) !! k
            = Some (Some false) ∧
          (ConversationModel.runTimer t c1).2 = [clock w + 6000]) ∧
    (∀ k' other t, k' ≠ k →
          conversations
            (store (Store.tick t
                      (update (set_conversations (<[k' := other]>)) w1))) !! k
          = conversations (store (Store.tick t w1)) !! k).
Proof.
  intros Hc Hst Huser Hok w1.
  destruct (updateStatus_typing (clock w) status c st Hst Hok)
    as (c1 & st1 & Hpush & Hst1 & Hon & Hty & Hpending).
  assert (Hw1 : conversations (store w1) !! k = Some c1).
  { subst w1. unfold Store.updateUserStatus.
    match goal with
    | |- context [update (set_conversations (fmap ?f)) w] =>
        set (each := f);
        assert (Heach : each c = c1);
        [subst each; simpl; rewrite Hst, Hpush;
         by rewrite bool_decide_eq_false_2 by (intros H; by apply H)|]
    end.
    destruct (messengerInfo _); simpl; by rewrite lookup_fmap, Hc, <- Heach. }
  exists c1, st1. do 4 (split; [done|]).
  split; [by destruct Hpending as (_ & _ & ? & _)|].
  split; [|split].
  - intros t Ht.
    destruct (tick_conversation (quietPending (clock w + 6000)) t w1 k c1
                Hw1 Hpending) as (c' & Hc' & ->).
    { intros c' dl Hdl Hc'. apply runTimer_pending_before; [done|lia]. }
    destruct (runTimer_pending_before _ c' t Hc' Ht) as [(Hty' & _) _].
    destruct (runTimer_pending_before _ c1 t Hpending Ht) as [_ Hnone].
    simpl. by rewrite Hty'.
  - intros t Ht.
    destruct (tick_conversation
                (λ c', quietPending (clock w + 6000) c' ∨ quietDone c')
                t w1 k c1 Hw1 (or_introl Hpending)) as (c' & Hc' & ->).
    { intros c' dl _ [Hc'|Hc'].
      - destruct (decide (dl < clock w + 6000)).
        + left. by apply runTimer_pending_before.
        + right. eapply proj1, runTimer_pending_after; [done|lia].
      - right. by apply runTimer_done. }
    destruct (runTimer_pending_after _ c1 t Hpending Ht) as [_ Honce].
    split; [|done]. simpl.
    destruct Hc' as [Hc'|Hc'].
    + destruct (runTimer_pending_after _ c' t Hc' Ht) as [[-> _] _]. done.
    + destruct (runTimer_done c' t Hc') as [-> _]. done.
  - intros k' other t Hne. apply tick_local; [done|].
    simpl. by rewrite lookup_insert_ne.
Qed.

Lemma typing_push_quiet_timer_witness :
  conversations (store two_conversations) !! 5 = Some (conversation 5 []) ∧
  quietTimer_ok (clock two_conversations) (conversation 5 []) ∧
  ∃ c1,
    conversations
      (store (world_of
                (Store.updateUserStatus (typingPush 100) true
                   two_conversations))) !! 5 = Some c1 ∧
    typing c1 = Some true ∧
    typing <$>
      conversations
        (store (Store.tick 1700000006000
                  (world_of
                     (Store.updateUserStatus (typingPush 100) true
                        two_conversations)))) !! 5
    = Some (Some false).
Proof.
  assert (Hok : quietTimer_ok (clock two_conversations) (conversation 5 [])).
  { split; [|split; reflexivity].
    split; [reflexivity|]. split; [reflexivity|]. split; [by left|].
    split; [by vm_compute|]. split; [reflexivity|]. intros lc H.
    discriminate H. }
  split; [reflexivity|]. split; [exact Hok|].
  destruct (typing_push_quiet_timer (typingPush 100) two_conversations 5
              (conversation 5 []) _ eq_refl eq_refl eq_refl Hok)
    as (c1 & st1 & Hc1 & Hst1 & _ & Hty & _ & _ & Hafter & _).
  exists c1. split; [exact Hc1|]. split.
  - unfold typing. rewrite Hst1. simpl. by rewrite Hty.
  - apply Hafter. change (1700000006000 ≤ 1700000006000). lia.
Defined.

End TypingPush.

(** The scenario of the specification: the only group is deleted while it is
    selected. *)
Example deleteGroup_only_group :
  ∃ w',
    Store.deleteGroup online 7 only_group = Ok tt w' ∧
    selectedConversationId (store w') = None ∧
    mi_groups <$> messengerInfo (store w') = Some [].
Proof. eexists. split; [vm_compute; reflexivity|]. by vm_compute. Qed.

(** * Further properties of the store *)

(** ** Selecting a conversation *)

Section Selecting.
Variable api : Api.
Implicit Types (w : World) (id : Z).

(** What the write through a shared message object does to a holder. *)
Lemma readIfShared_fields (messages : list Message) (m : Message) :
  set_unread false (readIfShared messages m) = set_unread false m.
Proof. unfold readIfShared. by destruct (bool_decide (m ∈ messages)). Qed.

Lemma readIfShared_other (messages : list Message) (m : Message) :
  m ∉ messages → readIfShared messages m = m.
Proof. intros Hm. unfold readIfShared. by rewrite bool_decide_eq_false_2. Qed.

Lemma readIfShared_read (messages : list Message) (m : Message) :
  m_unread m = false → readIfShared messages m = m.
Proof.
  intros Hm. unfold readIfShared. destruct (bool_decide (m ∈ messages)); [|done].
  destruct m. simpl in Hm. by subst.
Qed.

(** The local bookkeeping of [markConversationAsRead] as one store update. *)
Lemma markConversationAsRead_local_store id w c :
  id ≠ 0 →
  conversations (store w) !! id = Some c →
  Store.markConversationAsRead_local id w
  = Ok (ConversationModel.getUnreadIds c)
      (update (λ s,
                 set_messengerInfo
                   (MessengerInfoModel.mutateById id (set_unreadCount 0)
                      <$> messengerInfo s)
                   (readShared (c_messages c)
                      (set_conversations
                         (<[id := set_messages
                                    (set_unread false <$> c_messages c) c]>)
                         s)))
         w).
Proof.
  intros Hid Hc. unfold Store.markConversationAsRead_local, Store.truthy.
  rewrite (proj2 (Z.eqb_neq id 0)) by done. simpl. by rewrite Hc.
Qed.

Lemma markConversationAsRead_report_store unreadIds w :
  ∃ w',
    Store.markConversationAsRead_report api unreadIds w = Ok tt w' ∧
    store w' = store w ∧ clock w' = clock w ∧
    socketCalls w' =
      socketCalls w ++
      match unreadIds with
      | [] => []
      | _ => [UpdateMessagesReadStatus unreadIds]
      end.
Proof.
  unfold Store.markConversationAsRead_report.
  destruct unreadIds as [|i ids]; simpl.
  - exists w. by rewrite app_nil_r.
  - destruct (socket_updateMessagesReadStatus api (i :: ids));
      eexists; (split; [reflexivity|]); unfold socketCalls; simpl;
      rewrite ?fmap_app, ?List.filter_app; simpl;
      rewrite <- ?app_assoc; by rewrite ?app_nil_r.
Qed.

(** X1. Selecting a conversation that is not loaded yet loads it and marks it
    read: when the transport answers, the selection is the id, the
    conversation is stored under the id with the returned messages all read,
    the roster entry for the id counts no unread message, the other loaded
    conversations are as before, and the batch mark-read call follows the
    load exactly when a returned message was unread. *)
Theorem setSelectedConversationId_loads_and_marks_read id w mi data :
  id ≠ 0 →
  conversations (store w) !! id = None →
  messengerInfo (store w) = Some mi →
  socket_getConversation api id (getConversationType api mi id) 30
    = Some data →
  ∃ w' c',
    Store.setSelectedConversationId api (Some id) w = Ok tt w' ∧
    selectedConversationId (store w') = Some id ∧
    conversations (store w') !! id = Some c' ∧
    c_messages c' = set_unread false <$> default [] (d_messages data) ∧
    (∀ info, MessengerInfoModel.byId id mi = Some info →
       ∃ mi', messengerInfo (store w') = Some mi' ∧
              MessengerInfoModel.byId id mi' = Some (set_unreadCount 0 info)) ∧
    (∀ j, j ≠ id →
          conversations (store w') !! j = conversations (store w) !! j) ∧
    (∃ loads,
       socketCalls w' =
         socketCalls w ++
         GetConversation id (getConversationType api mi id) 30 :: loads ++
         match m_id <$> filter (λ m, m_unread m = true)
                          (default [] (d_messages data)) with
         | [] => []
         | unreadIds => [UpdateMessagesReadStatus unreadIds]
         end).
Proof.
  intros Hid Hnone Hmi Hdata.
  unfold Store.setSelectedConversationId, Store.setSelectedConversationId_begin.
  unfold Store.truthy. rewrite (proj2 (Z.eqb_neq id 0)) by done. simpl.
  rewrite Hnone. simpl. unfold Store.MSGS_REQUEST_LIMIT.
  set (w0 := update (set_selectedConversationId (Some id)) w).
  destruct (loadConversation_success api id 30 w0 mi data Hmi Hdata)
    as (c & w1 & rest & Hrun & Hst1 & Hck1 & Heff1 & Hmsgs & _).
  rewrite Hrun. simpl.
  assert (Hc1 : conversations (store w1) !! id = Some c).
  { rewrite Hst1. simpl. by rewrite lookup_insert_eq. }
  unfold Store.markConversationAsRead.
  rewrite (markConversationAsRead_local_store id w1 c Hid Hc1). simpl.
  set (w2 := update _ w1).
  destruct (markConversationAsRead_report_store
              (ConversationModel.getUnreadIds c) w2)
    as (w' & Hrep & Hst' & _ & Hcalls').
  rewrite Hrep. exists w', (set_messages (set_unread false <$> c_messages c) c).
  split; [done|]. rewrite Hst'. subst w2. simpl. rewrite Hst1. simpl.
  split; [done|]. split; [by rewrite lookup_insert_eq|].
  split; [by rewrite Hmsgs|]. split.
  { intros info Hinfo. rewrite Hmi. simpl. eexists. split; [done|].
    by rewrite byId_mutateById, Hinfo. }
  split.
  { intros j Hj. by rewrite !lookup_insert_ne. }
  exists (List.filter isSocketCall (i_effect <$> rest)).
  rewrite Hcalls'. unfold socketCalls at 1. simpl. rewrite Heff1.
  rewrite fmap_app, List.filter_app. simpl.
  unfold ConversationModel.getUnreadIds. rewrite Hmsgs.
  rewrite <- !app_assoc. simpl.
  by destruct (m_id <$> filter _ _).
Qed.

(** X2. When the load fails, the selection nevertheless points at the id,
    nothing is loaded under it and no mark-read call is made; a
    [sendMessage] in that state throws before it appends or sends
    anything. *)
Theorem setSelectedConversationId_failed_load id w mi :
  id ≠ 0 →
  conversations (store w) !! id = None →
  messengerInfo (store w) = Some mi →
  socket_getConversation api id (getConversationType api mi id) 30 = None →
  ∃ w',
    Store.setSelectedConversationId api (Some id) w = Ok tt w' ∧
    store w' = set_selectedConversationId (Some id) (store w) ∧
    socketCalls w' =
      socketCalls w ++ [GetConversation id (getConversationType api mi id) 30] ∧
    ∀ conversationId body channelSetId,
      Store.sendMessage conversationId body channelSetId w'
      = Throw (TypeError "this.selectedConversation is undefined") w'.
Proof.
  intros Hid Hnone Hmi Hdata.
  unfold Store.setSelectedConversationId, Store.setSelectedConversationId_begin.
  unfold Store.truthy. rewrite (proj2 (Z.eqb_neq id 0)) by done. simpl.
  rewrite Hnone. simpl. unfold Store.loadConversation. simpl.
  rewrite Hmi. unfold Store.MSGS_REQUEST_LIMIT. rewrite Hdata. simpl.
  eexists. split; [reflexivity|]. simpl. split; [done|]. split.
  { unfold socketCalls. simpl. by rewrite fmap_app, List.filter_app. }
  intros conversationId body channelSetId.
  unfold Store.sendMessage, Store.addSendingMessage,
    Store.selectedConversation. simpl. by rewrite Hmi, Hnone.
Qed.

End Selecting.

(** ** Paging *)

Section Paging.
Variables api api' : Api.
Implicit Types (w : World) (id limit : Z).

(** X3. Paging ends with the first short page: after a load that returned
    fewer messages than its limit, [loadOlderMessages] does nothing, whatever
    the transport would answer; after a load that filled its limit (and with
    no load in flight) it asks for the messages held plus thirty. *)
Theorem loadOlderMessages_after_load id limit w mi data :
  messengerInfo (store w) = Some mi →
  socket_getConversation api id (getConversationType api mi id) limit
    = Some data →
  let count := Z.of_nat (length (default [] (d_messages data))) in
  ∃ c w',
    Store.loadConversation api id limit w = Ok (Some c) w' ∧
    (count < limit → Store.loadOlderMessages api' id w' = Ok None w') ∧
    (limit ≤ count → isLoading (store w) = false →
       ∃ rest,
         effects (world_of (Store.loadOlderMessages api' id w')) =
           effects w' ++
           mkIssued (clock w)
             (GetConversation id (getConversationType api' mi id) (count + 30))
             (store w')
           :: rest).
Proof.
  intros Hmi Hdata count.
  destruct (loadConversation_success api id limit w mi data Hmi Hdata)
    as (c & w' & rest & Hrun & Hst & Hck & _ & Hmsgs & Hflag).
  exists c, w'. split; [done|].
  assert (Hc : conversations (store w') !! id = Some c).
  { rewrite Hst. simpl. by rewrite lookup_insert_eq. }
  unfold Store.loadOlderMessages. rewrite Hc, Hflag. split.
  - intros Hlt. by rewrite (proj2 (Z.ltb_lt _ _)) by done.
  - intros Hge Hload. rewrite (proj2 (Z.ltb_ge _ _)) by done.
    assert (Hload' : isLoading (store w') = false) by (by rewrite Hst).
    assert (Hmi' : messengerInfo (store w') = Some mi) by (by rewrite Hst).
    rewrite Hload'. simpl.
    unfold Store.MSGS_REQUEST_LIMIT. rewrite Hmsgs. fold count.
    destruct (socket_getConversation api' id (getConversationType api' mi id)
                (count + 30)) as [data'|] eqn:Hdata'.
    + destruct (loadConversation_success api' id (count + 30) w' mi data'
                  Hmi' Hdata')
        as (c' & w'' & rest' & Hrun' & _ & _ & Heff' & _).
      exists rest'. by rewrite Hrun', <- Hck.
    + exists []. unfold Store.loadConversation. by rewrite Hmi', Hdata', <- Hck.
Qed.

End Paging.

(** ** Pushed messages and the unread count *)

Section PushedMessages.
Variable api : Api.
Implicit Types (w : World) (c : Conversation) (message : Message).

Lemma findIndex_app_None {A} (p : A → bool) (l : list A) x :
  findIndex p l = None → p x = true →
  findIndex p (l ++ [x]) = Some (length l).
Proof.
  intros Hl Hx. induction l as [|y l IH]; simpl in *; [by rewrite Hx|].
  destruct (p y); [done|].
  destruct (findIndex p l); [done|]. by rewrite IH.
Qed.

Lemma findIndex_insert {A} (p : A → bool) (l : list A) i x :
  findIndex p l = Some i → p x = true →
  findIndex p (<[i := x]> l) = Some i.
Proof.
  revert i. induction l as [|y l IH]; intros i; simpl; [done|].
  destruct (p y) eqn:Hy.
  - intros [= <-] Hx. simpl. by rewrite Hx.
  - destruct (findIndex p l) as [k|] eqn:Hk; [|done].
    intros [= <-] Hx. simpl. rewrite Hy. by rewrite (IH k eq_refl Hx).
Qed.

(** X4. A message that is delivered twice is not duplicated: applying to a
    conversation a message that has just been applied to it changes
    nothing. *)
Theorem updateMessage_twice message c c1 :
  ConversationModel.updateMessage message c = Return c1 →
  ConversationModel.updateMessage message c1 = Return c1.
Proof.
  unfold ConversationModel.updateMessage, ConversationModel.new_Message.
  destruct (m_conversation message) as [cid|]; [|done].
  destruct (bool_decide (cid ≠ c_id c)) eqn:Hcid.
  { intros [= <-]. by rewrite Hcid. }
  set (p := λ m : Message, bool_decide (m_id m = m_id message)).
  assert (Hp : p message = true) by (by apply bool_decide_eq_true).
  destruct (findIndex p (c_messages c)) as [i|] eqn:Hi; intros [= <-]; simpl;
    rewrite Hcid.
  - rewrite (findIndex_insert p _ i message Hi Hp).
    by rewrite list_insert_insert_eq.
  - rewrite (findIndex_app_None p _ message Hi Hp).
    rewrite insert_app_r_alt by done. by rewrite Nat.sub_diag.
Qed.

(** X5. Every unread message that is pushed for a conversation of the roster
    adds one to the unread count of its roster entry, whether the
    conversation is loaded or not and whether the message replaces an entry
    or is appended; a read message leaves the count alone; nothing is issued
    on the transport. *)
Theorem updateMessage_counts_unread message w conversationId mi info :
  m_conversation message = Some conversationId →
  messengerInfo (store w) = Some mi →
  MessengerInfoModel.byId conversationId mi = Some info →
  ∃ w' mi',
    Store.updateMessage message w = Ok tt w' ∧
    messengerInfo (store w') = Some mi' ∧
    ci_unreadCount <$> MessengerInfoModel.byId conversationId mi'
      = Some (ci_unreadCount info + if m_unread message then 1 else 0) ∧
    effects w' = effects w.
Proof.
  intros Hm Hmi Hinfo. unfold Store.updateMessage. rewrite Hm.
  set (w1 := match conversations (store w) !! conversationId with
             | Some _ => _
             | None => w
             end).
  assert (H1 : messengerInfo (store w1) = Some mi ∧ effects w1 = effects w).
  { subst w1. destruct (conversations (store w) !! conversationId); [|done].
    by destruct (ConversationModel.updateMessage message _). }
  destruct H1 as [Hmi1 Heff1]. rewrite Hmi1, Hinfo.
  destruct (m_unread message); eexists _, _; (split; [reflexivity|]); simpl.
  - split; [done|]. rewrite byId_mutateById by done. rewrite Hinfo.
    by split.
  - rewrite Hmi1, Hinfo. simpl. split; [done|]. split; [f_equal; lia|done].
Qed.

(** X6. A message that is pushed for a conversation the roster does not know
    changes no roster entry: the store asks for the roster to be loaded
    again, once. *)
Theorem updateMessage_unknown_conversation message w conversationId mi :
  m_conversation message = Some conversationId →
  messengerInfo (store w) = Some mi →
  MessengerInfoModel.byId conversationId mi = None →
  ∃ w',
    Store.updateMessage message w = Ok tt w' ∧
    messengerInfo (store w') = Some mi ∧
    i_effect <$> effects w' = (i_effect <$> effects w) ++ [LoadMessengerInfo].
Proof.
  intros Hm Hmi Hinfo. unfold Store.updateMessage. rewrite Hm.
  set (w1 := match conversations (store w) !! conversationId with
             | Some _ => _
             | None => w
             end).
  assert (H1 : messengerInfo (store w1) = Some mi ∧ effects w1 = effects w).
  { subst w1. destruct (conversations (store w) !! conversationId); [|done].
    by destruct (ConversationModel.updateMessage message _). }
  destruct H1 as [Hmi1 Heff1]. rewrite Hmi1, Hinfo.
  eexists. split; [reflexivity|]. simpl. split; [done|].
  by rewrite fmap_app, Heff1.
Qed.

End PushedMessages.

(** ** Sending *)

Section Sending.
Implicit Types (w : World) (conversationId : Z) (body channelSetId : string).

(** [sendMessage] with the roster and the selected conversation loaded, as
    one step. *)
Lemma sendMessage_run conversationId body channelSetId w mi sel c :
  messengerInfo (store w) = Some mi →
  selectedConversationId (store w) = Some sel →
  conversations (store w) !! sel = Some c →
  ∃ w' c',
    Store.sendMessage conversationId body channelSetId w = Ok tt w' ∧
    store w' =
      set_messageForReply None
        (set_conversations (<[sel := c']>) (store w)) ∧
    c_settings c' = c_settings c ∧
    c_messages c' <> [] ∧
    clock w' = clock w ∧
    i_effect <$> effects w' =
      (i_effect <$> effects w) ++
      (if default false (notification <$> c_settings c)
       then [PlayMsgSent] else []) ++
      [SendMessage
         (mkSendOptions conversationId body channelSetId
            (m_id <$> messageForReply (store w)))].
Proof.
  intros Hmi Hsel Hc.
  unfold Store.sendMessage, Store.addSendingMessage,
    Store.selectedConversation.
  rewrite Hmi, Hsel, Hc. simpl. rewrite Hsel. simpl.
  rewrite lookup_insert_eq. simpl.
  destruct (c_settings c) as [[[]]|] eqn:Hset; simpl;
    eexists _, _; (split; [reflexivity|]); simpl;
    rewrite ?fmap_app, <- ?app_assoc; simpl;
    (repeat split; try done); by destruct (c_messages c).
Qed.

(** X7. A pending reply target goes out with exactly one message: the first
    [sendMessage] carries its id as [replyToId] and clears it, and the next
    [sendMessage] carries none. *)
Theorem sendMessage_reply_once
    conversationId body channelSetId conversationId' body' channelSetId'
    w mi sel c reply :
  messengerInfo (store w) = Some mi →
  selectedConversationId (store w) = Some sel →
  conversations (store w) !! sel = Some c →
  messageForReply (store w) = Some reply →
  ∃ w1 w2,
    Store.sendMessage conversationId body channelSetId w = Ok tt w1 ∧
    messageForReply (store w1) = None ∧
    Store.sendMessage conversationId' body' channelSetId' w1 = Ok tt w2 ∧
    sentOptions w2 =
      sentOptions w ++
      [mkSendOptions conversationId body channelSetId (Some (m_id reply));
       mkSendOptions conversationId' body' channelSetId' None].
Proof.
  intros Hmi Hsel Hc Hreply.
  assert (Hsent : ∀ v v' o cues,
            i_effect <$> effects v' =
              (i_effect <$> effects v) ++ cues ++ [SendMessage o] →
            Forall (λ e, e = PlayMsgSent) cues →
            sentOptions v' = sentOptions v ++ [o]).
  { intros v v' o cues Heff Hcues. unfold sentOptions.
    rewrite Heff, !omap_app. simpl. f_equal. clear Heff.
    induction Hcues as [|e cues -> _ IH]; [done|]. exact IH. }
  destruct (sendMessage_run conversationId body channelSetId w mi sel c
              Hmi Hsel Hc)
    as (w1 & c1 & Hrun1 & Hst1 & _ & _ & _ & Heff1).
  assert (Hc1 : conversations (store w1) !! sel = Some c1).
  { rewrite Hst1. simpl. by rewrite lookup_insert_eq. }
  destruct (sendMessage_run conversationId' body' channelSetId' w1 mi sel c1)
    as (w2 & c2 & Hrun2 & _ & _ & _ & _ & Heff2);
    [by rewrite Hst1..|done|].
  exists w1, w2. split; [done|]. split; [by rewrite Hst1|]. split; [done|].
  assert (Hcues : ∀ b : bool,
            Forall (λ e, e = PlayMsgSent) (if b then [PlayMsgSent] else [])).
  { intros []; repeat constructor. }
  rewrite (Hsent w1 w2 _ _ Heff2 (Hcues _)).
  rewrite (Hsent w w1 _ _ Heff1 (Hcues _)).
  by rewrite <- app_assoc, Hreply, Hst1.
Qed.

(** X8. The sound cue of a sent message is played exactly when the selected
    conversation carries settings with notifications on; it is played once
    and before the send call, which is the last effect. *)
Theorem sendMessage_sound_cue conversationId body channelSetId w mi sel c :
  messengerInfo (store w) = Some mi →
  selectedConversationId (store w) = Some sel →
  conversations (store w) !! sel = Some c →
  ∃ w' o,
    Store.sendMessage conversationId body channelSetId w = Ok tt w' ∧
    i_effect <$> effects w' =
      (i_effect <$> effects w) ++
      (if bool_decide (notification <$> c_settings c = Some true)
       then [PlayMsgSent; SendMessage o] else [SendMessage o]).
Proof.
  intros Hmi Hsel Hc.
  destruct (sendMessage_run conversationId body channelSetId w mi sel c
              Hmi Hsel Hc)
    as (w' & c' & Hrun & _ & _ & _ & _ & Heff).
  exists w'. eexists. split; [done|]. rewrite Heff.
  by destruct (c_settings c) as [[[]]|].
Qed.

(** X9. Without a roster, or without a loaded conversation under the
    selection, [sendMessage] throws and leaves the store and the effects as
    they were: nothing is appended and nothing is sent. *)
Theorem sendMessage_throws conversationId body channelSetId w :
  messengerInfo (store w) = None ∨ Store.selectedConversation (store w) = None →
  ∃ what,
    Store.sendMessage conversationId body channelSetId w
    = Throw (TypeError what) w.
Proof.
  unfold Store.sendMessage, Store.addSendingMessage.
  intros [Hmi|Hsel].
  - rewrite Hmi. by eexists.
  - destruct (messengerInfo (store w)); [|by eexists].
    rewrite Hsel. destruct (selectedConversationId (store w)); by eexists.
Qed.

End Sending.

(** ** Unread bookkeeping *)

Section Unread.
Variable api : Api.
Implicit Types (w : World) (id : Z) (c : Conversation) (message : Message).

Lemma updateMessage_contains message c :
  m_conversation message = Some (c_id c) →
  ∃ c',
    ConversationModel.updateMessage message c = Return c' ∧
    message ∈ c_messages c'.
Proof.
  intros Hm. unfold ConversationModel.updateMessage,
    ConversationModel.new_Message.
  rewrite Hm. rewrite bool_decide_eq_false_2 by (intros H; by apply H).
  destruct (findIndex _ (c_messages c)) as [i|] eqn:Hi;
    eexists; (split; [reflexivity|]); simpl.
  - destruct (findIndex_Some _ _ _ Hi) as (old & Hold & _).
    eapply list_elem_of_lookup_2.
    apply list_lookup_insert_eq. by eapply lookup_lt_Some.
  - apply elem_of_app. right. by apply list_elem_of_singleton.
Qed.

(** X10. An unread message pushed for a loaded conversation is reported as
    read by the next [markConversationAsRead]: the batch call is issued, its
    ids include the id of the pushed message, and the roster entry counts no
    unread message afterwards. *)
Theorem pushed_unread_is_reported message w id c mi info :
  id ≠ 0 →
  m_conversation message = Some id →
  m_unread message = true →
  conversations (store w) !! id = Some c →
  c_id c = id →
  messengerInfo (store w) = Some mi →
  MessengerInfoModel.byId id mi = Some info →
  ∃ w1 w2 unreadIds mi2,
    Store.updateMessage message w = Ok tt w1 ∧
    Store.markConversationAsRead api id w1 = Ok tt w2 ∧
    socketCalls w2 = socketCalls w ++ [UpdateMessagesReadStatus unreadIds] ∧
    m_id message ∈ unreadIds ∧
    messengerInfo (store w2) = Some mi2 ∧
    ci_unreadCount <$> MessengerInfoModel.byId id mi2 = Some 0.
Proof.
  intros Hid Hm Hunread Hc Hcid Hmi Hinfo.
  destruct (updateMessage_contains message c) as (c1 & Hup & Hin);
    [by rewrite Hcid|].
  set (mi1 := MessengerInfoModel.mutateById id
                (λ i, set_unreadCount (ci_unreadCount i + 1) i) mi).
  assert (Hrun1 : Store.updateMessage message w
                  = Ok tt (update (set_messengerInfo (Some mi1))
                             (update (set_conversations (<[id := c1]>)) w))).
  { unfold Store.updateMessage. rewrite Hm, Hc, Hup. simpl.
    by rewrite Hmi, Hinfo, Hunread. }
  set (w1 := update (set_messengerInfo (Some mi1)) _) in Hrun1.
  assert (Hc1 : conversations (store w1) !! id = Some c1).
  { subst w1. simpl. by rewrite lookup_insert_eq. }
  assert (Hids : m_id message ∈ ConversationModel.getUnreadIds c1).
  { unfold ConversationModel.getUnreadIds. apply list_elem_of_fmap.
    exists message. split; [done|]. by apply list_elem_of_filter. }
  pose proof (markConversationAsRead_local_store id w1 c1 Hid Hc1) as Hloc.
  set (w1' := update _ w1) in Hloc.
  destruct (markConversationAsRead_report_store api
              (ConversationModel.getUnreadIds c1) w1')
    as (w2 & Hrep & Hst2 & _ & Hcalls2).
  exists w1, w2, (ConversationModel.getUnreadIds c1). eexists.
  split; [done|]. split.
  { unfold Store.markConversationAsRead. by rewrite Hloc. }
  split.
  { rewrite Hcalls2.
    destruct (ConversationModel.getUnreadIds c1); [by apply elem_of_nil in Hids|].
    done. }
  split; [done|]. rewrite Hst2. subst w1' w1. simpl. split; [done|].
  rewrite byId_mutateById by done. subst mi1.
  rewrite byId_mutateById by done. by rewrite Hinfo.
Qed.

Lemma updateFirst_other (id j : Z) f (l : list ConversationInfo) :
  j ≠ id →
  (∀ i, ci_id (f i) = ci_id i) →
  List.find (MessengerInfoModel.hasId j)
    (MessengerInfoModel.updateFirst (MessengerInfoModel.hasId id) f l)
  = List.find (MessengerInfoModel.hasId j) l.
Proof.
  intros Hj Hf. induction l as [|x l IH]; simpl; [done|].
  destruct (MessengerInfoModel.hasId id x) eqn:Hx; simpl.
  - unfold MessengerInfoModel.hasId in *. rewrite Hf.
    apply bool_decide_eq_true in Hx.
    by rewrite !bool_decide_eq_false_2 by congruence.
  - by rewrite IH.
Qed.

Lemma byId_mutateById_other id j f mi :
  j ≠ id →
  (∀ i, ci_id (f i) = ci_id i) →
  MessengerInfoModel.byId j (MessengerInfoModel.mutateById id f mi)
  = MessengerInfoModel.byId j mi.
Proof.
  intros Hj Hf. unfold MessengerInfoModel.byId, MessengerInfoModel.mutateById.
  destruct (List.find (MessengerInfoModel.hasId id) (mi_conversations mi));
    simpl; by rewrite ?updateFirst_other.
Qed.

(** X11. Marking a conversation as read touches that conversation and its
    message objects only: every other loaded conversation, the roster entry
    of every other id and the selected id are as before; the selected
    messages and the reply and edit targets keep every field but [unread];
    and they are exactly as before when none of them is a message of the
    conversation. *)
Theorem markConversationAsRead_frame id w :
  let w' := world_of (Store.markConversationAsRead api id w) in
  (∀ j, j ≠ id →
        conversations (store w') !! j = conversations (store w) !! j) ∧
  (∀ j, j ≠ id →
        messengerInfo (store w') ≫= MessengerInfoModel.byId j
        = messengerInfo (store w) ≫= MessengerInfoModel.byId j) ∧
  selectedConversationId (store w') = selectedConversationId (store w) ∧
  set_unread false <$> selectedMessages (store w')
  = set_unread false <$> selectedMessages (store w) ∧
  set_unread false <$> messageForReply (store w')
  = set_unread false <$> messageForReply (store w) ∧
  set_unread false <$> messageForEdit (store w')
  = set_unread false <$> messageForEdit (store w) ∧
  (∀ c, conversations (store w) !! id = Some c →
        (∀ m, m ∈ c_messages c →
              (m ∉ selectedMessages (store w)) ∧
              messageForReply (store w) ≠ Some m ∧
              messageForEdit (store w) ≠ Some m) →
        selectedMessages (store w') = selectedMessages (store w) ∧
        messageForReply (store w') = messageForReply (store w) ∧
        messageForEdit (store w') = messageForEdit (store w)).
Proof.
  unfold Store.markConversationAsRead, Store.markConversationAsRead_local.
  destruct (negb (Store.truthy id)); [done|].
  destruct (conversations (store w) !! id) as [c|] eqn:Hc; [|done].
  simpl. set (w1 := update _ (update _ w)).
  destruct (markConversationAsRead_report_store api
              (ConversationModel.getUnreadIds c) w1)
    as (w2 & -> & Hst2 & _). simpl. rewrite Hst2. subst w1. simpl.
  split. { intros j Hj. by rewrite lookup_insert_ne. }
  split.
  { intros j Hj. destruct (messengerInfo (store w)) as [mi|]; [|done].
    simpl. by apply byId_mutateById_other. }
  split; [done|].
  split.
  { rewrite <- list_fmap_compose. apply list_fmap_ext. intros i m _.
    apply readIfShared_fields. }
  split.
  { destruct (messageForReply (store w)) as [m|]; [|done]. simpl.
    by rewrite readIfShared_fields. }
  split.
  { destruct (messageForEdit (store w)) as [m|]; [|done]. simpl.
    by rewrite readIfShared_fields. }
  intros c' [= <-] Hnone. split; [|split].
  - rewrite <- (list_fmap_id (selectedMessages (store w))) at 2.
    apply list_fmap_ext. intros i m Hm. apply readIfShared_other.
    intros Hin. destruct (Hnone m Hin) as (Hsel & _).
    apply Hsel. by eapply list_elem_of_lookup_2.
  - destruct (messageForReply (store w)) as [m|] eqn:Hr; [|done]. simpl.
    rewrite readIfShared_other; [done|].
    intros Hin. destruct (Hnone m Hin) as (_ & Hreply & _). by apply Hreply.
  - destruct (messageForEdit (store w)) as [m|] eqn:He; [|done]. simpl.
    rewrite readIfShared_other; [done|].
    intros Hin. destruct (Hnone m Hin) as (_ & _ & Hedit). by apply Hedit.
Qed.

End Unread.

(** ** Status pushes *)

Section StatusPushes.
Implicit Types (w : World) (c : Conversation) (k t : Z).

(** X12. A status push reaches the loaded conversations of the pushed user
    only: a conversation without a status, or whose status belongs to
    another user, is left as it was, typing push or not. *)
Theorem updateUserStatus_other_users status typing w k c :
  conversations (store w) !! k = Some c →
  (∀ st, c_status c = Some st → st_userId st ≠ p_userId status) →
  conversations (store (world_of (Store.updateUserStatus status typing w))) !! k
  = Some c.
Proof.
  intros Hc Hother. unfold Store.updateUserStatus.
  match goal with
  | |- context [update (set_conversations (fmap ?f)) w] =>
      set (each := f); assert (Heach : each c = c)
  end.
  { subst each. simpl. destruct (c_status c) as [st|] eqn:Hst; [|done].
    by rewrite bool_decide_eq_true_2 by (by apply (Hother st)). }
  destruct (messengerInfo _); simpl; rewrite lookup_fmap, Hc; simpl;
    by rewrite Heach.
Qed.

(** X13. A status push that is not a typing push does not stop the quiet
    timer: when it carries no [typing] field, the flag stays set and is still
    cleared at the time the timer was due, once. *)
Theorem updateStatus_keeps_quiet_timer now status T c :
  quietPending T c →
  p_typing status = None →
  ∃ c',
    ConversationModel.updateStatus now status false c = Return c' ∧
    typing c' = Some true ∧
    (∀ t, t < T →
          typing (ConversationModel.runTimer t c').1 = Some true ∧
          (ConversationModel.runTimer t c').2 = []) ∧
    (∀ t, T ≤ t →
          typing (ConversationModel.runTimer t c').1 = Some false ∧
          (ConversationModel.runTimer t c').2 = [T]).
Proof.
  intros Hpending Hty. pose proof Hpending as (Htyping & Hla & Hdel & Hok).
  unfold ConversationModel.updateStatus.
  unfold typing in Htyping. destruct (c_status c) as [st|] eqn:Hst; [|done].
  simpl in Htyping. injection Htyping as Htyping. simpl.
  eexists. split; [reflexivity|].
  set (c' := set_status _ c).
  assert (Hpending' : quietPending T c').
  { split; [|done]. subst c'. unfold typing, ConversationModel.extendStatus.
    simpl. by rewrite Hty, Htyping. }
  split; [by destruct Hpending'|]. split; intros t Ht.
  - destruct (runTimer_pending_before T c' t Hpending' Ht) as [(? & _) ?].
    by split.
  - destruct (runTimer_pending_after T c' t Hpending' Ht) as [(? & _) ?].
    by split.
Qed.

(** X14. A second typing push restarts the quiet timer: after a push at
    [now] and another at [now'], less than 6000 ms later, the flag stays set
    until [now' + 6000] and is cleared then, once; nothing happens at
    [now + 6000]. *)
Theorem typing_push_restarts_timer now now' status status' c st :
  c_status c = Some st →
  quietTimer_ok now c →
  now ≤ now' → now' < now + 6000 →
  ∃ c1 c2,
    ConversationModel.updateStatus now status true c = Return c1 ∧
    ConversationModel.updateStatus now' status' true
      (ConversationModel.runTimer now' c1).1 = Return c2 ∧
    (∀ t, t < now' + 6000 →
          typing (ConversationModel.runTimer t c2).1 = Some true ∧
          (ConversationModel.runTimer t c2).2 = []) ∧
    (∀ t, now' + 6000 ≤ t →
          typing (ConversationModel.runTimer t c2).1 = Some false ∧
          (ConversationModel.runTimer t c2).2 = [now' + 6000]).
Proof.
  intros Hst Hok Hle Hlt.
  destruct (updateStatus_typing now status c st Hst Hok)
    as (c1 & st1 & Hpush1 & _ & _ & _ & Hpending1).
  destruct (runTimer_pending_before _ c1 now' Hpending1 Hlt)
    as [Hpending1' _].
  set (c1' := (ConversationModel.runTimer now' c1).1) in *.
  assert (Hok1' : quietTimer_ok now' c1').
  { apply (quietTimer_ok_runTimer now); [|done].
    by apply (quietTimer_ok_updateStatus now status true c). }
  assert (Hst1' : ∃ st1', c_status c1' = Some st1').
  { destruct Hpending1' as [Hty _]. unfold typing in Hty.
    destruct (c_status c1'); [eauto|done]. }
  destruct Hst1' as [st1' Hst1'].
  destruct (updateStatus_typing now' status' c1' st1' Hst1' Hok1')
    as (c2 & st2 & Hpush2 & _ & _ & _ & Hpending2).
  exists c1, c2. split; [done|]. split; [done|]. split; intros t Ht.
  - destruct (runTimer_pending_before _ c2 t Hpending2 Ht) as [(? & _) ?].
    by split.
  - destruct (runTimer_pending_after _ c2 t Hpending2 Ht) as [(? & _) ?].
    by split.
Qed.

End StatusPushes.

(** ** Deleting a group the roster does not list *)

Section DeleteUnknownGroup.
Variable api : Api.
Implicit Types (w : World) (groupId : Z).

(** X15. When [deleteGroup(groupId)] succeeds for an id that the roster's
    groups do not contain, no group is removed, yet the selection is
    changed: to the first group when the roster has more than one group, and
    to none otherwise, even though a group may remain. *)
Theorem deleteGroup_unknown_group groupId w mi :
  socket_deleteGroup api groupId = true →
  messengerInfo (store w) = Some mi →
  findIndex (MessengerInfoModel.hasId groupId) (mi_groups mi) = None →
  ∃ w' mi',
    Store.deleteGroup api groupId w = Ok tt w' ∧
    messengerInfo (store w') = Some mi' ∧
    (ci_id <$> mi_groups mi') = (ci_id <$> mi_groups mi) ∧
    selectedConversationId (store w')
    = match mi_groups mi with
      | g :: _ :: _ => Some (ci_id g)
      | _ => None
      end.
Proof.
  intros Hok Hmi Hi.
  assert (Habsent : groupId ∉ (ci_id <$> mi_groups mi)).
  { intros (g & Hg & Hin)%list_elem_of_fmap.
    pose proof (findIndex_None _ _ Hi) as Hall. rewrite Forall_forall in Hall.
    specialize (Hall g Hin). apply bool_decide_eq_false in Hall. done. }
  set (sel := match mi_groups mi with
              | g :: _ :: _ => Some (ci_id g)
              | _ => None
              end).
  destruct (deleteGroup_callback_tail api groupId sel
              (issue (DeleteGroup groupId) w) mi Hmi)
    as (w' & mi' & Hrun & Hmi' & Hids & Hsel).
  exists w', mi'. rewrite (filter_absent _ _ Habsent) in Hids.
  split; [|done].
  unfold Store.deleteGroup. rewrite Hok. simpl negb. cbv iota.
  change (messengerInfo (store (issue (DeleteGroup groupId) w)))
    with (messengerInfo (store w)).
  rewrite Hmi. cbv zeta. rewrite Hi. rewrite <- Hrun. subst sel.
  destruct (mi_groups mi) as [|g [|g' l]]; reflexivity.
Qed.

End DeleteUnknownGroup.

(** ** Selected messages *)

Section SelectedMessages.
Implicit Types (s : CommunicationStore) (message : Message) (id : MsgId).

Lemma checkMessageSelected_spec id s :
  Selection.checkMessageSelected id s = true ↔
  id ∈ (m_id <$> selectedMessages s).
Proof.
  unfold Selection.checkMessageSelected.
  destruct (List.find _ (selectedMessages s)) as [m|] eqn:Hfind.
  - apply List.find_some in Hfind as [Hin Hid].
    apply bool_decide_eq_true in Hid. split; [|done]. intros _.
    apply list_elem_of_fmap. exists m. split; [done|].
    by apply list_elem_of_In.
  - split; [done|]. intros (m & -> & Hin)%list_elem_of_fmap.
    apply list_elem_of_In in Hin.
    pose proof (List.find_none _ _ Hfind m Hin) as Hm. simpl in Hm.
    by rewrite bool_decide_eq_true_2 in Hm.
Qed.

(** X16. Selecting never selects an id twice: if the selected messages have
    distinct ids they still have after [selectMessage], the message's id is
    among them, and selecting the same message again changes nothing. *)
Theorem selectMessage_distinct_ids message s :
  NoDup (m_id <$> selectedMessages s) →
  let s' := Selection.selectMessage message s in
  NoDup (m_id <$> selectedMessages s') ∧
  Selection.checkMessageSelected (m_id message) s' = true ∧
  Selection.selectMessage message s' = s'.
Proof.
  intros Hnd. unfold Selection.selectMessage.
  destruct (Selection.checkMessageSelected (m_id message) s) eqn:Hsel; simpl.
  - by rewrite Hsel.
  - assert (Hnot : m_id message ∉ (m_id <$> selectedMessages s)).
    { intros Hin%checkMessageSelected_spec. congruence. }
    assert (Hsel' : Selection.checkMessageSelected (m_id message)
                      (set_selectedMessages (selectedMessages s ++ [message]) s)
                    = true).
    { apply checkMessageSelected_spec. simpl. rewrite fmap_app.
      apply elem_of_app. right. by apply list_elem_of_singleton. }
    rewrite Hsel'. split; [|done]. rewrite fmap_app. simpl.
    apply NoDup_app. split; [done|]. split; [|apply NoDup_singleton].
    intros x Hx ->%list_elem_of_singleton. done.
Qed.

(** X17. Deselecting removes the id and nothing else: afterwards the id is
    not selected, every other id is selected exactly if it was, and
    deselecting a message that has just been selected gives back the former
    selection. *)
Theorem deselectMessage_removes_only id s :
  let s' := Selection.deselectMessage id s in
  Selection.checkMessageSelected id s' = false ∧
  (∀ id', id' ≠ id →
          Selection.checkMessageSelected id' s'
          = Selection.checkMessageSelected id' s) ∧
  (∀ message,
      m_id message = id →
      Selection.checkMessageSelected id s = false →
      Selection.deselectMessage id (Selection.selectMessage message s) = s).
Proof.
  simpl. split; [|split].
  - apply not_true_is_false. intros Hin%checkMessageSelected_spec.
    simpl in Hin. apply list_elem_of_fmap in Hin as (m & Hm & Hin).
    apply list_elem_of_In, List.filter_In in Hin as [_ Hin].
    by rewrite bool_decide_eq_true_2 in Hin.
  - intros id' Hne. apply eq_true_iff_eq.
    rewrite !checkMessageSelected_spec. simpl.
    rewrite !list_elem_of_fmap. split; intros (m & Hm & Hin); exists m.
    + split; [done|].
      by apply list_elem_of_In, List.filter_In in Hin as [Hin _];
        apply list_elem_of_In.
    + split; [done|]. apply list_elem_of_In, List.filter_In.
      split; [by apply list_elem_of_In|].
      rewrite bool_decide_eq_false_2; [done|congruence].
  - intros message Hid Hsel. unfold Selection.selectMessage.
    rewrite Hid, Hsel. unfold Selection.deselectMessage. simpl.
    rewrite List.filter_app. simpl. rewrite bool_decide_eq_true_2 by done.
    simpl. rewrite app_nil_r.
    assert (Hall : List.filter (λ m, negb (bool_decide (m_id m = id)))
                     (selectedMessages s) = selectedMessages s).
    { apply find_none_filter_id. unfold Selection.checkMessageSelected in Hsel.
      by destruct (List.find _ _). }
    rewrite Hall. by destruct s.
Qed.

End SelectedMessages.

(** ** Deleting messages *)

Section DeletingMessages.
Implicit Types (w : World) (id : MsgId).

(** What a target of reply or edit is after [deleteMessage(id)]. *)
Lemma deleteMessage_run id w :
  ∃ w',
    Store.deleteMessage id w = Ok tt w' ∧
    conversations (store w') = conversations (store w) ∧
    messengerInfo (store w') = messengerInfo (store w) ∧
    selectedConversationId (store w') = selectedConversationId (store w) ∧
    selectedMessages (store w')
    = List.filter (λ m, negb (bool_decide (m_id m = id)))
        (selectedMessages (store w)) ∧
    messageForReply (store w')
    = (match messageForReply (store w) with
       | Some m => if bool_decide (m_id m = id) then None else Some m
       | None => None
       end) ∧
    clock w' = clock w ∧
    i_effect <$> effects w' = (i_effect <$> effects w) ++ [DeleteMessage id].
Proof.
  destruct w as [s c e]. destruct s as [cs mi ld er sel sm fr fe tt'].
  unfold Store.deleteMessage. simpl.
  pose proof (find_none_filter_id (λ m, bool_decide (m_id m = id)) sm)
    as Hnone.
  destruct fe as [me|]; [destruct (bool_decide (m_id me = id)) eqn:He|];
    (destruct fr as [mr|]; [destruct (bool_decide (m_id mr = id)) eqn:Hr|]);
    destruct (List.find (λ m, bool_decide (m_id m = id)) sm) eqn:Hfind;
    simpl; rewrite ?He; simpl; rewrite ?Hr; simpl; rewrite ?Hfind; simpl;
    (eexists; split; [reflexivity|]); simpl;
    rewrite ?fmap_app, ?Hnone by done; done.
Qed.

Lemma filter_filter_and {A} (f g : A → bool) (l : list A) :
  List.filter f (List.filter g l) = List.filter (λ x, g x && f x) l.
Proof.
  induction l as [|x l IH]; simpl; [done|].
  destruct (g x); simpl; [|done]. destruct (f x); by rewrite IH.
Qed.

(** The calls of [deleteMessage] in a row, one for each message of [l]. *)
Lemma deleteMessage_fold (l : list Message) w :
  let w' := fold_left (λ w m, world_of (Store.deleteMessage (m_id m) w)) l w in
  deleteCalls w' = deleteCalls w ++ (m_id <$> l) ∧
  selectedMessages (store w')
  = List.filter (λ m, negb (bool_decide (m_id m ∈ (m_id <$> l))))
      (selectedMessages (store w)) ∧
  conversations (store w') = conversations (store w) ∧
  messengerInfo (store w') = messengerInfo (store w) ∧
  selectedConversationId (store w') = selectedConversationId (store w).
Proof.
  revert w. induction l as [|m l IH]; intros w; cbv zeta; cbn [fold_left].
  - rewrite fmap_nil, app_nil_r. repeat split.
    symmetry. apply List.forallb_filter_id, List.forallb_forall.
    intros x _. rewrite bool_decide_eq_false_2; [done|apply not_elem_of_nil].
  - destruct (deleteMessage_run (m_id m) w)
      as (w1 & Hrun & Hcs & Hmi & Hsel & Hsm & _ & _ & Heff).
    rewrite Hrun. cbn [world_of].
    destruct (IH w1) as (Hcalls & Hsm' & Hcs' & Hmi' & Hsel').
    rewrite Hcalls, Hsm', Hcs', Hmi', Hsel', Hsm, Hcs, Hmi, Hsel.
    unfold deleteCalls at 1. rewrite Heff, omap_app, fmap_cons.
    rewrite <- app_assoc. repeat split.
    rewrite filter_filter_and. apply List.filter_ext. intros x.
    destruct (decide (m_id x = m_id m)) as [Heq|Hne].
    + rewrite (bool_decide_eq_true_2 (m_id x = m_id m)) by done. simpl.
      symmetry. rewrite bool_decide_eq_true_2; [done|].
      rewrite Heq. apply list_elem_of_here.
    + rewrite (bool_decide_eq_false_2 (m_id x = m_id m)) by done. simpl.
      f_equal. apply bool_decide_ext. rewrite elem_of_cons. tauto.
Qed.

(** X18. A message that was set as the reply target and is then deleted is
    not replied to: [deleteMessage] clears the target, so the next
    [sendMessage] goes out without a [replyToId]. *)
Theorem deleted_reply_target_not_sent
    conversationId body channelSetId message w mi sel c :
  messengerInfo (store w) = Some mi →
  selectedConversationId (store w) = Some sel →
  conversations (store w) !! sel = Some c →
  let w0 := update (λ s, (Selection.setMessageForReply message s).1) w in
  ∃ w1 w2,
    messageForReply (store w0) = Some message ∧
    Store.deleteMessage (m_id message) w0 = Ok tt w1 ∧
    messageForReply (store w1) = None ∧
    Store.sendMessage conversationId body channelSetId w1 = Ok tt w2 ∧
    sentOptions w2 =
      sentOptions w ++ [mkSendOptions conversationId body channelSetId None].
Proof.
  intros Hmi Hsel Hc w0.
  destruct (deleteMessage_run (m_id message) w0)
    as (w1 & Hrun & Hcs & Hmi1 & Hsel1 & _ & Hreply & _ & Heff).
  assert (Hreply1 : messageForReply (store w1) = None).
  { rewrite Hreply. simpl. by rewrite bool_decide_eq_true_2. }
  destruct (sendMessage_run conversationId body channelSetId w1 mi sel c)
    as (w2 & c' & Hsend & _ & _ & _ & _ & Heff2).
  { by rewrite Hmi1. } { by rewrite Hsel1. } { by rewrite Hcs. }
  exists w1, w2. repeat split; [done..|].
  unfold sentOptions. rewrite Heff2, Heff, Hreply1. simpl.
  rewrite !omap_app. simpl. rewrite app_nil_r.
  by destruct (default false _).
Qed.

(** X19. [deleteSelectedMessages] asks the server to delete exactly the
    selected messages that are deletable and not yet deleted, in the order
    of the selection; these (and whatever shares an id with one of them)
    leave the selection, the others stay selected; no conversation
    changes. *)
Theorem deleteSelectedMessages_calls (deleted deletable : Message → bool) w :
  let ids :=
    m_id <$> List.filter (λ m, negb (deleted m) && deletable m)
               (selectedMessages (store w)) in
  let w' := Selection.deleteSelectedMessages deleted deletable w in
  deleteCalls w' = deleteCalls w ++ ids ∧
  selectedMessages (store w')
  = List.filter (λ m, negb (bool_decide (m_id m ∈ ids)))
      (selectedMessages (store w)) ∧
  conversations (store w') = conversations (store w).
Proof.
  simpl. unfold Selection.deleteSelectedMessages, Selection.deleteEach.
  destruct (deleteMessage_fold
              (List.filter (λ m, negb (deleted m) && deletable m)
                 (selectedMessages (store w))) w)
    as (Hcalls & Hsm & Hcs & _).
  by rewrite Hcalls, Hsm, Hcs.
Qed.

(** X20. [deleteAllMsgsInSelectConversation] empties the selection first;
    with a conversation selected it then asks the server to delete each of
    its deletable, not yet deleted messages and leaves the local message
    lists alone; with none selected it throws after the selection has been
    emptied, and asks for nothing. *)
Theorem deleteAllMsgsInSelectConversation_calls
    (deleted deletable : Message → bool) w :
  match Store.selectedConversation (store w) with
  | Some c =>
      ∃ w',
        Selection.deleteAllMsgsInSelectConversation deleted deletable w
        = Ok tt w' ∧
        deleteCalls w'
        = deleteCalls w ++
          (m_id <$> List.filter (λ m, negb (deleted m) && deletable m)
                      (c_messages c)) ∧
        selectedMessages (store w') = [] ∧
        conversations (store w') = conversations (store w)
  | None =>
      ∃ what w',
        Selection.deleteAllMsgsInSelectConversation deleted deletable w
        = Throw (TypeError what) w' ∧
        selectedMessages (store w') = [] ∧
        effects w' = effects w
  end.
Proof.
  unfold Selection.deleteAllMsgsInSelectConversation.
  assert (Hsame :
    Store.selectedConversation
      (store (update Selection.clearSelectedMessages w))
    = Store.selectedConversation (store w)) by done.
  rewrite Hsame. destruct (Store.selectedConversation (store w)) as [c|].
  - eexists. split; [reflexivity|]. unfold Selection.deleteEach.
    destruct (deleteMessage_fold
                (List.filter (λ m, negb (deleted m) && deletable m)
                   (c_messages c))
                (update Selection.clearSelectedMessages w))
      as (Hcalls & Hsm & Hcs & _).
    by rewrite Hcalls, Hsm, Hcs.
  - by eexists _, _.
Qed.

End DeletingMessages.

(** ** Contacts staged for an action *)

Section StagedContacts.
Import Recipients.
Implicit Types (contact : Contact) (staged selected : list Contact).

Lemma checkContactAddedForAction_spec id staged :
  checkContactAddedForAction id staged = true ↔
  ∃ contact, contact ∈ staged ∧
             (ct_id contact = id ∨ ct_savedId contact = Some id).
Proof.
  unfold checkContactAddedForAction.
  destruct (List.find _ staged) as [c|] eqn:Hfind.
  - apply List.find_some in Hfind as [Hin Hid]. split; [|done]. intros _.
    exists c. split; [by apply list_elem_of_In|].
    apply orb_true_iff in Hid as [Hid|Hid]; apply bool_decide_eq_true in Hid;
      auto.
  - split; [done|]. intros (c & Hin & Hid). apply list_elem_of_In in Hin.
    pose proof (List.find_none _ _ Hfind c Hin) as Hc. simpl in Hc.
    apply orb_false_iff in Hc as [H1 H2].
    apply bool_decide_eq_false in H1, H2. tauto.
Qed.

(** X21. Staging keeps ids distinct: when no staged contact has the id or
    the saved id of another, that still holds after [addContactForAction];
    the contact's id is then reported as added; and a contact is refused
    when one with that id, or one converted from the saved contact with
    that id, is already staged. *)
Theorem addContactForAction_distinct contact staged :
  NoDup (ct_id <$> staged) →
  let staged' := addContactForAction contact staged in
  NoDup (ct_id <$> staged') ∧
  checkContactAddedForAction (ct_id contact) staged' = true ∧
  (∀ other, other ∈ staged →
            ct_id other = ct_id contact ∨
            ct_savedId other = Some (ct_id contact) →
            staged' = staged).
Proof.
  intros Hnd. unfold addContactForAction.
  destruct (checkContactAddedForAction (ct_id contact) staged) eqn:Hadded;
    simpl.
  - done.
  - assert (Hnone : ∀ other, other ∈ staged →
              ¬ (ct_id other = ct_id contact ∨
                 ct_savedId other = Some (ct_id contact))).
    { intros other Hin Hor.
      assert (checkContactAddedForAction (ct_id contact) staged = true)
        by (apply checkContactAddedForAction_spec; eauto).
      congruence. }
    split; [|split].
    + rewrite fmap_app. simpl. apply NoDup_app.
      split; [done|]. split; [|apply NoDup_singleton].
      intros x (other & -> & Hin)%list_elem_of_fmap
        Heq%list_elem_of_singleton.
      by apply (Hnone other Hin); left.
    + apply checkContactAddedForAction_spec. exists contact.
      split; [|by left]. apply elem_of_app. right.
      by apply list_elem_of_singleton.
    + intros other Hin Hor. by destruct (Hnone other Hin).
Qed.

(** X22. [removeContactForAction] compares ids only, while
    [checkContactAddedForAction] also compares saved ids: after removing
    [id], the check still answers true exactly when a staged contact with
    another id has [id] as its saved id, and that contact is still
    staged. *)
Theorem removeContactForAction_saved_id_stays id staged :
  checkContactAddedForAction id (removeContactForAction id staged) = true ↔
  ∃ contact, contact ∈ removeContactForAction id staged ∧
             contact ∈ staged ∧
             ct_id contact ≠ id ∧ ct_savedId contact = Some id.
Proof.
  rewrite checkContactAddedForAction_spec. unfold removeContactForAction.
  split.
  - intros (c & Hin & Hor). exists c. split; [done|].
    apply list_elem_of_In, List.filter_In in Hin as [Hin Hne].
    apply negb_true_iff, bool_decide_eq_false in Hne.
    split; [by apply list_elem_of_In|]. split; [done|]. by destruct Hor.
  - intros (c & Hin & _ & _ & Hsaved). exists c. auto.
Qed.

End StagedContacts.

(** ** Recipients *)

Section RecipientLists.
Import Recipients.
Implicit Types (contact : Contact) (staged selected : list Contact).

Lemma append_assoc (a b c : string) : (a +:+ b) +:+ c = a +:+ (b +:+ c).
Proof.
  induction a as [|x a IH]; [done|].
  change (String x ((a +:+ b) +:+ c) = String x (a +:+ (b +:+ c))).
  by rewrite IH.
Qed.

Lemma append_nil_r (a : string) : a +:+ EmptyString = a.
Proof.
  induction a as [|x a IH]; [done|].
  change (String x (a +:+ EmptyString) = String x a). by rewrite IH.
Qed.

(** A [reduce] whose callback appends a rendering of the element, and a
    comma unless the element is the last, joins the renderings. *)
Lemma reduce_from_joins (render : Contact → string) f all :
  (∀ result contact index allContacts,
      f result contact index allContacts
      = (result +:+ render contact) +:+ separator allContacts index) →
  ∀ rest done' result,
    all = done' ++ rest →
    reduce_from f all (length done') rest result
    = result +:+ String.concat "," (render <$> rest).
Proof.
  intros Hf rest. induction rest as [|x rest IH]; intros done' result Hall.
  - simpl. by rewrite append_nil_r.
  - cbn [reduce_from]. rewrite Hf.
    replace (S (length done')) with (length (done' ++ [x]))
      by (rewrite length_app; simpl; lia).
    rewrite IH by (by rewrite <- app_assoc).
    unfold separator. rewrite Hall, length_app. simpl length.
    destruct rest as [|y rest].
    + rewrite bool_decide_eq_false_2 by (cbn [length]; lia). simpl.
      by rewrite !append_nil_r.
    + rewrite bool_decide_eq_true_2 by (cbn [length]; lia).
      rewrite !fmap_cons. cbn [String.concat].
      by rewrite !append_assoc.
Qed.

Lemma reduce_joins (render : Contact → string) f init all :
  (∀ result contact index allContacts,
      f result contact index allContacts
      = (result +:+ render contact) +:+ separator allContacts index) →
  reduce f init all = init +:+ String.concat "," (render <$> all).
Proof. intros Hf. by apply (reduce_from_joins render f all Hf all []). Qed.

(** X23. The recipients of [sendInviteMsgToContacts] are the ids of the
    selected contacts, each with the prefix [contact-], followed by the ids
    of the staged contacts, joined by commas; and the selected contacts
    themselves keep the prefixed ids. *)
Theorem sendInviteMsgToContacts_recipients_joined staged selected :
  sendInviteMsgToContacts_recipients staged selected
  = (prefixId <$> selected,
     String.concat ","
       (((λ m, "contact-" +:+ toString (ct_id m)) <$> selected)
        ++ (toString ∘ ct_id <$> staged))).
Proof.
  unfold sendInviteMsgToContacts_recipients. f_equal.
  rewrite (reduce_joins (toString ∘ ct_id)) by done. simpl.
  rewrite fmap_app, <- list_fmap_compose. done.
Qed.

(** X24. The recipients of [createNewGroup] are the joined ids of the
    staged contacts, then, if any contact is selected, a comma and the
    joined prefixed ids of the selected contacts: with nothing staged the
    list starts with a comma. *)
Theorem createNewGroup_recipients_joined staged selected :
  createNewGroup_recipients staged selected
  = String.concat "," (toString ∘ ct_id <$> staged) +:+
    match selected with
    | [] => EmptyString
    | _ :: _ =>
        "," +:+
        String.concat ","
          ((λ m, "contact-" +:+ toString (ct_id m)) <$> selected)
    end.
Proof.
  unfold createNewGroup_recipients.
  rewrite (reduce_joins (λ m, "contact-" +:+ toString (ct_id m))) by done.
  rewrite (reduce_joins (toString ∘ ct_id)) by done. simpl.
  destruct selected as [|m selected].
  - simpl. by rewrite !append_nil_r.
  - rewrite bool_decide_eq_false_2 by done. by rewrite append_assoc.
Qed.

(** X25. [addAllMembersToGroup] rewrites the ids of the selected contacts
    and nothing undoes it: called a second time it asks to add each
    selected contact under its id with the prefix twice. *)
Theorem addAllMembersToGroup_twice staged selected :
  let first := addAllMembersToGroup staged selected in
  let second := addAllMembersToGroup staged first.1 in
  first.2
  = ((λ m, StrId ("contact-" +:+ toString (ct_id m))) <$> selected)
    ++ (ct_id <$> staged) ∧
  second.2
  = ((λ m, StrId ("contact-contact-" +:+ toString (ct_id m))) <$> selected)
    ++ (ct_id <$> staged).
Proof.
  simpl. rewrite !fmap_app, <- !list_fmap_compose. done.
Qed.

End RecipientLists.

(** ** Upload progress *)

Section UploadProgress.
Import Uploads.
Implicit Types (m : gmap string QArith_base.Q) (key : string) (value : QArith_base.Q).

(** X26. [updateFileUploadProgress] never adds a key and never stores more
    than 100: the keys stay the same, a known key gets the reported value,
    or 100 if that is less, every other entry is kept, and a report for a
    key that [removeFileUploadingProgress] has removed is dropped. *)
Theorem updateFileUploadProgress_caps key value m :
  let m' := updateFileUploadProgress key value m in
  dom m' = dom m ∧
  (∀ old, m !! key = Some old →
     ∃ new, m' !! key = Some new ∧
            QArith_base.Qle new hundred ∧
            (QArith_base.Qlt value hundred → new = value) ∧
            (QArith_base.Qle hundred value → new = hundred)) ∧
  (∀ other, other ≠ key → m' !! other = m !! other) ∧
  updateFileUploadProgress key value (removeFileUploadingProgress key m)
  = removeFileUploadingProgress key m.
Proof.
  cbv zeta. split; [|split; [|split]].
  - unfold updateFileUploadProgress; cbv zeta.
    destruct (m !! key) as [old|] eqn:Hold; [|done].
    destruct (QArith_base.Qle_bool hundred value);
      apply dom_insert_lookup_L; by rewrite Hold.
  - intros old Hold. unfold updateFileUploadProgress; cbv zeta. rewrite Hold.
    destruct (QArith_base.Qle_bool hundred value) eqn:Hle.
    + exists hundred. rewrite lookup_insert_eq.
      apply QArith_base.Qle_bool_iff in Hle.
      split; [done|]. split; [apply QArith_base.Qle_refl|].
      split; [|done]. intros Hlt.
      by destruct (QArith_base.Qlt_not_le _ _ Hlt).
    + exists value. rewrite lookup_insert_eq.
      assert (Hlt : QArith_base.Qlt value hundred).
      { apply QArith_base.Qnot_le_lt.
        intros H%QArith_base.Qle_bool_iff. congruence. }
      split; [done|]. split; [by apply QArith_base.Qlt_le_weak|].
      split; [done|]. intros Hge.
      by destruct (QArith_base.Qlt_not_le _ _ Hlt).
  - intros other Hne. unfold updateFileUploadProgress; cbv zeta.
    destruct (m !! key); [|done].
    destruct (QArith_base.Qle_bool hundred value);
      by rewrite lookup_insert_ne.
  - unfold updateFileUploadProgress, removeFileUploadingProgress; cbv zeta.
    by rewrite lookup_delete_eq.
Qed.

End UploadProgress.

(** ** Search *)

Section Searching.
Import Search.
Variable toLowerCase : string → string.
Variable socket_searchMessages : string → option (list Message).

Lemma substring_chars s : ∀ n m a,
  In a (String.list_ascii_of_string (String.substring n m s)) →
  In a (String.list_ascii_of_string s).
Proof.
  induction s as [|c s IH]; intros n m a.
  - by destruct n, m.
  - destruct n as [|n]; [destruct m as [|m]|]; simpl.
    + done.
    + intros [->|Hin]; [by left|]. right. by apply (IH 0%nat m).
    + intros Hin. right. by apply (IH n m).
Qed.

Lemma includes_chars s filter a :
  includes s filter = true →
  In a (String.list_ascii_of_string filter) → In a (String.list_ascii_of_string s).
Proof.
  unfold includes.
  destruct (String.index 0 filter s) as [m|] eqn:Hindex; [|done].
  intros _ Hin. apply String.index_correct1 in Hindex.
  rewrite <- Hindex in Hin. by apply substring_chars in Hin.
Qed.

(** X27. The filter of [search] is compared as typed with names in lower
    case: a text with a character that no lower-case string has (a capital
    letter) leaves no contact and no group in [getContactsAndGroupsData],
    whatever their names, while the server was asked for the text in lower
    case. *)
Theorem search_capital_matches_nothing (upper : Ascii.ascii) text st info :
  (∀ name, ¬ In upper (String.list_ascii_of_string (toLowerCase name))) →
  In upper (String.list_ascii_of_string text) →
  let st' := search toLowerCase socket_searchMessages text st in
  contactsFilter st' = text ∧
  foundMessages st'
  = default (foundMessages st) (socket_searchMessages (toLowerCase text)) ∧
  getContactsAndGroupsData toLowerCase info st'
  = ([], [], foundMessages st').
Proof.
  intros Hlower Hupper. cbv zeta.
  assert (Htruthy : truthy text = true).
  { unfold truthy. rewrite bool_decide_eq_false_2; [done|].
    intros ->. by simpl in Hupper. }
  assert (Hnone : ∀ l : list ConversationInfo,
            List.filter (λ c, includes (toLowerCase (ci_name c)) text) l = []).
  { induction l as [|c l IH]; simpl; [done|].
    destruct (includes (toLowerCase (ci_name c)) text) eqn:Hinc; [|done].
    destruct (Hlower (ci_name c)). by apply (includes_chars _ text). }
  unfold search, searchMessages. rewrite Htruthy. cbn [negb contactsFilter].
  unfold getContactsAndGroupsData.
  destruct (socket_searchMessages (toLowerCase text)) as [messages|];
    cbn [contactsFilter foundMessages default]; rewrite Htruthy, !Hnone;
    done.
Qed.

End Searching.

Lemma lowerAscii_not_capital a : lowerAscii a ≠ (Ascii.ascii_of_nat 65).
Proof. by destruct a as [[] [] [] [] [] [] [] []]; vm_compute. Qed.

Lemma toLowerCaseAscii_no_capital name :
  ¬ In (Ascii.ascii_of_nat 65) (String.list_ascii_of_string (toLowerCaseAscii name)).
Proof.
  induction name as [|a name IH]; simpl; [tauto|].
  intros [Heq|Hin]; [by apply (lowerAscii_not_capital a)|by apply IH].
Qed.

(** ** Selecting the open conversation again *)

Section Reselecting.
Variable api : Api.
Implicit Types (w : World) (id : Z).

Lemma updateFirst_twice (p : ConversationInfo → bool) f l :
  (∀ i, p (f i) = p i) → (∀ i, f (f i) = f i) →
  MessengerInfoModel.updateFirst p f (MessengerInfoModel.updateFirst p f l)
  = MessengerInfoModel.updateFirst p f l.
Proof.
  intros Hp Hf. induction l as [|x l IH]; simpl; [done|].
  destruct (p x) eqn:Hx; simpl.
  - by rewrite Hp, Hx, Hf.
  - by rewrite Hx, IH.
Qed.

Lemma mutateById_twice id mi :
  MessengerInfoModel.mutateById id (set_unreadCount 0)
    (MessengerInfoModel.mutateById id (set_unreadCount 0) mi)
  = MessengerInfoModel.mutateById id (set_unreadCount 0) mi.
Proof.
  unfold MessengerInfoModel.mutateById.
  destruct (List.find (MessengerInfoModel.hasId id) (mi_conversations mi))
    as [i|] eqn:Hfind; simpl.
  - rewrite find_updateFirst, Hfind by done. simpl.
    by rewrite updateFirst_twice.
  - rewrite Hfind. by rewrite updateFirst_twice.
Qed.

Lemma readIfShared_twice (messages : list Message) (m : Message) :
  readIfShared (set_unread false <$> messages) (readIfShared messages m)
  = readIfShared messages m.
Proof.
  unfold readIfShared at 2 3.
  destruct (bool_decide (m ∈ messages)); [by apply readIfShared_read|].
  destruct (decide (m ∈ (set_unread false <$> messages))) as [Hin|Hout].
  - apply readIfShared_read.
    by apply list_elem_of_fmap in Hin as (x & -> & _).
  - by apply readIfShared_other.
Qed.

(** X28. Selecting a conversation that is already loaded does not load it
    again: the only call on the socket is the batch mark-read call, made
    exactly when the conversation had unread messages; and selecting it once
    more changes nothing at all and calls nothing. *)
Theorem setSelectedConversationId_loaded_again id w c :
  id ≠ 0 →
  conversations (store w) !! id = Some c →
  ∃ w1,
    Store.setSelectedConversationId api (Some id) w = Ok tt w1 ∧
    selectedConversationId (store w1) = Some id ∧
    socketCalls w1 =
      socketCalls w ++
      match ConversationModel.getUnreadIds c with
      | [] => []
      | _ :: _ =>
          [UpdateMessagesReadStatus (ConversationModel.getUnreadIds c)]
      end ∧
    Store.setSelectedConversationId api (Some id) w1 = Ok tt w1.
Proof.
  intros Hid Hc.
  assert (Htruthy : Store.truthy id = true).
  { unfold Store.truthy. by rewrite (proj2 (Z.eqb_neq id 0)). }
  set (c' := set_messages (set_unread false <$> c_messages c) c).
  set (s1 :=
    set_messengerInfo
      (MessengerInfoModel.mutateById id (set_unreadCount 0)
         <$> messengerInfo (store w))
      (readShared (c_messages c)
         (set_conversations (<[id := c']>)
            (set_selectedConversationId (Some id) (store w))))).
  destruct (markConversationAsRead_report_store api
              (ConversationModel.getUnreadIds c)
              (mkWorld s1 (clock w) (effects w)))
    as (w1 & Hreport & Hs1 & Hclock & Hcalls).
  assert (Hrun : Store.setSelectedConversationId api (Some id) w = Ok tt w1).
  { unfold Store.setSelectedConversationId,
      Store.setSelectedConversationId_begin. rewrite Htruthy. simpl.
    rewrite Hc.
    rewrite (markConversationAsRead_local_store id
               (update (set_selectedConversationId (Some id)) w) c Hid Hc).
    simpl. exact Hreport. }
  exists w1. split; [exact Hrun|]. split; [by rewrite Hs1|].
  split; [rewrite Hcalls; reflexivity|].
  assert (Hc1 : conversations (store w1) !! id = Some c').
  { rewrite Hs1. simpl. by rewrite lookup_insert_eq. }
  unfold Store.setSelectedConversationId,
    Store.setSelectedConversationId_begin. rewrite Htruthy. simpl.
  rewrite Hc1.
  rewrite (markConversationAsRead_local_store id
             (update (set_selectedConversationId (Some id)) w1) c' Hid Hc1).
  assert (Hread : ConversationModel.getUnreadIds c' = [])
    by apply getUnreadIds_read.
  rewrite Hread. simpl. f_equal.
  destruct w1 as [s1' t1 e1]. simpl in *. subst s1'. unfold update. simpl.
  f_equal. clear Hc1 Hread Hreport Hrun Hcalls. subst s1 c'.
  destruct (store w) as [cs mi ld er sel sm fr fe th].
  simpl. unfold set_messengerInfo, set_conversations, readShared; simpl.
  f_equal.
  - rewrite insert_insert_eq. f_equal. unfold set_messages. simpl.
    f_equal. rewrite <- list_fmap_compose. apply list_fmap_ext.
    intros i m _. by destruct m.
  - destruct mi as [mi|]; simpl; [|done]. by rewrite mutateById_twice.
  - rewrite <- list_fmap_compose. apply list_fmap_ext. intros i m _.
    apply readIfShared_twice.
  - destruct fr as [m|]; simpl; [|done]. by rewrite readIfShared_twice.
  - destruct fe as [m|]; simpl; [|done]. by rewrite readIfShared_twice.
Qed.

End Reselecting.

(** ** Instances *)

Lemma setSelectedConversationId_loads_and_marks_read_witness :
  conversations (store three_groups) !! 8 = None ∧
  ∃ w',
    Store.setSelectedConversationId online (Some 8) three_groups = Ok tt w' ∧
    selectedConversationId (store w') = Some 8 ∧
    c_messages <$> conversations (store w') !! 8
    = Some (replicate 12 (message (NumId 1) 8 false)).
Proof.
  split; [reflexivity|].
  destruct (setSelectedConversationId_loads_and_marks_read online 8
              three_groups _ _ ltac:(lia) eq_refl eq_refl eq_refl)
    as (w' & c' & Hrun & Hsel & Hc & Hm & _).
  exists w'. split; [exact Hrun|]. split; [exact Hsel|].
  rewrite Hc. simpl. rewrite Hm. reflexivity.
Defined.

Lemma setSelectedConversationId_failed_load_witness :
  conversations (store three_groups) !! 8 = None ∧
  ∃ w',
    Store.setSelectedConversationId offline (Some 8) three_groups = Ok tt w' ∧
    Store.sendMessage 8 "hi" EmptyString w'
    = Throw (TypeError "this.selectedConversation is undefined") w'.
Proof.
  split; [reflexivity|].
  destruct (setSelectedConversationId_failed_load offline 8 three_groups _
              ltac:(lia) eq_refl eq_refl eq_refl)
    as (w' & Hrun & _ & _ & Hsend).
  exists w'. split; [exact Hrun|]. apply Hsend.
Defined.

Lemma loadOlderMessages_after_load_witness :
  messengerInfo (store three_groups) <> None ∧
  ∃ c w',
    Store.loadConversation online 8 30 three_groups = Ok (Some c) w' ∧
    Store.loadOlderMessages online 8 w' = Ok None w'.
Proof.
  split; [discriminate|].
  destruct (loadOlderMessages_after_load online online 8 30 three_groups _ _
              eq_refl eq_refl)
    as (c & w' & Hload & Hfew & _).
  exists c, w'. split; [exact Hload|]. apply Hfew. reflexivity.
Defined.

Lemma updateMessage_twice_witness :
  ∃ c1,
    ConversationModel.updateMessage confirmed (conversation 5 []) = Return c1 ∧
    ConversationModel.updateMessage confirmed c1 = Return c1.
Proof.
  eexists. split; [reflexivity|].
  apply (updateMessage_twice confirmed (conversation 5 [])). reflexivity.
Defined.

Lemma updateMessage_counts_unread_witness :
  MessengerInfoModel.byId 5 roster = Some (mkInfo 5 "Ann" "conversation" 2) ∧
  ∃ w' mi',
    Store.updateMessage (message (NumId 9) 5 true) two_conversations
    = Ok tt w' ∧
    messengerInfo (store w') = Some mi' ∧
    ci_unreadCount <$> MessengerInfoModel.byId 5 mi' = Some 3.
Proof.
  split; [reflexivity|].
  destruct (updateMessage_counts_unread (message (NumId 9) 5 true)
              two_conversations 5 roster _ eq_refl eq_refl eq_refl)
    as (w' & mi' & Hrun & Hmi & Hcount & _).
  exists w', mi'. split; [exact Hrun|]. split; [exact Hmi|]. exact Hcount.
Defined.

Lemma updateMessage_unknown_conversation_witness :
  MessengerInfoModel.byId 99 roster = None ∧
  ∃ w',
    Store.updateMessage (message (NumId 9) 99 true) two_conversations
    = Ok tt w' ∧
    i_effect <$> effects w' = [LoadMessengerInfo].
Proof.
  split; [reflexivity|].
  destruct (updateMessage_unknown_conversation (message (NumId 9) 99 true)
              two_conversations 99 roster eq_refl eq_refl eq_refl)
    as (w' & Hrun & _ & Heff).
  exists w'. split; [exact Hrun|]. exact Heff.
Defined.

Lemma sendMessage_reply_once_witness :
  messageForReply (store replying) = Some (message (NumId 3) 5 false) ∧
  ∃ w1 w2,
    Store.sendMessage 5 "a" EmptyString replying = Ok tt w1 ∧
    Store.sendMessage 5 "b" EmptyString w1 = Ok tt w2 ∧
    sentOptions w2
    = [mkSendOptions 5 "a" EmptyString (Some (NumId 3));
       mkSendOptions 5 "b" EmptyString None].
Proof.
  split; [reflexivity|].
  destruct (sendMessage_reply_once 5 "a" EmptyString 5 "b" EmptyString
              replying roster 5 _ _ eq_refl eq_refl eq_refl eq_refl)
    as (w1 & w2 & H1 & _ & H2 & Hsent).
  exists w1, w2. split; [exact H1|]. split; [exact H2|]. exact Hsent.
Defined.

Lemma sendMessage_sound_cue_witness :
  selectedConversationId (store replying) = Some 5 ∧
  ∃ w' o,
    Store.sendMessage 5 "a" EmptyString replying = Ok tt w' ∧
    i_effect <$> effects w' = [PlayMsgSent; SendMessage o].
Proof.
  split; [reflexivity|].
  destruct (sendMessage_sound_cue 5 "a" EmptyString replying roster 5 _
              eq_refl eq_refl eq_refl)
    as (w' & o & Hrun & Heff).
  exists w', o. split; [exact Hrun|]. exact Heff.
Defined.

Lemma sendMessage_throws_witness :
  messengerInfo (store with_selection) = None ∧
  ∃ what,
    Store.sendMessage 5 "hi" EmptyString with_selection
    = Throw (TypeError what) with_selection.
Proof.
  split; [reflexivity|].
  apply (sendMessage_throws 5 "hi" EmptyString with_selection).
  left. reflexivity.
Defined.

Lemma pushed_unread_is_reported_witness :
  conversations (store two_conversations) !! 5 = Some (conversation 5 []) ∧
  ∃ w1 w2 unreadIds,
    Store.updateMessage (message (NumId 9) 5 true) two_conversations
    = Ok tt w1 ∧
    Store.markConversationAsRead online 5 w1 = Ok tt w2 ∧
    socketCalls w2 = [UpdateMessagesReadStatus unreadIds] ∧
    NumId 9 ∈ unreadIds.
Proof.
  split; [reflexivity|].
  destruct (pushed_unread_is_reported online (message (NumId 9) 5 true)
              two_conversations 5 _ roster _ ltac:(lia) eq_refl eq_refl
              eq_refl eq_refl eq_refl eq_refl)
    as (w1 & w2 & unreadIds & mi2 & H1 & H2 & Hcalls & Hin & _).
  exists w1, w2, unreadIds. split; [exact H1|]. split; [exact H2|].
  split; [exact Hcalls|]. exact Hin.
Defined.

Lemma updateUserStatus_other_users_witness :
  conversations (store two_conversations) !! 5 = Some (conversation 5 []) ∧
  conversations
    (store (world_of
              (Store.updateUserStatus (typingPush 200) true
                 two_conversations))) !! 5
  = Some (conversation 5 []).
Proof.
  split; [reflexivity|].
  apply (updateUserStatus_other_users (typingPush 200) true two_conversations
           5 (conversation 5 []) eq_refl).
  intros st Hst. injection Hst as <-. simpl. lia.
Defined.

Lemma typingFive_pending : quietPending 1700000006000 typingFive.
Proof.
  split; [reflexivity|]. split; [reflexivity|]. split; [reflexivity|].
  exists 1700000000000. split; [reflexivity|].
  split; [|split; reflexivity].
  split; [reflexivity|]. split; [reflexivity|]. split; [by left|].
  split; [by vm_compute|]. split; [reflexivity|].
  exists 1700000000000. split; [reflexivity|]. split; by vm_compute.
Defined.

Lemma updateStatus_keeps_quiet_timer_witness :
  quietPending 1700000006000 typingFive ∧
  ∃ c',
    ConversationModel.updateStatus 1700000001000
      (typingPush 100) false typingFive
    = Return c' ∧
    typing (ConversationModel.runTimer 1700000005999 c').1 = Some true ∧
    typing (ConversationModel.runTimer 1700000006000 c').1 = Some false.
Proof.
  split; [exact typingFive_pending|].
  destruct (updateStatus_keeps_quiet_timer 1700000001000
              (typingPush 100) 1700000006000
              typingFive typingFive_pending eq_refl)
    as (c' & Hrun & _ & Hbefore & Hafter).
  exists c'. split; [exact Hrun|]. split.
  - apply Hbefore. reflexivity.
  - apply Hafter. discriminate.
Defined.

Lemma conversation_five_timer :
  quietTimer_ok 1700000000000 (conversation 5 []).
Proof.
  split; [|split; reflexivity].
  split; [reflexivity|]. split; [reflexivity|]. split; [by left|].
  split; [by vm_compute|]. split; [reflexivity|]. intros lc H.
  discriminate H.
Defined.

Lemma typing_push_restarts_timer_witness :
  quietTimer_ok 1700000000000 (conversation 5 []) ∧
  ∃ c1 c2,
    ConversationModel.updateStatus 1700000000000 (typingPush 100) true
      (conversation 5 []) = Return c1 ∧
    ConversationModel.updateStatus 1700000004000 (typingPush 100) true
      (ConversationModel.runTimer 1700000004000 c1).1 = Return c2 ∧
    typing (ConversationModel.runTimer 1700000006000 c2).1 = Some true ∧
    typing (ConversationModel.runTimer 1700000010000 c2).1 = Some false.
Proof.
  split; [exact conversation_five_timer|].
  destruct (typing_push_restarts_timer 1700000000000 1700000004000
              (typingPush 100) (typingPush 100) (conversation 5 []) _
              eq_refl conversation_five_timer ltac:(lia) ltac:(lia))
    as (c1 & c2 & H1 & H2 & Hbefore & Hafter).
  exists c1, c2. split; [exact H1|]. split; [exact H2|]. split.
  - apply Hbefore. reflexivity.
  - apply Hafter. discriminate.
Defined.

Lemma deleteGroup_unknown_group_witness :
  findIndex (MessengerInfoModel.hasId 99)
    [mkInfo 7 "a" "chat-group" 0; mkInfo 8 "b" "chat-group" 3;
     mkInfo 9 "c" "chat-group" 0] = None ∧
  ∃ w',
    Store.deleteGroup online 99 three_groups = Ok tt w' ∧
    selectedConversationId (store w') = Some 7.
Proof.
  split; [reflexivity|].
  destruct (deleteGroup_unknown_group online 99 three_groups _ eq_refl eq_refl
              eq_refl)
    as (w' & mi' & Hrun & _ & _ & Hsel).
  exists w'. split; [exact Hrun|]. exact Hsel.
Defined.

Lemma selectMessage_distinct_ids_witness :
  NoDup (m_id <$> selectedMessages (store with_selection)) ∧
  Selection.checkMessageSelected (NumId 5)
    (Selection.selectMessage (message (NumId 5) 5 false)
       (store with_selection)) = true.
Proof.
  assert (Hnd : NoDup (m_id <$> selectedMessages (store with_selection))).
  { apply (bool_decide_unpack _). by vm_compute. }
  split; [exact Hnd|].
  apply (selectMessage_distinct_ids (message (NumId 5) 5 false)
           (store with_selection) Hnd).
Defined.

Lemma deleted_reply_target_not_sent_witness :
  conversations (store two_conversations) !! 5 = Some (conversation 5 []) ∧
  ∃ w1 w2,
    Store.deleteMessage (NumId 3)
      (update (λ s, (Selection.setMessageForReply
                       (message (NumId 3) 5 false) s).1) two_conversations)
    = Ok tt w1 ∧
    Store.sendMessage 5 "a" EmptyString w1 = Ok tt w2 ∧
    sentOptions w2 = [mkSendOptions 5 "a" EmptyString None].
Proof.
  split; [reflexivity|].
  destruct (deleted_reply_target_not_sent 5 "a" EmptyString
              (message (NumId 3) 5 false) two_conversations roster 5 _
              eq_refl eq_refl eq_refl)
    as (w1 & w2 & _ & H1 & _ & H2 & Hsent).
  exists w1, w2. split; [exact H1|]. split; [exact H2|]. exact Hsent.
Defined.

Lemma addContactForAction_distinct_witness :
  NoDup (Recipients.ct_id <$> staged_contacts) ∧
  Recipients.addContactForAction (Recipients.mkContact (NumId 30) None)
    staged_contacts = staged_contacts.
Proof.
  assert (Hnd : NoDup (Recipients.ct_id <$> staged_contacts)).
  { apply (bool_decide_unpack _). by vm_compute. }
  split; [exact Hnd|].
  destruct (addContactForAction_distinct
              (Recipients.mkContact (NumId 30) None) staged_contacts Hnd)
    as (_ & _ & Hrefused).
  apply (Hrefused (Recipients.mkContact (NumId 12) (Some (NumId 30)))).
  - apply list_elem_of_In. right. by left.
  - right. reflexivity.
Defined.

Lemma search_capital_matches_nothing_witness :
  In (Ascii.ascii_of_nat 65) (String.list_ascii_of_string "Ann") ∧
  Search.getContactsAndGroupsData toLowerCaseAscii (Some roster)
    (Search.search toLowerCaseAscii (λ _, Some []) "Ann"
       (Search.mkSearch EmptyString []))
  = ([], [], []).
Proof.
  split; [by left|].
  destruct (search_capital_matches_nothing toLowerCaseAscii (λ _, Some [])
              (Ascii.ascii_of_nat 65) "Ann" (Search.mkSearch EmptyString [])
              (Some roster) toLowerCaseAscii_no_capital ltac:(by left))
    as (_ & _ & Hdata).
  exact Hdata.
Defined.

Lemma setSelectedConversationId_loaded_again_witness :
  conversations (store unread_five) !! 5
  = Some (conversation 5
            [message (NumId 1) 5 true; message (NumId 2) 5 false]) ∧
  ∃ w1,
    Store.setSelectedConversationId online (Some 5) unread_five = Ok tt w1 ∧
    socketCalls w1 = [UpdateMessagesReadStatus [NumId 1]] ∧
    Store.setSelectedConversationId online (Some 5) w1 = Ok tt w1.
Proof.
  split; [reflexivity|].
  destruct (setSelectedConversationId_loaded_again online 5 unread_five _
              ltac:(lia) eq_refl)
    as (w1 & Hrun & _ & Hcalls & Hagain).
  exists w1. split; [exact Hrun|]. split; [exact Hcalls|]. exact Hagain.
Defined.
